(** * Finance Server: the framed request/response channel

    A shallow embedding of [Finance Server/network_channel.cpp]
    (class [NetworkRequestChannel]) and the properties of its framing layer,
    its message codec and its connection set-up.

    Conventions of the embedding.
    - A [std::string] is a list of characters ([text]); a [char] buffer is a
      list of bytes of fixed length, whose initial contents are whatever the
      stack held ([stack_buffer]).
    - [size_t] is a 64-bit unsigned integer, [uint32_t] a 32-bit one; both are
      carried as [Z] with the wrap-around written out.
    - [double] is IEEE binary64: a sign with a zero, an infinity, a NaN or a
      number [m * 2^e]; the payload of a NaN, which [operator<<] does not
      write, is left out.
    - A call has an [outcome]: it returns, it throws, it runs into undefined
      behaviour (a write outside a buffer), or it never comes back from a
      system call.
    - The socket is explicit state: the bytes in flight, the answers the kernel
      gives to the successive [send] and [recv] calls, and a record of the
      system calls made. *)

From Stdlib Require Import String Ascii Bool ZArith Lia List.
From Stdlib Require Import DecimalPos DecimalZ.
Import ListNotations.

Local Open Scope Z_scope.

(* ================================================================== *)
(** * Part I: definitions                                              *)
(* ================================================================== *)

(** ** Characters, text, outcomes *)

(** A [char] of a buffer, and the contents of a [std::string]. *)
Abbreviation byte := ascii (only parsing).
Definition text := list ascii.

(** A string literal of the source as [text]. *)
Definition txt (s : string) : text := list_ascii_of_string s.

Definition NUL : byte := Ascii.zero.

Fixpoint text_eqb (a b : text) : bool :=
  match a, b with
  | [], [] => true
  | x :: a', y :: b' => Ascii.eqb x y && text_eqb a' b'
  | _, _ => false
  end.

(** What a C++ call can throw here: the string literals the constructors
    throw, and the two exceptions of [std::stod] / [std::stoi]. *)
Inductive exn :=
| thrown_literal (what : string)
| invalid_argument (what : string)
| out_of_range (what : string).

(** The writes outside an array the source can perform. *)
Inductive ub :=
| oob_memcpy        (* memcpy(message_buf, ...) beyond message_buf      *)
| oob_recv          (* recv(..., buf + received, ...) beyond the buffer *)
| oob_terminator.   (* buf[length] = '\0' beyond the buffer             *)

Inductive outcome (A : Type) :=
| Returned (a : A)
| Threw (e : exn)
| Undefined (u : ub)
| Blocked.

Arguments Returned {A} a.
Arguments Threw {A} e.
Arguments Undefined {A} u.
Arguments Blocked {A}.

(** ** std::string operations used by the codec *)

Definition delimiter : ascii := "|"%char.

(** [s.find(c)]: the first position of [c], [None] for [string::npos]. *)
Fixpoint find (c : ascii) (s : text) : option nat :=
  match s with
  | [] => None
  | x :: s' => if Ascii.eqb x c then Some O
               else match find c s' with
                    | Some n => Some (S n)
                    | None => None
                    end
  end.

(** [s.substr(pos, len)], [s.substr(pos)] and [s.erase(pos, len)]. *)
Definition substr (s : text) (pos len : nat) : text := firstn len (skipn pos s).
Definition substr_from (s : text) (pos : nat) : text := skipn pos s.
Definition erase (s : text) (pos len : nat) : text :=
  firstn pos s ++ skipn (pos + len) s.

(** The characters of a C string: everything before the first NUL. This is
    what [std::string(const char* )] and [c_str()] consumers see. *)
Fixpoint c_string (b : list byte) : text :=
  match b with
  | [] => []
  | c :: b' => if Ascii.eqb c NUL then [] else c :: c_string b'
  end.

(** ** Decimal text of integers: [operator<<(int)] and [std::stoi] *)

Fixpoint uint_chars (u : Decimal.uint) : text :=
  match u with
  | Decimal.Nil => []
  | Decimal.D0 u => "0"%char :: uint_chars u
  | Decimal.D1 u => "1"%char :: uint_chars u
  | Decimal.D2 u => "2"%char :: uint_chars u
  | Decimal.D3 u => "3"%char :: uint_chars u
  | Decimal.D4 u => "4"%char :: uint_chars u
  | Decimal.D5 u => "5"%char :: uint_chars u
  | Decimal.D6 u => "6"%char :: uint_chars u
  | Decimal.D7 u => "7"%char :: uint_chars u
  | Decimal.D8 u => "8"%char :: uint_chars u
  | Decimal.D9 u => "9"%char :: uint_chars u
  end.

(** [ss << n] for an [int]. *)
Definition int_to_text (z : Z) : text :=
  match z with
  | Z0 => txt "0"
  | Zpos p => uint_chars (Pos.to_uint p)
  | Zneg p => "-"%char :: uint_chars (Pos.to_uint p)
  end.

Definition is_digit (c : ascii) : bool :=
  let n := nat_of_ascii c in (48 <=? n)%nat && (n <=? 57)%nat.

Definition digit_cons (c : ascii) (u : Decimal.uint) : Decimal.uint :=
  match (nat_of_ascii c - 48)%nat with
  | 0%nat => Decimal.D0 u
  | 1%nat => Decimal.D1 u
  | 2%nat => Decimal.D2 u
  | 3%nat => Decimal.D3 u
  | 4%nat => Decimal.D4 u
  | 5%nat => Decimal.D5 u
  | 6%nat => Decimal.D6 u
  | 7%nat => Decimal.D7 u
  | 8%nat => Decimal.D8 u
  | _ => Decimal.D9 u
  end.

(** The longest prefix of decimal digits, and what follows it. *)
Fixpoint take_digits (s : text) : Decimal.uint * text :=
  match s with
  | [] => (Decimal.Nil, [])
  | c :: s' => if is_digit c
               then let '(u, rest) := take_digits s' in (digit_cons c u, rest)
               else (Decimal.Nil, s)
  end.

(** [isspace] in the C locale. *)
Definition isspace (c : ascii) : bool :=
  let n := nat_of_ascii c in
  (n =? 32)%nat || ((9 <=? n)%nat && (n <=? 13)%nat).

Fixpoint skip_space (s : text) : text :=
  match s with
  | c :: s' => if isspace c then skip_space s' else s
  | [] => []
  end.

(** An optional sign: [true] for a minus. *)
Definition take_sign (s : text) : bool * text :=
  match s with
  | c :: s' => if Ascii.eqb c "-"%char then (true, s')
               else if Ascii.eqb c "+"%char then (false, s')
               else (false, s)
  | [] => (false, [])
  end.

Definition INT_MIN : Z := - 2 ^ 31.
Definition INT_MAX : Z := 2 ^ 31 - 1.

(** [std::stoi(s)]: leading white space, a sign, the longest run of digits;
    what follows is ignored. *)
Definition stoi (s : text) : exn + Z :=
  let '(neg, s1) := take_sign (skip_space s) in
  let '(u, _) := take_digits s1 in
  match u with
  | Decimal.Nil => inl (invalid_argument "stoi")
  | _ => let v := if neg then - Z.of_uint u else Z.of_uint u in
         if (INT_MIN <=? v) && (v <=? INT_MAX) then inr v
         else inl (out_of_range "stoi")
  end.

(** ** Decimal text of doubles: [operator<<(double)] and [std::stod] *)

(** A binary64 value: [D_finite s m e] is [(-1)^s * m * 2^e], with [m] of
    53 bits for a normal number and [e = -1074] for a subnormal one, as
    [strtod] returns them. A NaN keeps its sign, which [operator<<] writes
    and [strtod] reads. *)
Inductive double :=
| D_zero (negative : bool)
| D_infinity (negative : bool)
| D_nan (negative : bool)
| D_finite (negative : bool) (m : positive) (e : Z).

(** [DBL_MANT_DIG], [DBL_MIN_EXP] and [DBL_MAX_EXP]. *)
Definition MANT_DIG : Z := 53.
Definition MIN_EXP : Z := -1021.
Definition MAX_EXP : Z := 1024.

(** The exact value [m * 2^e] of a finite double, as a fraction. *)
Definition dyadic (m : positive) (e : Z) : Z * Z :=
  if 0 <=? e then (Zpos m * 2 ^ e, 1) else (Zpos m, 2 ^ (- e)).

(** For [0 < num < den], the least [k >= 1] with [den <= num * 10^k]. *)
Fixpoint leading_zeros (fuel : nat) (num den : Z) : Z :=
  match fuel with
  | O => 1
  | S f => if den <=? num * 10 then 1
           else 1 + leading_zeros f (num * 10) den
  end.

(** The decimal exponent of a positive fraction: [floor (log10 (num/den))]. *)
Definition decimal_exponent (num den : Z) : Z :=
  if den <=? num
  then Z.of_nat (Decimal.nb_digits (N.to_uint (Z.to_N (num / den)))) - 1
  else - leading_zeros (S (Z.to_nat (Z.log2 den))) num den.

Definition round_half_even (num den : Z) : Z :=
  let q := num / den in
  match 2 * (num mod den) ?= den with
  | Lt => q
  | Gt => q + 1
  | Eq => if Z.even q then q else q + 1
  end.

(** The default precision of an [ostream]. *)
Definition PRECISION : Z := 6.

(** The [PRECISION] significant decimal digits of a positive fraction, as an
    integer of that many digits, and the decimal exponent of its first. *)
Definition significant (num den : Z) : Z * Z :=
  let x := decimal_exponent num den in
  let sh := PRECISION - 1 - x in
  let n := if 0 <=? sh then round_half_even (num * 10 ^ sh) den
           else round_half_even num (den * 10 ^ (- sh)) in
  if 10 ^ PRECISION <=? n then (10 ^ (PRECISION - 1), x + 1) else (n, x).

(** Trailing zeros are dropped, and the point with them when nothing is
    left behind it. *)
Fixpoint strip_zeros (s : text) : text :=
  match s with
  | [] => []
  | c :: s' => match strip_zeros s' with
               | [] => if Ascii.eqb c "0"%char then [] else [c]
               | r => c :: r
               end
  end.

Definition with_point (frac : text) : text :=
  match strip_zeros frac with
  | [] => []
  | f => "."%char :: f
  end.

Definition two_digits (a : Z) : text :=
  if a <? 10 then "0"%char :: int_to_text a else int_to_text a.

(** The general format ([%g]) an [ostream] uses by default: fixed notation
    when the exponent lies in [-4, PRECISION), scientific otherwise. *)
Definition fmt_g (v : Z * Z) : text :=
  let '(n, x) := significant (fst v) (snd v) in
  let ds := uint_chars (N.to_uint (Z.to_N n)) in
  if (-4 <=? x) && (x <? PRECISION) then
    if 0 <=? x
    then firstn (Z.to_nat (x + 1)) ds ++ with_point (skipn (Z.to_nat (x + 1)) ds)
    else txt "0." ++ repeat "0"%char (Z.to_nat (- x - 1)) ++ strip_zeros ds
  else
    firstn 1 ds ++ with_point (skipn 1 ds)
      ++ "e"%char :: (if x <? 0 then "-"%char else "+"%char)
      :: two_digits (Z.abs x).

Definition sign_text (neg : bool) : text := if neg then txt "-" else [].

(** [ss << d] for a [double]. *)
Definition double_to_text (d : double) : text :=
  match d with
  | D_zero s => sign_text s ++ txt "0"
  | D_infinity s => sign_text s ++ txt "inf"
  | D_nan s => sign_text s ++ txt "nan"
  | D_finite s m e => sign_text s ++ fmt_g (dyadic m e)
  end.

Definition to_lower (c : ascii) : ascii :=
  let n := nat_of_ascii c in
  if (65 <=? n)%nat && (n <=? 90)%nat then ascii_of_nat (n + 32) else c.

(** [p] (in lower case) is a prefix of [s], letter case ignored: the rest. *)
Fixpoint strip_prefix_ci (p s : text) : option text :=
  match p, s with
  | [], _ => Some s
  | a :: p', b :: s' => if Ascii.eqb a (to_lower b) then strip_prefix_ci p' s'
                        else None
  | _ :: _, [] => None
  end.

(** [floor (log2 (num/den))] for a positive fraction. *)
Definition binary_exponent (num den : Z) : Z :=
  let d := Z.log2 num - Z.log2 den in
  if 0 <=? d
  then (if den * 2 ^ d <=? num then d else d - 1)
  else (if den <=? num * 2 ^ (- d) then d else d - 1).

(** What [strtod] has when it comes to rounding the positive number
    [num/den]: the exponent of its first bit, its first [MANT_DIG] bits, the
    bit after them, and whether any bit further down is set. *)
Definition leading_bits (num den : Z) : Z * Z * bool * bool :=
  let exponent := binary_exponent num den in
  let sh := exponent - MANT_DIG in
  let n := if sh <? 0 then num * 2 ^ (- sh) else num in
  let d := if sh <? 0 then den else den * 2 ^ sh in
  let q := n / d in
  (exponent, q / 2, Z.odd q, negb (n mod d =? 0)).

(** [round_away] of [strtod] in the default rounding mode, to nearest with
    ties to even. *)
Definition round_away (last_digit_odd half_bit more_bits : bool) : bool :=
  half_bit && (last_digit_odd || more_bits).

(** [round_and_return] of [strtod] as glibc 2.36 has it, for [double]:
    whether [errno] is set to [ERANGE], and the value. The number is
    [1.xxx * 2^exponent] with its first 53 bits in [retval]. Below the normal
    range the bits are shifted down and rounded where they then end; the
    round bit that came in is not looked at again there. The result counts
    as tiny unless rounding the 53 bits already reaches the least normal
    number; a tiny inexact result and an overflow set [ERANGE]. *)
Definition round_and_return (negative : bool) (retval exponent : Z)
    (round_bit more_bits : bool) : bool * double :=
  if exponent <? MIN_EXP - 1 - MANT_DIG then (true, D_zero negative)
  else
    let '(erange, retval, exponent, round_bit, more_bits) :=
      if exponent <? MIN_EXP - 1 then
        let shift := MIN_EXP - 1 - exponent in
        let is_tiny :=
          negb ((shift =? 1)
                && round_away (Z.odd retval) round_bit more_bits
                && (2 ^ MANT_DIG <=? retval + 1)) in
        let round_bit' := Z.testbit retval (shift - 1) in
        let more_bits' :=
          more_bits || negb (retval mod 2 ^ (shift - 1) =? 0) in
        (is_tiny && (round_bit' || more_bits'),
         Z.shiftr retval shift, MIN_EXP - 2, round_bit', more_bits')
      else (false, retval, exponent, round_bit, more_bits) in
    if MAX_EXP <=? exponent then (true, D_infinity negative)
    else
      let '(retval, exponent) :=
        if round_away (Z.odd retval) round_bit more_bits then
          if 2 ^ MANT_DIG <=? retval + 1
          then (Z.shiftr (retval + 1) 1, exponent + 1)
          else if (exponent =? MIN_EXP - 2)
                  && Z.testbit (retval + 1) (MANT_DIG - 1)
          then (retval + 1, MIN_EXP - 1)
          else (retval + 1, exponent)
        else (retval, exponent) in
      if MAX_EXP <=? exponent then (true, D_infinity negative)
      else
        (erange,
         match retval with
         | Zpos m => D_finite negative m
                       (if exponent <? MIN_EXP - 1 then MIN_EXP - MANT_DIG
                        else exponent - (MANT_DIG - 1))
         | _ => D_zero negative
         end).

(** The number [num/den] as [strtod] returns it; [stod] turns [ERANGE] into
    [out_of_range]. [cut] tells that [strtod] left digits of the text
    unread, of which it only keeps that there were some. *)
Definition in_range (neg : bool) (num den : Z) (cut : bool) : exn + double :=
  if num =? 0 then inr (D_zero neg)
  else
    let '(exponent, retval, round_bit, more_bits) := leading_bits num den in
    match round_and_return neg retval exponent round_bit (more_bits || cut)
    with
    | (true, _) => inl (out_of_range "stod")
    | (false, d) => inr d
    end.

(** Of a decimal fraction [strtod] reads the digits down to a quarter of
    the least subnormal number, [MANT_DIG - MIN_EXP + 2] places after the
    point: is a digit of [num/den] set further down? *)
Definition digits_cut (num den : Z) : bool :=
  negb ((num * 10 ^ (MANT_DIG - MIN_EXP + 2)) mod den =? 0).

(** An exponent part [e[+-]ddd] (or [p[+-]ddd]); 0 when there is none. *)
Definition exponent_part (marker : ascii) (s : text) : Z :=
  match s with
  | c :: s' =>
      if Ascii.eqb (to_lower c) marker then
        let '(neg, s1) := take_sign s' in
        let '(u, _) := take_digits s1 in
        if neg then - Z.of_uint u else Z.of_uint u
      else 0
  | [] => 0
  end.

Definition parse_decimal (neg : bool) (s : text) : exn + double :=
  let '(ip, s1) := take_digits s in
  let '(fp, s2) := match s1 with
                   | c :: s1' => if Ascii.eqb c "."%char then take_digits s1'
                                 else (Decimal.Nil, s1)
                   | [] => (Decimal.Nil, s1)
                   end in
  match Decimal.app ip fp with
  | Decimal.Nil => inl (invalid_argument "stod")
  | digits =>
      let e10 := exponent_part "e"%char s2 - Z.of_nat (Decimal.nb_digits fp) in
      if 0 <=? e10 then in_range neg (Z.of_uint digits * 10 ^ e10) 1 false
      else in_range neg (Z.of_uint digits) (10 ^ (- e10))
             (digits_cut (Z.of_uint digits) (10 ^ (- e10)))
  end.

Definition hex_value (c : ascii) : option Z :=
  let n := nat_of_ascii (to_lower c) in
  if is_digit c then Some (Z.of_nat (n - 48))
  else if (97 <=? n)%nat && (n <=? 102)%nat then Some (Z.of_nat (n - 87))
  else None.

(** The longest prefix of hexadecimal digits: its value (continuing [acc]),
    its length, and what follows. *)
Fixpoint take_hex (s : text) (acc : Z) : Z * nat * text :=
  match s with
  | [] => (acc, O, [])
  | c :: s' => match hex_value c with
               | Some v => let '(a, n, rest) := take_hex s' (16 * acc + v) in
                           (a, S n, rest)
               | None => (acc, O, s)
               end
  end.

(** The part after [0x]; without a hexadecimal digit only the [0] counts. *)
Definition parse_hex (neg : bool) (s : text) : exn + double :=
  let '(a, ni, s1) := take_hex s 0 in
  let '(b, nf, s2) := match s1 with
                      | c :: s1' => if Ascii.eqb c "."%char then take_hex s1' a
                                    else (a, O, s1)
                      | [] => (a, O, s1)
                      end in
  match (ni + nf)%nat with
  | O => inr (D_zero neg)
  | _ => let e2 := exponent_part "p"%char s2 - 4 * Z.of_nat nf in
         if 0 <=? e2 then in_range neg (b * 2 ^ e2) 1 false
         else in_range neg b (2 ^ (- e2)) false
  end.

(** [std::stod(s)]: leading white space, a sign, then [inf], [nan], a
    hexadecimal or a decimal number; what follows the number is ignored. *)
Definition stod (s : text) : exn + double :=
  let '(neg, s1) := take_sign (skip_space s) in
  match strip_prefix_ci (txt "inf") s1 with
  | Some _ => inr (D_infinity neg)
  | None =>
      match strip_prefix_ci (txt "nan") s1 with
      | Some _ => inr (D_nan neg)
      | None =>
          match strip_prefix_ci (txt "0x") s1 with
          | Some s2 => parse_hex neg s2
          | None => parse_decimal neg s1
          end
      end
  end.

(** ** The records of the protocol *)

(** Modelled from the spec: [RequestType], [Request] and [Response] are
    declared in [network_channel.h], which is not among the sources. The
    fields are those of the spec's data model; a [RequestType] is carried as
    the integer [static_cast<int>] gives, the enumerators numbered in the
    order the spec lists them. *)
Definition RequestType := Z.
Definition DEPOSIT : RequestType := 0.
Definition WITHDRAW : RequestType := 1.
Definition BALANCE : RequestType := 2.
Definition UPLOAD : RequestType := 3.
Definition DOWNLOAD : RequestType := 4.
Definition QUIT : RequestType := 5.

Record Request := mkRequest {
  req_type : RequestType;
  req_user_id : Z;
  req_amount : double;
  req_filename : text;
  req_data : text
}.

Record Response := mkResponse {
  success : bool;
  balance : double;
  data : text;
  message : text
}.

Definition zero_double : double := D_zero false.

(** Modelled from the spec: the constructor call [Request(QUIT)] names the
    type only; the other fields take the zero value of their type. The
    constructor [Response(success, balance, data, message)] takes the fields
    in the order of the record, as its call at the end of [send_request]
    names them. *)
Definition Request_of_type (t : RequestType) : Request :=
  mkRequest t 0 zero_double [] [].

(** ** The message codec *)

(** [send_request], the stream insertions into [ss]:
    TYPE|USER_ID|AMOUNT|FILENAME|DATA. *)
Definition encode_request (req : Request) : text :=
  int_to_text (req_type req) ++ txt "|"
    ++ int_to_text (req_user_id req) ++ txt "|"
    ++ double_to_text (req_amount req) ++ txt "|"
    ++ req_filename req ++ txt "|"
    ++ req_data req.

(** [send_response], the stream insertions into [ss]:
    SUCCESS|BALANCE|DATA|MESSAGE. *)
Definition encode_response (resp : Response) : text :=
  (if success resp then txt "1" else txt "0") ++ txt "|"
    ++ double_to_text (balance resp) ++ txt "|"
    ++ data resp ++ txt "|"
    ++ message resp.

(** [send_request], "Decode response". The locals [success] and [balance]
    are declared without an initial value: [success0] and [balance0] are what
    they hold when no assignment reaches them. [data] and [message] start
    empty. *)
Definition decode_response (success0 : bool) (balance0 : double)
    (response_str : text) : outcome Response :=
  let '(success, response_str) :=
    match find delimiter response_str with
    | Some pos => (text_eqb (substr response_str 0 pos) (txt "1"),
                   erase response_str 0 (pos + 1))
    | None => (success0, response_str)
    end in
  let second :=
    match find delimiter response_str with
    | Some pos => match stod (substr response_str 0 pos) with
                  | inl e => inl e
                  | inr v => inr (v, erase response_str 0 (pos + 1))
                  end
    | None => inr (balance0, response_str)
    end in
  match second with
  | inl e => Threw e
  | inr (balance, response_str) =>
      let '(data, message) :=
        match find delimiter response_str with
        | Some pos => (substr response_str 0 pos,
                       substr_from response_str (pos + 1))
        | None => ([], [])
        end in
      Returned (mkResponse success balance data message)
  end.

(** One split: the field before the first delimiter and the text after it. *)
Definition split_field (s : text) : option (text * text) :=
  match find delimiter s with
  | Some pos => Some (substr s 0 pos, substr_from s (pos + 1))
  | None => None
  end.

(** Modelled from the spec: [Request::parseRequest] is declared in
    [network_channel.h], which is not among the sources. The spec has the
    decoder split on the delimiter from the left, one field per split, the
    last field ([data]) taking all the remaining text; the numeric fields go
    through the inverse numeric parse; a string with fewer delimiters than
    fields leaves the trailing fields at their default. The spec does not say
    which default: the zero value of each type is taken here. *)
Definition parseRequest (s : text) : outcome Request :=
  let d := Request_of_type 0 in
  match split_field s with
  | None => Returned d
  | Some (f1, s1) =>
      match stoi f1 with
      | inl e => Threw e
      | inr t =>
          match split_field s1 with
          | None => Returned (mkRequest t 0 zero_double [] [])
          | Some (f2, s2) =>
              match stoi f2 with
              | inl e => Threw e
              | inr u =>
                  match split_field s2 with
                  | None => Returned (mkRequest t u zero_double [] [])
                  | Some (f3, s3) =>
                      match stod f3 with
                      | inl e => Threw e
                      | inr a =>
                          match split_field s3 with
                          | None => Returned (mkRequest t u a [] [])
                          | Some (f4, s4) => Returned (mkRequest t u a f4 s4)
                          end
                      end
                  end
              end
          end
      end
  end.

(** ** Machine integers and buffers *)

Definition wrap64 (z : Z) : Z := z mod 2 ^ 64.
Definition wrap32 (z : Z) : Z := z mod 2 ^ 32.

Definition byte_of_Z (z : Z) : byte := ascii_of_N (Z.to_N (z mod 256)).
Definition Z_of_byte (b : byte) : Z := Z.of_N (N_of_ascii b).

(** [htonl(x)] copied into [length_buf]: the four bytes, most significant
    first. *)
Definition htonl_bytes (x : Z) : list byte :=
  [byte_of_Z (x / 2 ^ 24); byte_of_Z (x / 2 ^ 16); byte_of_Z (x / 2 ^ 8);
   byte_of_Z x].

(** [length_buf] copied into a [uint32_t] and passed through [ntohl]. *)
Definition ntohl_bytes (b : list byte) : Z :=
  fold_left (fun acc c => acc * 256 + Z_of_byte c) b 0.

Definition BUFFER_SIZE : nat := 1024.

Definition buffer := list byte.

(** A local array of [n] bytes: [n] bytes of whatever the stack held. *)
Definition stack_buffer (n : nat) (junk : list byte) : buffer :=
  firstn n (junk ++ repeat NUL n).

(** Writing [bytes] at offset [off]; [None] when the write does not fit the
    array. *)
Definition buf_write (b : buffer) (off : nat) (bytes : list byte)
    : option buffer :=
  if (off + length bytes <=? length b)%nat
  then Some (firstn off b ++ bytes ++ skipn (off + length bytes) b)
  else None.

Definition buf_read (b : buffer) (off len : nat) : list byte :=
  firstn len (skipn off b).

(** ** The socket *)

(** The kernel's answer to one [send] or [recv]: an error ([-1]), or the
    number of bytes it is ready to take or to hand over in that call. *)
Inductive send_ev := SendErr | SendUpTo (c : nat).
Inductive recv_ev := RecvErr | RecvUpTo (c : nat).

(** A system call as [strace] would show it: the length asked for and the
    value returned. *)
Inductive syscall :=
| SysSend (len : nat) (ret : Z)
| SysRecv (len : nat) (ret : Z).

(** - [inbox]: the bytes the peer has written and that were not read yet; an
      empty inbox reads as end of stream (the peer is done);
    - [recvs], [sends]: the answers to the calls to come; a call made when
      none is left never returns;
    - [outbox]: the bytes handed to the kernel so far;
    - [trace]: the calls made so far. *)
Record socket := mkSocket {
  inbox : list byte;
  recvs : list recv_ev;
  sends : list send_ev;
  outbox : list byte;
  trace : list syscall
}.

(** [send(sockfd, p, len, 0)] where [bytes] are the [len] bytes at [p],
    answered by [ev]. *)
Definition send (ev : send_ev) (rest : list send_ev) (s : socket)
    (bytes : list byte) : Z * socket :=
  match ev with
  | SendErr =>
      (-1, mkSocket (inbox s) (recvs s) rest (outbox s)
             (trace s ++ [SysSend (length bytes) (-1)]))
  | SendUpTo c =>
      let k := Nat.min c (length bytes) in
      (Z.of_nat k,
       mkSocket (inbox s) (recvs s) rest (outbox s ++ firstn k bytes)
         (trace s ++ [SysSend (length bytes) (Z.of_nat k)]))
  end.

(** [recv(sockfd, p, len, 0)] answered by [ev]: the value returned and the
    bytes the kernel stores at [p]. *)
Definition recv (ev : recv_ev) (rest : list recv_ev) (s : socket)
    (len : nat) : Z * list byte * socket :=
  match ev with
  | RecvErr =>
      (-1, [], mkSocket (inbox s) rest (sends s) (outbox s)
                 (trace s ++ [SysRecv len (-1)]))
  | RecvUpTo c =>
      let k := Nat.min (Nat.min c len) (length (inbox s)) in
      (Z.of_nat k, firstn k (inbox s),
       mkSocket (skipn k (inbox s)) rest (sends s) (outbox s)
         (trace s ++ [SysRecv len (Z.of_nat k)]))
  end.

(** ** The framing loops *)

Inductive send_end := SendDone | SendFailed | SendBlocked.

(** [send_request], both sending loops:
    [while (sent < n) { i = send(..., buf + sent, n - sent, 0);
                        if (i == -1) return ...; sent += i; }] *)
Fixpoint send_loop (ss : list send_ev) (s : socket) (buf : buffer)
    (n sent : Z) {struct ss} : send_end * socket :=
  if sent <? n then
    match ss with
    | [] => (SendBlocked, s)
    | ev :: rest =>
        let '(i, s') :=
          send ev rest s (buf_read buf (Z.to_nat sent) (Z.to_nat (n - sent))) in
        if i =? -1 then (SendFailed, s')
        else send_loop rest s' buf n (wrap64 (sent + i))
    end
  else (SendDone, s).

(** [send_response], both sending loops: the failure is reported with
    [perror] and the loop goes on to [sent += i].
    [while (sent < n) { i = send(..., buf + sent, n - sent, 0);
                        if (i == -1) { perror(...); } sent += i; }] *)
Fixpoint send_loop_perror (ss : list send_ev) (s : socket) (buf : buffer)
    (n sent : Z) {struct ss} : send_end * socket :=
  if sent <? n then
    match ss with
    | [] => (SendBlocked, s)
    | ev :: rest =>
        let '(i, s') :=
          send ev rest s (buf_read buf (Z.to_nat sent) (Z.to_nat (n - sent))) in
        send_loop_perror rest s' buf n (wrap64 (sent + i))
    end
  else (SendDone, s).

Inductive recv_end :=
| RecvDone (buf : buffer)
| RecvFailed
| RecvOverflow
| RecvBlocked.

(** [send_request] and [receive_request], "Receiving whole message":
    [while (received < len) { i = recv(..., buf + received, len - received, 0);
                              if (i == -1) return ...; received += i; }] *)
Fixpoint recv_loop (rs : list recv_ev) (s : socket) (buf : buffer)
    (len received : Z) {struct rs} : recv_end * socket :=
  if received <? len then
    match rs with
    | [] => (RecvBlocked, s)
    | ev :: rest =>
        let '(i, bytes, s') := recv ev rest s (Z.to_nat (len - received)) in
        if i =? -1 then (RecvFailed, s')
        else match buf_write buf (Z.to_nat received) bytes with
             | None => (RecvOverflow, s')
             | Some buf' => recv_loop rest s' buf' len (wrap64 (received + i))
             end
    end
  else (RecvDone buf, s).

(** What reading a frame gives the decoder: the failure branch was taken, or
    the text of the buffer. *)
Inductive frame := FrameFailed | FrameText (t : text).

(** The header read of [send_request] ("Read response header first") and
    of [receive_request]: one [recv] of four bytes into [length_buf], taken
    as a [size_t]; anything but 4 is the failure branch ([None]), otherwise
    the length out of [length_buf].
    [size_t n = recv(sockfd, length_buf, 4, 0); if (n != 4) { ... }] *)
Definition read_header (length_buf : buffer) (s : socket)
    : outcome (option Z) * socket :=
  match recvs s with
  | [] => (Blocked, s)
  | ev :: rest =>
      let '(i, bytes, s1) := recv ev rest s 4 in
      let n := wrap64 i in
      if negb (n =? 4) then (Returned None, s1)
      else
        let length_buf := bytes ++ skipn (length bytes) length_buf in
        (Returned (Some (ntohl_bytes (firstn 4 length_buf))), s1)
  end.

(** The frame-reading half shared, line for line, by [send_request] (from
    "Read response header first" to [resp_buf[resp_converted] = '\0']) and
    by [receive_request] (its body but the last line): the header, the
    receiving loop, the terminator, and the buffer read as a C string.
    [length_buf] is the header array as the caller left it, [junk] the
    initial contents of the message array. *)
Definition read_frame (length_buf : buffer) (junk : list byte) (s : socket)
    : outcome frame * socket :=
  match read_header length_buf s with
  | (Returned None, s1) => (Returned FrameFailed, s1)
  | (Returned (Some converted), s1) =>
      match recv_loop (recvs s1) s1 (stack_buffer BUFFER_SIZE junk)
              converted 0 with
      | (RecvBlocked, s2) => (Blocked, s2)
      | (RecvFailed, s2) => (Returned FrameFailed, s2)
      | (RecvOverflow, s2) => (Undefined oob_recv, s2)
      | (RecvDone buf, s2) =>
          match buf_write buf (Z.to_nat converted) [NUL] with
          | None => (Undefined oob_terminator, s2)
          | Some buf' => (Returned (FrameText (c_string buf')), s2)
          end
      end
  | (Threw e, s1) => (Threw e, s1)
  | (Undefined u, s1) => (Undefined u, s1)
  | (Blocked, s1) => (Blocked, s1)
  end.

(** ** The three exchanges *)

(** What the uninitialised locals of [send_request] hold. *)
Record send_request_stack := mkStack {
  message_buf0 : list byte;
  resp_buf0 : list byte;
  success0 : bool;
  balance0 : double
}.

Definition send_failed : Response := mkResponse false zero_double [] (txt "Send failed").
Definition receive_failed : Response := mkResponse false zero_double [] (txt "Receive failed").

(** [send_request], "Decode response", on what the frame reading gave: the
    failure branch returns the synthesized response. *)
Definition response_of_frame (stack : send_request_stack)
    (r : outcome frame * socket) : outcome Response * socket :=
  match r with
  | (Returned FrameFailed, s) => (Returned receive_failed, s)
  | (Returned (FrameText response_str), s) =>
      (decode_response (success0 stack) (balance0 stack) response_str, s)
  | (Threw e, s) => (Threw e, s)
  | (Undefined u, s) => (Undefined u, s)
  | (Blocked, s) => (Blocked, s)
  end.

(** [Response NetworkRequestChannel::send_request(const Request& req)] *)
Definition send_request (stack : send_request_stack) (req : Request)
    (s : socket) : outcome Response * socket :=
  let request_str := encode_request req in
  let length_buf := htonl_bytes (wrap32 (Z.of_nat (length request_str))) in
  match send_loop (sends s) s length_buf 4 0 with
  | (SendBlocked, s1) => (Blocked, s1)
  | (SendFailed, s1) => (Returned send_failed, s1)
  | (SendDone, s1) =>
      match buf_write (stack_buffer BUFFER_SIZE (message_buf0 stack)) 0
              request_str with
      | None => (Undefined oob_memcpy, s1)
      | Some message_buf =>
          match send_loop (sends s1) s1 message_buf
                  (Z.of_nat (length request_str)) 0 with
          | (SendBlocked, s2) => (Blocked, s2)
          | (SendFailed, s2) => (Returned send_failed, s2)
          | (SendDone, s2) =>
              response_of_frame stack
                (read_frame length_buf (resp_buf0 stack) s2)
          end
      end
  end.

Section ReceiveRequest.

(** [Request::parseRequest], defined outside the sources: the reading of
    a request does not depend on what it computes. *)
Variable parse : text -> outcome Request.

(** [receive_request], its two [return Request(QUIT)] and its last line,
    on what the frame reading gave. *)
Definition request_of_frame (r : outcome frame * socket)
    : outcome Request * socket :=
  match r with
  | (Returned FrameFailed, s) => (Returned (Request_of_type QUIT), s)
  | (Returned (FrameText req_buf), s) => (parse req_buf, s)
  | (Threw e, s) => (Threw e, s)
  | (Undefined u, s) => (Undefined u, s)
  | (Blocked, s) => (Blocked, s)
  end.

(** [Request NetworkRequestChannel::receive_request()]; [length_buf0] and
    [req_buf0] are the initial contents of its two local arrays. *)
Definition receive_request (length_buf0 req_buf0 : list byte) (s : socket)
    : outcome Request * socket :=
  request_of_frame (read_frame (stack_buffer 4 length_buf0) req_buf0 s).

End ReceiveRequest.

(** [void NetworkRequestChannel::send_response(const Response& resp)] *)
Definition send_response (message_buf0 : list byte) (resp : Response)
    (s : socket) : outcome unit * socket :=
  let response_str := encode_response resp in
  let length_buf := htonl_bytes (wrap32 (Z.of_nat (length response_str))) in
  match send_loop_perror (sends s) s length_buf 4 0 with
  | (SendDone, s1) =>
      match buf_write (stack_buffer BUFFER_SIZE message_buf0) 0
              response_str with
      | None => (Undefined oob_memcpy, s1)
      | Some message_buf =>
          match send_loop_perror (sends s1) s1 message_buf
                  (Z.of_nat (length response_str)) 0 with
          | (SendDone, s2) => (Returned tt, s2)
          | (_, s2) => (Blocked, s2)
          end
      end
  | (_, s1) => (Blocked, s1)
  end.

(** ** Connection set-up *)

Inductive Side := SERVER_SIDE | CLIENT_SIDE.

Definition AF_INET : Z := 2.

(** [struct sockaddr_in]: the port as the 16-bit value [htons] is given, the
    address as its four bytes in network order. *)
Record sockaddr_in := mkAddr {
  sin_family : Z;
  sin_port : Z;
  sin_addr : list Z
}.

Definition htons (port : Z) : Z := port mod 2 ^ 16.

Definition INADDR_ANY : list Z := [0; 0; 0; 0].

(** The loop of [inet_pton(AF_INET, src, dst)]: dotted decimal, four parts,
    each at most 255 and without a leading zero. [tmp] holds the parts
    completed, [cur] the part being read. *)
Fixpoint inet_pton4 (src : text) (tmp : list Z) (cur : Z) (saw_digit : bool)
    (octets : nat) : option (list Z) :=
  match src with
  | [] => if (octets <? 4)%nat then None else Some (tmp ++ [cur])
  | ch :: src' =>
      if is_digit ch then
        let new := cur * 10 + (Z.of_nat (nat_of_ascii ch) - 48) in
        if saw_digit && (cur =? 0) then None
        else if 255 <? new then None
        else if saw_digit then inet_pton4 src' tmp new true octets
        else if (4 <? S octets)%nat then None
        else inet_pton4 src' tmp new true (S octets)
      else if Ascii.eqb ch "."%char && saw_digit then
        if (octets =? 4)%nat then None
        else inet_pton4 src' (tmp ++ [cur]) 0 false octets
      else None
  end.

(** [inet_pton(AF_INET, src, &addr)]: [Some] address for the return value
    1, [None] for 0. *)
Definition inet_pton (src : text) : option (list Z) :=
  inet_pton4 src [] 0 false 0.

(** What the kernel answers to the calls of the constructor. *)
Record kernel := mkKernel {
  k_socket : Z;
  k_setsockopt : Z;
  k_bind : sockaddr_in -> Z;
  k_listen : Z;
  k_connect : sockaddr_in -> Z
}.

Record NetworkRequestChannel := mkChannel {
  my_side : Side;
  sockfd : Z;
  server_addr : sockaddr_in;
  peer_ip : text;
  peer_port : Z
}.

(** [NetworkRequestChannel::NetworkRequestChannel(const std::string& ip,
    int port, Side side)] *)
Definition NetworkRequestChannel_new (k : kernel) (ip : text) (port : Z)
    (side : Side) : outcome NetworkRequestChannel :=
  match side with
  | SERVER_SIDE =>
      if k_socket k =? -1
      then Threw (thrown_literal "Error creating socket server side")
      else if k_setsockopt k =? -1
      then Threw (thrown_literal "Error allowing address reuse server side")
      else
        let bound :=
          match ip with
          | [] => Some INADDR_ANY
          | _ => inet_pton (c_string ip)
          end in
        match bound with
        | None => Threw (thrown_literal "Error setting address server side")
        | Some a =>
            let server_addr := mkAddr AF_INET (htons port) a in
            if k_bind k server_addr =? -1
            then Threw (thrown_literal "Error binding")
            else if k_listen k =? -1
            then Threw (thrown_literal "Error listening")
            else Returned (mkChannel SERVER_SIDE (k_socket k) server_addr
                             (txt "0.0.0.0") port)
        end
  | CLIENT_SIDE =>
      if k_socket k =? -1
      then Threw (thrown_literal "Error creating socket client side")
      else
        let resolved :=
          if text_eqb ip (txt "localhost")
          then inet_pton (txt "127.0.0.1")
          else inet_pton (c_string ip) in
        match resolved with
        | None => Threw (thrown_literal "Error setting address client side")
        | Some a =>
            let server_addr := mkAddr AF_INET (htons port) a in
            if k_connect k server_addr =? -1
            then Threw (thrown_literal "Error connecting")
            else Returned (mkChannel CLIENT_SIDE (k_socket k) server_addr
                             ip port)
        end
  end.

(** ** Vocabulary of the statements *)

(** A frame on the wire: the length, four bytes in network order, then the
    payload. *)
Definition frame_of (payload : text) : list byte :=
  htonl_bytes (wrap32 (Z.of_nat (length payload))) ++ payload.

(** An answer of the kernel that moves at least one byte. *)
Definition takes (ev : send_ev) : bool :=
  match ev with SendUpTo (S _) => true | _ => false end.

Definition delivers (ev : recv_ev) : bool :=
  match ev with RecvUpTo (S _) => true | _ => false end.

(** The first [recv] hands over four bytes at once, if the peer wrote
    them. *)
Definition header_whole (rs : list recv_ev) : bool :=
  match rs with
  | RecvUpTo c :: _ => (4 <=? c)%nat
  | _ => false
  end.

(** The first [recv], answered by [ev], returns all four bytes of the
    header: the kernel hands over that many and the peer has written them. *)
Definition header_arrives (ev : recv_ev) (s : socket) : bool :=
  match ev with
  | RecvUpTo c => (4 <=? c)%nat && (4 <=? length (inbox s))%nat
  | RecvErr => false
  end.

(** A socket nothing was done with yet. *)
Definition fresh_socket (inb : list byte) (rs : list recv_ev)
    (ss : list send_ev) : socket :=
  mkSocket inb rs ss [] [].

Definition syscall_failed (c : syscall) : bool :=
  match c with
  | SysSend _ r => r =? -1
  | SysRecv _ r => r =? -1
  end.

(** The value returned by the first [recv] of a trace. *)
Fixpoint first_recv (t : list syscall) : option Z :=
  match t with
  | [] => None
  | SysRecv _ r :: _ => Some r
  | SysSend _ _ :: t' => first_recv t'
  end.

(** An exchange whose trace shows an I/O failure: a call returned [-1], or
    the header [recv] (the first one) returned anything but 4, which
    includes the 0 of a closed connection. *)
Definition io_failed (t : list syscall) : Prop :=
  existsb syscall_failed t = true
  \/ exists r, first_recv t = Some r /\ r <> 4.


(** A text field without the delimiter. *)
Definition delimiter_free (t : text) : Prop := ~ In delimiter t.

Definition not_delimiter (c : ascii) : Prop := c <> delimiter.

(** The range of an [int]. *)
Definition is_int (z : Z) : Prop := INT_MIN <= z <= INT_MAX.

(** 100.5 and 0.1234567 as binary64. *)
Definition d100_5 : double := D_finite false 7072058789855232 (-46).
Definition d0_1234567 : double := D_finite false 8895992769862258 (-56).

(** The last call of the trace is the first one to fail: nothing was
    tried after it. *)
Definition fails_last (t : list syscall) : Prop :=
  exists t0 c, t = t0 ++ [c] /\ ~ io_failed t0.

(** ** The peer of an accepted connection *)

Definition INET_ADDRSTRLEN : nat := 16.

Definition ntohs (x : Z) : Z := x mod 2 ^ 16.

(** [sprintf(tmp, "%u.%u.%u.%u", ...)] on the four bytes of an address. *)
Definition dotted (a b c d : Z) : text :=
  int_to_text a ++ txt "." ++ int_to_text b ++ txt "."
    ++ int_to_text c ++ txt "." ++ int_to_text d.

(** [inet_ntop(AF_INET, &addr, ip, size)]: the dotted form when it fits
    [size] characters with its terminator, [None] for [NULL]. *)
Definition inet_ntop (addr : list Z) (size : nat) : option text :=
  match addr with
  | [a; b; c; d] =>
      let tmp := dotted a b c d in
      if (length tmp <? size)%nat then Some tmp else None
  | _ => None
  end.

(** [NetworkRequestChannel::NetworkRequestChannel(int fd)]. [getpeername]
    is the kernel's answer for a descriptor, [None] for -1. The member
    [server_addr] is not assigned by this constructor: [server_addr0] is
    what it holds. *)
Definition NetworkRequestChannel_of_fd
    (getpeername : Z -> option sockaddr_in) (server_addr0 : sockaddr_in)
    (fd : Z) : outcome NetworkRequestChannel :=
  match getpeername fd with
  | None => Threw (thrown_literal "Error getting peer info")
  | Some client_addr =>
      match inet_ntop (sin_addr client_addr) INET_ADDRSTRLEN with
      | None => Threw (thrown_literal "Error getting ip")
      | Some ip =>
          Returned (mkChannel SERVER_SIDE fd server_addr0 ip
                      (ntohs (sin_port client_addr)))
      end
  end.

(** [string NetworkRequestChannel::get_peer_address() const] *)
Definition get_peer_address (ch : NetworkRequestChannel) : text :=
  peer_ip ch ++ txt ":" ++ int_to_text (peer_port ch).

(** [int NetworkRequestChannel::get_socket_fd() const] *)
Definition get_socket_fd (ch : NetworkRequestChannel) : Z := sockfd ch.

(** A byte of an address. *)
Definition is_octet (z : Z) : Prop := 0 <= z <= 255.

(** ** More vocabulary *)

Definition is_send (c : syscall) : bool :=
  match c with SysSend _ _ => true | SysRecv _ _ => false end.

Definition is_recv (c : syscall) : bool :=
  match c with SysRecv _ _ => true | SysSend _ _ => false end.

(** Every answer of the kernel hands over up to four bytes or more. *)
Definition hands_over_four (ev : recv_ev) : bool :=
  match ev with RecvUpTo c => (4 <=? c)%nat | RecvErr => false end.

(** The value of a decimal digit, and of a run of digits continuing the
    value [cur]. *)
Definition digit_value (c : ascii) : Z := Z.of_nat (nat_of_ascii c) - 48.

Definition decimal_value (ds : text) (cur : Z) : Z :=
  fold_left (fun acc c => acc * 10 + digit_value c) ds cur.

(** The decimal text of [o] is one to three digits, without a leading zero
    when there are several, and of value [o]. *)
Definition octet_text_ok (o : Z) : bool :=
  match int_to_text o with
  | [] => false
  | c :: ds =>
      forallb is_digit (c :: ds) && (length ds <=? 2)%nat
      && match ds with [] => true | _ => negb (digit_value c =? 0) end
      && (decimal_value ds (digit_value c) =? o)
  end.

(** While [inet_pton] reads a part of an address, the decimal text of
    [cur * 10 + v] is the text of [cur], none for a part not begun, followed
    by the digit [v]. *)
Definition digit_appends (cur : Z) : bool :=
  forallb (fun v =>
             text_eqb (int_to_text (cur * 10 + Z.of_nat v))
               ((if cur =? 0 then [] else int_to_text cur)
                  ++ [ascii_of_nat (48 + v)]))
    (seq 0 10).

(** The parts of an address that are complete, each with its dot. *)
Definition parts_text (tmp : list Z) : text :=
  concat (map (fun o => int_to_text o ++ txt ".") tmp).

(** The characters [operator<<] writes for a number. *)
Definition numeric_alphabet : text := txt "0123456789+-.einfa".

Definition numeric (c : ascii) : Prop := In c numeric_alphabet.

(** A payload as its receiver reads it: the bytes are in the array, the
    terminator is written behind them, and the array is taken as a C string
    ([resp_buf[resp_converted] = 0; string response_str(resp_buf)]). *)
Definition received_text (payload : list byte) : text :=
  c_string (payload ++ [NUL]).

(** [data] and [message] as the decoder of [send_request] finds them in
    what follows the second delimiter: split at the next delimiter, and both
    empty when there is none. *)
Definition last_fields (t : text) : text * text :=
  match split_field t with
  | Some (d, m) => (d, m)
  | None => ([], [])
  end.

(** The least positive normal [double], [DBL_MIN] = 2^-1022. *)
Definition DBL_MIN : double := D_finite false 4503599627370496 (-1074).

(* ================================================================== *)
(** * Part II: properties                                              *)
(* ================================================================== *)

(** ** Buffers and C strings *)

Lemma stack_buffer_length (n : nat) (junk : list byte) :
  length (stack_buffer n junk) = n.
Proof.
  unfold stack_buffer.
  rewrite length_firstn, length_app, repeat_length. lia.
Qed.

Lemma buf_write_Some (b : buffer) (off : nat) (bytes : list byte) :
  (off + length bytes <= length b)%nat ->
  buf_write b off bytes
  = Some (firstn off b ++ bytes ++ skipn (off + length bytes) b).
Proof.
  intros H. unfold buf_write.
  destruct (Nat.leb_spec (off + length bytes) (length b)); [reflexivity | lia].
Qed.

Lemma buf_write_None (b : buffer) (off : nat) (bytes : list byte) :
  (length b < off + length bytes)%nat -> buf_write b off bytes = None.
Proof.
  intros H. unfold buf_write.
  destruct (Nat.leb_spec (off + length bytes) (length b)); [lia | reflexivity].
Qed.

Lemma buf_write_length (b b' : buffer) (off : nat) (bytes : list byte) :
  buf_write b off bytes = Some b' -> length b' = length b.
Proof.
  unfold buf_write.
  destruct (Nat.leb_spec (off + length bytes) (length b)); [| discriminate].
  intros [= <-].
  rewrite !length_app, length_firstn, length_skipn. lia.
Qed.

Lemma buf_read_length (b : buffer) (off len : nat) :
  (off + len <= length b)%nat -> length (buf_read b off len) = len.
Proof.
  intros H. unfold buf_read. rewrite length_firstn, length_skipn. lia.
Qed.

Lemma buf_read_nil (b : buffer) (off : nat) : buf_read b off 0 = [].
Proof. reflexivity. Qed.

(** Reading a block in two parts. *)
Lemma buf_read_split (b : buffer) (off k len : nat) :
  (k <= len)%nat ->
  firstn k (buf_read b off len) ++ buf_read b (off + k) (len - k)
  = buf_read b off len.
Proof.
  intros H. unfold buf_read.
  replace (skipn (off + k) b) with (skipn k (skipn off b))
    by (rewrite skipn_skipn; f_equal; lia).
  rewrite (firstn_skipn_comm (len - k) k).
  replace (k + (len - k))%nat with len by lia.
  apply firstn_skipn.
Qed.

Lemma c_string_terminated (t : text) (rest : list byte) :
  ~ In NUL t -> c_string (t ++ NUL :: rest) = t.
Proof.
  induction t as [| c t IH]; intros H; simpl.
  - reflexivity.
  - destruct (Ascii.eqb_spec c NUL) as [-> | _].
    + exfalso. apply H. now left.
    + f_equal. apply IH. intros Hin. apply H. now right.
Qed.

Lemma c_string_tail (p t1 t2 : list byte) :
  c_string (p ++ NUL :: t1) = c_string (p ++ NUL :: t2).
Proof.
  induction p as [| c p IH]; simpl.
  - reflexivity.
  - destruct (Ascii.eqb c NUL); [reflexivity | now rewrite IH].
Qed.

(** ** Network byte order *)

Lemma Z_of_byte_of_Z (z : Z) : Z_of_byte (byte_of_Z z) = z mod 256.
Proof.
  unfold Z_of_byte, byte_of_Z.
  rewrite N_ascii_embedding.
  - apply Z2N.id. apply Z.mod_pos_bound. lia.
  - assert (0 <= z mod 256 < 256) by (apply Z.mod_pos_bound; lia).
    change 256%N with (Z.to_N 256). apply Z2N.inj_lt; lia.
Qed.

Lemma ntohl_htonl (x : Z) : 0 <= x < 2 ^ 32 -> ntohl_bytes (htonl_bytes x) = x.
Proof.
  intros Hx. unfold ntohl_bytes, htonl_bytes. cbn [fold_left].
  rewrite !Z_of_byte_of_Z.
  change (2 ^ 8) with 256.
  change (2 ^ 16) with (256 * 256).
  change (2 ^ 24) with (256 * 256 * 256).
  rewrite <- !Z.div_div by lia.
  pose proof (Z.div_mod x 256 ltac:(lia)) as E1.
  pose proof (Z.div_mod (x / 256) 256 ltac:(lia)) as E2.
  pose proof (Z.div_mod (x / 256 / 256) 256 ltac:(lia)) as E3.
  assert (H3 : 0 <= x / 256 / 256 / 256 < 256).
  { split.
    - repeat apply Z.div_pos; lia.
    - repeat (apply Z.div_lt_upper_bound; [lia |]). lia. }
  rewrite (Z.mod_small (x / 256 / 256 / 256)) by lia.
  lia.
Qed.

Lemma htonl_bytes_length (x : Z) : length (htonl_bytes x) = 4%nat.
Proof. reflexivity. Qed.

(** ** The sending loops *)

Lemma takes_inv (ev : send_ev) :
  takes ev = true -> exists c, ev = SendUpTo (S c).
Proof. destruct ev as [| [| c]]; try discriminate. eauto. Qed.

Lemma delivers_inv (ev : recv_ev) :
  delivers ev = true -> exists c, ev = RecvUpTo (S c).
Proof. destruct ev as [| [| c]]; try discriminate. eauto. Qed.

Lemma wrap64_small (z : Z) : 0 <= z < 2 ^ 64 -> wrap64 z = z.
Proof. intros H. unfold wrap64. now apply Z.mod_small. Qed.

(** With a kernel that takes at least one byte per call, the loop of
    [send_request] sends the block whole. *)
Lemma send_loop_fair (ss : list send_ev) :
  forall (s : socket) (buf : buffer) (n sent : Z),
    forallb takes ss = true ->
    0 <= sent <= n -> n <= Z.of_nat (length buf) -> n < 2 ^ 64 ->
    (Z.to_nat (n - sent) <= length ss)%nat ->
    sends s = ss ->
    exists s' t,
      send_loop ss s buf n sent = (SendDone, s')
      /\ outbox s'
         = outbox s ++ buf_read buf (Z.to_nat sent) (Z.to_nat (n - sent))
      /\ inbox s' = inbox s /\ recvs s' = recvs s
      /\ trace s' = trace s ++ t
      /\ existsb syscall_failed t = false /\ first_recv t = None
      /\ forallb takes (sends s') = true
      /\ (length ss <= length (sends s') + Z.to_nat (n - sent))%nat.
Proof.
  induction ss as [| ev rest IH]; intros s buf n sent Hfair Hs Hn H64 Hlen Hss.
  - assert (sent = n) by (simpl in Hlen; lia). subst sent.
    exists s, []. simpl. rewrite Z.ltb_irrefl, Z.sub_diag, app_nil_r.
    rewrite Hss. simpl. rewrite app_nil_r. repeat split; auto.
  - simpl in Hfair. apply andb_prop in Hfair as [Hev Hrest].
    simpl send_loop.
    destruct (Z.ltb_spec sent n) as [Hlt | Hge].
    + apply takes_inv in Hev as [c ->].
      set (bytes := buf_read buf (Z.to_nat sent) (Z.to_nat (n - sent))).
      assert (Hbl : length bytes = Z.to_nat (n - sent)).
      { apply buf_read_length. lia. }
      unfold send. rewrite Hbl.
      set (k := Nat.min (S c) (Z.to_nat (n - sent))).
      assert (Hk : (1 <= k <= Z.to_nat (n - sent))%nat) by (subst k; lia).
      destruct (Z.eqb_spec (Z.of_nat k) (-1)) as [Hbad | _]; [lia |].
      rewrite wrap64_small by lia.
      match goal with
      | |- context [send_loop rest ?s1 buf n (sent + Z.of_nat k)] =>
          destruct (IH s1 buf n (sent + Z.of_nat k) Hrest) as
            (s' & t & Hrun & Hout & Hin & Hrecv & Htr & Hok & Hfr & Hfs & Hl);
          [lia | lia | lia | simpl in Hlen; lia | reflexivity |]
      end.
      exists s', (SysSend (Z.to_nat (n - sent)) (Z.of_nat k) :: t).
      rewrite Hrun. simpl in Hout, Hin, Hrecv, Htr.
      repeat split; auto.
      * rewrite Hout, <- app_assoc. f_equal.
        replace (Z.to_nat (sent + Z.of_nat k)) with (Z.to_nat sent + k)%nat
          by lia.
        replace (Z.to_nat (n - (sent + Z.of_nat k)))
          with (Z.to_nat (n - sent) - k)%nat by lia.
        subst bytes. now rewrite buf_read_split by lia.
      * rewrite Htr, <- app_assoc. reflexivity.
      * simpl. rewrite Hok.
        destruct (Z.eqb_spec (Z.of_nat k) (-1)); [lia | reflexivity].
      * simpl. lia.
    + assert (sent = n) by lia. subst sent.
      exists s, []. rewrite Z.sub_diag, app_nil_r. simpl.
      rewrite app_nil_r, Hss. simpl. rewrite Hev, Hrest.
      repeat split; auto. lia.
Qed.

(** Without a failing call the loop of [send_response] is the loop of
    [send_request]. *)
Lemma send_loop_perror_fair (ss : list send_ev) :
  forall (s : socket) (buf : buffer) (n sent : Z),
    forallb takes ss = true ->
    send_loop_perror ss s buf n sent = send_loop ss s buf n sent.
Proof.
  induction ss as [| ev rest IH]; intros s buf n sent Hfair; simpl.
  - reflexivity.
  - simpl in Hfair. apply andb_prop in Hfair as [Hev Hrest].
    destruct (sent <? n); [| reflexivity].
    apply takes_inv in Hev as [c ->]. unfold send.
    match goal with
    | |- context [Z.of_nat ?k =? -1] =>
        destruct (Z.eqb_spec (Z.of_nat k) (-1)) as [Hbad | _]; [lia |]
    end.
    now apply IH.
Qed.

(** ** The receiving loop *)

(** With a kernel that hands over at least one byte per call, the loop
    stores what is left of the payload behind what it already has. *)
Lemma recv_loop_fair (rs : list recv_ev) :
  forall (s : socket) (buf : buffer) (len received : Z)
         (got rest more : list byte),
    forallb delivers rs = true ->
    length buf = BUFFER_SIZE ->
    (length got + length rest <= BUFFER_SIZE)%nat ->
    firstn (length got) buf = got ->
    received = Z.of_nat (length got) ->
    len = Z.of_nat (length got + length rest) ->
    inbox s = rest ++ more ->
    recvs s = rs ->
    (length rest <= length rs)%nat ->
    exists s' buf' t,
      recv_loop rs s buf len received = (RecvDone buf', s')
      /\ firstn (length got + length rest) buf' = got ++ rest
      /\ length buf' = BUFFER_SIZE
      /\ inbox s' = more /\ outbox s' = outbox s
      /\ trace s' = trace s ++ t
      /\ existsb syscall_failed t = false.
Proof.
  induction rs as [| ev rs' IH];
    intros s buf len received got rest more Hfair Hbuf Hfit Hgot Hrec Hlen
           Hin Hrs Hsched.
  - destruct rest; [| simpl in Hsched; lia].
    exists s, buf, []. simpl.
    replace (received <? len) with false
      by (symmetry; apply Z.ltb_ge; rewrite Nat.add_0_r in Hlen; lia).
    rewrite Nat.add_0_r, !app_nil_r, Hgot. simpl in Hin.
    repeat split; auto.
  - simpl in Hfair. apply andb_prop in Hfair as [Hev Hrest].
    simpl recv_loop.
    destruct (Z.ltb_spec received len) as [Hlt | Hge].
    + apply delivers_inv in Hev as [c ->]. unfold recv.
      assert (Hr : (1 <= length rest)%nat) by lia.
      replace (Z.to_nat (len - received)) with (length rest) by lia.
      set (k := Nat.min (Nat.min (S c) (length rest)) (length (inbox s))).
      assert (Hk : (1 <= k <= length rest)%nat).
      { subst k. rewrite Hin, length_app. lia. }
      destruct (Z.eqb_spec (Z.of_nat k) (-1)) as [Hbad | _]; [lia |].
      assert (Hbytes : firstn k (inbox s) = firstn k rest).
      { rewrite Hin, firstn_app.
        replace (k - length rest)%nat with 0%nat by lia.
        simpl. apply app_nil_r. }
      rewrite Hbytes.
      assert (Hkl : length (firstn k rest) = k)
        by (rewrite length_firstn; lia).
      rewrite buf_write_Some
        by (rewrite Hkl; replace (Z.to_nat received) with (length got) by lia;
            lia).
      rewrite wrap64_small
        by (unfold BUFFER_SIZE in Hfit; split; [lia |];
            apply Z.le_lt_trans with 1024; [lia | reflexivity]).
      rewrite Hkl. replace (Z.to_nat received) with (length got) by lia.
      rewrite Hgot.
      match goal with
      | |- context [recv_loop rs' ?s1 ?b1 len (received + Z.of_nat k)] =>
          destruct (IH s1 b1 len (received + Z.of_nat k)
                      (got ++ firstn k rest) (skipn k rest) more Hrest)
            as (s' & buf' & t & Hrun & Hpre & Hbl & Hin' & Hob & Htr & Hok)
      end.
      * rewrite !length_app, Hkl, length_skipn. lia.
      * rewrite length_app, Hkl, length_skipn. lia.
      * rewrite length_app, Hkl, app_assoc, firstn_app.
        rewrite firstn_all2 by (rewrite length_app, Hkl; lia).
        replace (length got + k - length (got ++ firstn k rest))%nat
          with 0%nat by (rewrite length_app, Hkl; lia).
        simpl. apply app_nil_r.
      * rewrite length_app, Hkl. lia.
      * rewrite length_app, Hkl, length_skipn. lia.
      * simpl. rewrite Hin, skipn_app.
        replace (k - length rest)%nat with 0%nat by lia. reflexivity.
      * reflexivity.
      * rewrite length_skipn. simpl in Hsched. lia.
      * exists s', buf', (SysRecv (length rest) (Z.of_nat k) :: t).
        rewrite Hrun. simpl in Htr, Hob.
        rewrite length_app, Hkl, length_skipn in Hpre.
        replace (length got + k + (length rest - k))%nat
          with (length got + length rest)%nat in Hpre by lia.
        rewrite <- app_assoc, firstn_skipn in Hpre.
        repeat split; auto.
        -- rewrite Htr, <- app_assoc. reflexivity.
        -- simpl. rewrite Hok.
           destruct (Z.eqb_spec (Z.of_nat k) (-1)); [lia | reflexivity].
    + assert (Hr : length rest = 0%nat) by lia.
      destruct rest; [| discriminate]. simpl in Hin.
      exists s, buf, []. rewrite Nat.add_0_r, !app_nil_r, Hgot.
      repeat split; auto.
Qed.

(** ** Reading a frame *)

Lemma wrap32_length (t : text) :
  (length t <= BUFFER_SIZE)%nat ->
  wrap32 (Z.of_nat (length t)) = Z.of_nat (length t).
Proof.
  intros H. unfold wrap32. apply Z.mod_small. unfold BUFFER_SIZE in H.
  split; [lia |]. apply Z.le_lt_trans with 1024; [lia | reflexivity].
Qed.

(** A header the first [recv] hands over whole is read. *)
Lemma read_header_whole (lb : buffer) (s : socket) (h more : list byte)
    (c : nat) (rest : list recv_ev) :
  length h = 4%nat -> inbox s = h ++ more ->
  recvs s = RecvUpTo c :: rest -> (4 <= c)%nat ->
  read_header lb s
  = (Returned (Some (ntohl_bytes h)),
     mkSocket more rest (sends s) (outbox s) (trace s ++ [SysRecv 4 4])).
Proof.
  intros Hh Hin Hrs Hc. unfold read_header. rewrite Hrs. unfold recv.
  replace (Nat.min (Nat.min c 4) (length (inbox s))) with 4%nat
    by (rewrite Hin, length_app; lia).
  rewrite Hin.
  replace (firstn 4 (h ++ more)) with h
    by (rewrite <- Hh, firstn_app, Nat.sub_diag, firstn_all; simpl;
        now rewrite app_nil_r).
  replace (skipn 4 (h ++ more)) with more
    by (rewrite <- Hh, skipn_app, Nat.sub_diag, skipn_all; reflexivity).
  change (negb (wrap64 (Z.of_nat 4) =? 4)) with false. cbv iota.
  replace (firstn 4 (h ++ skipn (length h) lb)) with h
    by (rewrite <- Hh, firstn_app, Nat.sub_diag, firstn_all; simpl;
        now rewrite app_nil_r).
  reflexivity.
Qed.

(** The reading half on a frame the peer wrote: the header arrives whole,
    the payload in any pieces. *)
Lemma read_frame_fair (payload : text) (lb junk more : list byte)
    (s : socket) :
  (length payload < BUFFER_SIZE)%nat ->
  ~ In NUL payload ->
  forallb delivers (recvs s) = true ->
  header_whole (recvs s) = true ->
  (length payload < length (recvs s))%nat ->
  inbox s = frame_of payload ++ more ->
  exists s' t,
    read_frame lb junk s = (Returned (FrameText payload), s')
    /\ inbox s' = more /\ outbox s' = outbox s
    /\ trace s' = trace s ++ t /\ existsb syscall_failed t = false
    /\ first_recv t = Some 4.
Proof.
  intros Hlen Hnul Hfair Hhead Hsched Hin.
  destruct (recvs s) as [| [| c] rs'] eqn:Hrs; try discriminate.
  cbn [header_whole] in Hhead. cbn [forallb] in Hfair. cbn [length] in Hsched.
  apply Nat.leb_le in Hhead.
  apply andb_prop in Hfair as [_ Hfair].
  unfold frame_of in Hin. rewrite <- app_assoc in Hin.
  unfold read_frame.
  rewrite (read_header_whole lb s _ _ c rs' (htonl_bytes_length _) Hin Hrs Hhead).
  rewrite ntohl_htonl
    by (rewrite wrap32_length by lia; unfold BUFFER_SIZE in Hlen; split;
        [lia |]; apply Z.le_lt_trans with 1024; [lia | reflexivity]).
  rewrite wrap32_length by lia.
  match goal with
  | |- context [recv_loop ?rs ?s1 ?b ?len 0] =>
      destruct (recv_loop_fair rs s1 b len 0 [] payload more)
        as (s' & buf' & t & Hrun & Hpre & Hbl & Hin' & Hob & Htr & Hok);
      auto using stack_buffer_length
  end.
  - cbn [length]. lia.
  - cbn [recvs]. lia.
  - rewrite Hrun. cbn [length app Nat.add] in Hpre.
    rewrite Nat2Z.id, buf_write_Some by (rewrite Hbl; cbn [length]; lia).
    rewrite Hpre. exists s', (SysRecv 4 4 :: t).
    cbn [app]. rewrite c_string_terminated by assumption.
    simpl in Htr, Hob. repeat split; auto.
    rewrite Htr, <- app_assoc. reflexivity.
Qed.

(** ** Writing a frame *)

Lemma first_recv_app (t1 t2 : list syscall) :
  first_recv t1 = None -> first_recv (t1 ++ t2) = first_recv t2.
Proof.
  induction t1 as [| [len r | len r] t1 IH]; simpl; intros H; auto.
  discriminate.
Qed.

(** The two sending loops and the copy between them, with a kernel that
    takes at least one byte per call: the frame goes out whole. *)
Lemma write_frame_fair (s : socket) (junk : list byte) (p : text) :
  (length p <= BUFFER_SIZE)%nat ->
  forallb takes (sends s) = true ->
  (4 + length p <= length (sends s))%nat ->
  exists s1 s2 mbuf t,
    send_loop (sends s) s (htonl_bytes (wrap32 (Z.of_nat (length p)))) 4 0
    = (SendDone, s1)
    /\ forallb takes (sends s1) = true
    /\ buf_write (stack_buffer BUFFER_SIZE junk) 0 p = Some mbuf
    /\ send_loop (sends s1) s1 mbuf (Z.of_nat (length p)) 0 = (SendDone, s2)
    /\ outbox s2 = outbox s ++ frame_of p
    /\ inbox s2 = inbox s /\ recvs s2 = recvs s
    /\ trace s2 = trace s ++ t
    /\ existsb syscall_failed t = false /\ first_recv t = None.
Proof.
  intros Hlen Hfair Hsched.
  destruct (send_loop_fair (sends s) s
              (htonl_bytes (wrap32 (Z.of_nat (length p)))) 4 0 Hfair)
    as (s1 & t1 & Hrun1 & Hout1 & Hin1 & Hrecv1 & Htr1 & Hok1 & Hfr1 & Hfs1 & Hl1);
    try reflexivity; try lia.
  assert (Hw : buf_write (stack_buffer BUFFER_SIZE junk) 0 p
               = Some (p ++ skipn (length p) (stack_buffer BUFFER_SIZE junk))).
  { rewrite buf_write_Some by (rewrite stack_buffer_length; lia).
    reflexivity. }
  set (mbuf := p ++ skipn (length p) (stack_buffer BUFFER_SIZE junk)) in *.
  assert (Hml : length mbuf = BUFFER_SIZE).
  { subst mbuf. rewrite length_app, length_skipn, stack_buffer_length. lia. }
  destruct (send_loop_fair (sends s1) s1 mbuf (Z.of_nat (length p)) 0 Hfs1)
    as (s2 & t2 & Hrun2 & Hout2 & Hin2 & Hrecv2 & Htr2 & Hok2 & Hfr2 & _ & _);
    try reflexivity; try lia.
  { unfold BUFFER_SIZE in Hlen.
    apply Z.le_lt_trans with 1024; [lia | reflexivity]. }
  exists s1, s2, mbuf, (t1 ++ t2).
  repeat split; auto.
  - rewrite Hout2, Hout1, <- app_assoc. f_equal. unfold frame_of. f_equal.
    rewrite Z.sub_0_r, Nat2Z.id. unfold buf_read. subst mbuf. simpl skipn.
    rewrite firstn_app, Nat.sub_diag, firstn_all. simpl. apply app_nil_r.
  - congruence.
  - congruence.
  - rewrite Htr2, Htr1, <- app_assoc. reflexivity.
  - rewrite existsb_app, Hok1, Hok2. reflexivity.
  - rewrite first_recv_app by assumption. assumption.
Qed.

(** [send_response] on such a kernel writes the frame of the encoded
    response and returns. *)
Lemma send_response_fair (mb : list byte) (resp : Response) (s : socket) :
  (length (encode_response resp) <= BUFFER_SIZE)%nat ->
  forallb takes (sends s) = true ->
  (4 + length (encode_response resp) <= length (sends s))%nat ->
  exists s',
    send_response mb resp s = (Returned tt, s')
    /\ outbox s' = outbox s ++ frame_of (encode_response resp).
Proof.
  intros Hlen Hfair Hsched.
  destruct (write_frame_fair s mb _ Hlen Hfair Hsched)
    as (s1 & s2 & mbuf & t & Hrun1 & Hfs1 & Hw & Hrun2 & Hout & _).
  exists s2. unfold send_response.
  rewrite send_loop_perror_fair, Hrun1, Hw by assumption.
  rewrite send_loop_perror_fair, Hrun2 by assumption.
  auto.
Qed.

(** [send_request] on such a kernel writes the frame of the encoded request
    and goes on to read the response. *)
Lemma send_request_fair (stack : send_request_stack) (req : Request)
    (s : socket) :
  (length (encode_request req) <= BUFFER_SIZE)%nat ->
  forallb takes (sends s) = true ->
  (4 + length (encode_request req) <= length (sends s))%nat ->
  exists s2 t,
    send_request stack req s
    = response_of_frame stack
        (read_frame
           (htonl_bytes (wrap32 (Z.of_nat (length (encode_request req)))))
           (resp_buf0 stack) s2)
    /\ outbox s2 = outbox s ++ frame_of (encode_request req)
    /\ inbox s2 = inbox s /\ recvs s2 = recvs s
    /\ trace s2 = trace s ++ t
    /\ existsb syscall_failed t = false /\ first_recv t = None.
Proof.
  intros Hlen Hfair Hsched.
  destruct (write_frame_fair s (message_buf0 stack) _ Hlen Hfair Hsched)
    as (s1 & s2 & mbuf & t & Hrun1 & Hfs1 & Hw & Hrun2 & Hrest).
  exists s2, t. unfold send_request. rewrite Hrun1, Hw, Hrun2. auto.
Qed.

(** Reading changes neither what was sent nor the answers still to come for
    [send]. *)
Lemma recv_loop_outbox (rs : list recv_ev) :
  forall (s : socket) (buf : buffer) (len received : Z),
    outbox (snd (recv_loop rs s buf len received)) = outbox s.
Proof.
  induction rs as [| ev rest IH]; intros s buf len received; simpl.
  - destruct (received <? len); reflexivity.
  - destruct (received <? len); [| reflexivity].
    destruct ev as [| c]; simpl; [reflexivity |].
    match goal with |- context [Z.of_nat ?k =? -1] =>
      destruct (Z.of_nat k =? -1); [reflexivity |] end.
    match goal with |- context [buf_write ?b ?o ?d] =>
      destruct (buf_write b o d); [| reflexivity] end.
    now rewrite IH.
Qed.

Lemma read_header_outbox (lb : buffer) (s : socket) :
  outbox (snd (read_header lb s)) = outbox s.
Proof.
  unfold read_header. destruct (recvs s) as [| [| c] rest]; try reflexivity.
  simpl.
  match goal with |- context [negb ?b] => destruct b; reflexivity end.
Qed.

Lemma read_frame_outbox (lb junk : list byte) (s : socket) :
  outbox (snd (read_frame lb junk s)) = outbox s.
Proof.
  unfold read_frame.
  pose proof (read_header_outbox lb s) as Hh.
  destruct (read_header lb s) as [[[len |] | e | u |] s1]; simpl in Hh;
    try exact Hh.
  pose proof (recv_loop_outbox (recvs s1) s1 (stack_buffer BUFFER_SIZE junk)
                len 0) as Hl.
  destruct (recv_loop (recvs s1) s1 (stack_buffer BUFFER_SIZE junk) len 0)
    as [[buf | | |] s2]; simpl in Hl; simpl; try congruence.
  destruct (buf_write buf (Z.to_nat len) [NUL]); simpl; congruence.
Qed.

Lemma response_of_frame_socket (stack : send_request_stack)
    (r : outcome frame * socket) :
  snd (response_of_frame stack r) = snd r.
Proof. destruct r as [[[| t] | e | u |] s]; reflexivity. Qed.

(** ** Framing integrity *)

(** C2 (amended): for every payload shorter than the 1024-byte buffer and
    free of NUL bytes, reading a frame after the peer wrote it gives exactly
    the payload, for every schedule in which [send] takes and [recv] hands
    over the bytes in pieces of at least one byte, provided the first
    [recv] hands over the four bytes of the header at once. Stated for the
    wire format, for [send_response] read back by the reading half, and for
    [send_request] read back by [receive_request]. *)
Theorem framing_integrity (ss : list send_ev) (rs : list recv_ev)
    (lb junk : list byte) :
  forallb takes ss = true ->
  forallb delivers rs = true ->
  header_whole rs = true ->
  (forall payload : text,
      (length payload < BUFFER_SIZE)%nat -> ~ In NUL payload ->
      (length payload < length rs)%nat ->
      fst (read_frame lb junk (fresh_socket (frame_of payload) rs []))
      = Returned (FrameText payload))
  /\ (forall (resp : Response) (mb : list byte),
         let payload := encode_response resp in
         (length payload < BUFFER_SIZE)%nat -> ~ In NUL payload ->
         (4 + length payload <= length ss)%nat ->
         (length payload < length rs)%nat ->
         let w := snd (send_response mb resp (fresh_socket [] [] ss)) in
         fst (read_frame lb junk (fresh_socket (outbox w) rs []))
         = Returned (FrameText payload))
  /\ (forall (req : Request) (stack : send_request_stack)
             (parse : text -> outcome Request)
             (cin : list byte) (crs : list recv_ev),
         let payload := encode_request req in
         (length payload < BUFFER_SIZE)%nat -> ~ In NUL payload ->
         (4 + length payload <= length ss)%nat ->
         (length payload < length rs)%nat ->
         let w := snd (send_request stack req (fresh_socket cin crs ss)) in
         fst (receive_request parse lb junk (fresh_socket (outbox w) rs []))
         = parse payload).
Proof.
  intros Hss Hrs Hhead.
  assert (Hread : forall (payload : text) (lb' : list byte),
             (length payload < BUFFER_SIZE)%nat -> ~ In NUL payload ->
             (length payload < length rs)%nat ->
             fst (read_frame lb' junk (fresh_socket (frame_of payload) rs []))
             = Returned (FrameText payload)).
  { intros payload lb' Hlen Hnul Hsched.
    destruct (read_frame_fair payload lb' junk []
                (fresh_socket (frame_of payload) rs []) Hlen Hnul Hrs Hhead
                Hsched) as (s' & t & Hrun & _).
    - simpl. now rewrite app_nil_r.
    - now rewrite Hrun. }
  split; [| split].
  - intros payload. apply Hread.
  - intros resp mb payload Hlen Hnul Hs Hr w. subst w.
    destruct (send_response_fair mb resp (fresh_socket [] [] ss))
      as (w & Hrun & Hout); try assumption.
    + fold payload. lia.
    + rewrite Hrun. simpl snd. rewrite Hout. simpl. now apply Hread.
  - intros req stack parse cin crs payload Hlen Hnul Hs Hr w. subst w.
    destruct (send_request_fair stack req (fresh_socket cin crs ss))
      as (s2 & t & Hrun & Hout & _); try assumption.
    + fold payload. lia.
    + rewrite Hrun, response_of_frame_socket, read_frame_outbox, Hout.
      simpl. unfold receive_request.
      fold payload.
      rewrite (surjective_pairing (read_frame _ _ _)), Hread by assumption.
      reflexivity.
Qed.

Lemma framing_integrity_witness :
  let ss := [SendUpTo 3; SendUpTo 1; SendUpTo 5; SendUpTo 2; SendUpTo 9;
             SendUpTo 1; SendUpTo 1; SendUpTo 1; SendUpTo 1; SendUpTo 1;
             SendUpTo 1; SendUpTo 1; SendUpTo 1; SendUpTo 1; SendUpTo 1] in
  let rs := [RecvUpTo 4; RecvUpTo 1; RecvUpTo 3; RecvUpTo 2; RecvUpTo 1;
             RecvUpTo 1; RecvUpTo 1; RecvUpTo 1; RecvUpTo 1; RecvUpTo 1;
             RecvUpTo 1; RecvUpTo 1] in
  let resp := mkResponse true d100_5 [] (txt "OK") in
  forallb takes ss = true /\ forallb delivers rs = true
  /\ header_whole rs = true
  /\ fst (read_frame [] []
            (fresh_socket
               (outbox (snd (send_response [] resp (fresh_socket [] [] ss))))
               rs []))
     = Returned (FrameText (txt "1|100.5||OK")).
Proof.
  intros ss rs resp.
  split; [reflexivity |]. split; [reflexivity |]. split; [reflexivity |].
  apply (proj1 (proj2 (framing_integrity ss rs [] [] eq_refl eq_refl eq_refl))
           resp []).
  - vm_compute. lia.
  - vm_compute. intuition discriminate.
  - vm_compute. lia.
  - vm_compute. lia.
Defined.

(** C2, as stated, fails. First, the peer wrote the frame whole, the
    transport delivers it in pieces of 2, 2 and 11 bytes, and the read gives
    up on the header instead of returning the payload. Second, a payload
    with a NUL byte in it, delivered in one piece, is read back cut at that
    byte. *)
Lemma framing_split_header_counterexample :
  let resp := mkResponse true d100_5 [] (txt "OK") in
  let payload := encode_response resp in
  let w := snd (send_response [] resp
                  (fresh_socket [] [] [SendUpTo 4; SendUpTo 11])) in
  let rs := [RecvUpTo 2; RecvUpTo 2; RecvUpTo 11] in
  let resp' := mkResponse true d100_5 [] ["a"%char; NUL; "b"%char] in
  let payload' := encode_response resp' in
  let w' := snd (send_response [] resp'
                   (fresh_socket [] [] [SendUpTo 4; SendUpTo 12])) in
  ((length payload <= BUFFER_SIZE)%nat
   /\ outbox w = frame_of payload
   /\ forallb delivers rs = true
   /\ fst (read_frame [] [] (fresh_socket (outbox w) rs []))
      = Returned FrameFailed
   /\ fst (read_frame [] [] (fresh_socket (outbox w) rs []))
      <> Returned (FrameText payload))
  /\ ((length payload' <= BUFFER_SIZE)%nat
      /\ outbox w' = frame_of payload'
      /\ fst (read_frame [] []
                (fresh_socket (outbox w') [RecvUpTo 4; RecvUpTo 12] []))
         = Returned (FrameText (txt "1|100.5||a"))
      /\ fst (read_frame [] []
                (fresh_socket (outbox w') [RecvUpTo 4; RecvUpTo 12] []))
         <> Returned (FrameText payload')).
Proof.
  cbv zeta. split.
  - split; [vm_compute; lia |].
    split; [vm_compute; reflexivity |]. split; [reflexivity |].
    split; [vm_compute; reflexivity |].
    intros H. vm_compute in H. discriminate.
  - split; [vm_compute; lia |].
    split; [vm_compute; reflexivity |].
    split; [vm_compute; reflexivity |].
    intros H. vm_compute in H. discriminate.
Qed.

(** ** The header read *)

Lemma wrap64_recv_ret (k : nat) :
  (k <= 4)%nat -> (wrap64 (Z.of_nat k) =? 4) = (k =? 4)%nat.
Proof.
  intros H. rewrite wrap64_small by lia.
  destruct (Z.eqb_spec (Z.of_nat k) 4), (Nat.eqb_spec k 4); auto; lia.
Qed.

(** C8 (amended): the header read is one [recv] of four bytes. It succeeds
    exactly when that one call returns all four bytes, and then gives the
    length they encode; on anything else (an error, the end of the stream,
    or fewer than four bytes, the rest still under way) the frame read takes
    its failure branch, and no further [recv] is made for the header. *)
Theorem header_read_one_recv (lb junk : list byte) (s : socket)
    (ev : recv_ev) (rest : list recv_ev) :
  recvs s = ev :: rest ->
  recvs (snd (read_header lb s)) = rest
  /\ (header_arrives ev s = true ->
      fst (read_header lb s)
      = Returned (Some (ntohl_bytes (firstn 4 (inbox s)))))
  /\ (header_arrives ev s = false ->
      fst (read_header lb s) = Returned None
      /\ read_frame lb junk s = (Returned FrameFailed, snd (read_header lb s))).
Proof.
  intros Hrs.
  assert (Hfail : fst (read_header lb s) = Returned None ->
                  read_frame lb junk s
                  = (Returned FrameFailed, snd (read_header lb s))).
  { unfold read_frame. destruct (read_header lb s) as [o s1]. simpl.
    now intros ->. }
  revert Hfail. unfold read_header. rewrite Hrs.
  destruct ev as [| c]; unfold recv; cbv zeta.
  - change (negb (wrap64 (-1) =? 4)) with true. cbn [fst snd recvs].
    intros Hfail. split; [reflexivity |]. split; [discriminate |].
    intros _. split; [reflexivity |]. now apply Hfail.
  - set (k := Nat.min (Nat.min c 4) (length (inbox s))).
    assert (Hk : (k <= 4)%nat) by (subst k; lia).
    rewrite (wrap64_recv_ret k Hk). unfold header_arrives.
    destruct (Nat.eqb_spec k 4) as [E | E]; cbn [negb fst snd recvs];
      intros Hfail.
    + split; [reflexivity |]. split.
      * intros _. do 3 f_equal.
        rewrite firstn_app, length_firstn.
        replace (Nat.min k (length (inbox s))) with 4%nat by lia.
        rewrite E, firstn_firstn, Nat.sub_diag. cbn [Nat.min firstn].
        apply app_nil_r.
      * intros H. apply andb_false_iff in H as [H | H];
          apply Nat.leb_gt in H; lia.
    + split; [reflexivity |]. split.
      * intros H. apply andb_prop in H as [H1 H2].
        apply Nat.leb_le in H1, H2. lia.
      * intros _. split; [reflexivity |]. now apply Hfail.
Qed.

Lemma header_read_one_recv_witness :
  let s := fresh_socket (frame_of (txt "5|0|0||"))
             [RecvUpTo 3; RecvUpTo 1; RecvUpTo 7] [] in
  recvs s = [RecvUpTo 3; RecvUpTo 1; RecvUpTo 7]
  /\ recvs (snd (read_header [] s)) = [RecvUpTo 1; RecvUpTo 7]
  /\ fst (read_frame [] [] s) = Returned FrameFailed.
Proof.
  intros s.
  split; [reflexivity |].
  destruct (header_read_one_recv [] [] s (RecvUpTo 3) [RecvUpTo 1; RecvUpTo 7]
              eq_refl) as (H1 & _ & H3).
  split; [exact H1 |].
  destruct (H3 eq_refl) as [_ H]. now rewrite H.
Defined.

(** C8, as stated, fails: the peer has written the whole frame and the
    transport hands over its four header bytes in two calls, 2 + 2. The
    receiving loop of the source, run on these two answers, collects them
    all; the header read does not, and [receive_request] gives [QUIT]. *)
Lemma header_in_two_pieces_counterexample :
  let wire := frame_of (txt "2|42|0||") in
  let s := fresh_socket wire [RecvUpTo 2; RecvUpTo 2; RecvUpTo 8] [] in
  (exists buf s',
      recv_loop [RecvUpTo 2; RecvUpTo 2] s (stack_buffer 4 []) 4 0
      = (RecvDone buf, s')
      /\ buf = firstn 4 wire)
  /\ fst (read_header [] s) = Returned None
  /\ fst (receive_request parseRequest [] [] s)
     = Returned (Request_of_type QUIT).
Proof.
  cbv zeta. split.
  - eexists. eexists. split; vm_compute; reflexivity.
  - split; vm_compute; reflexivity.
Qed.

(** ** Oversize frames *)

(** Once more is under way than the buffer holds, the receiving loop
    stores past its end, however the bytes are cut into pieces. *)
Lemma recv_loop_overflow (rs : list recv_ev) :
  forall (s : socket) (buf : buffer) (len received : Z)
         (rest more : list byte),
    forallb delivers rs = true ->
    length buf = BUFFER_SIZE ->
    0 <= received <= Z.of_nat BUFFER_SIZE ->
    len = received + Z.of_nat (length rest) ->
    Z.of_nat BUFFER_SIZE < len ->
    inbox s = rest ++ more ->
    (length rest <= length rs)%nat ->
    fst (recv_loop rs s buf len received) = RecvOverflow.
Proof.
  induction rs as [| ev rs' IH];
    intros s buf len received rest more Hfair Hbuf Hrec Hlen Hbig Hin Hsched.
  - destruct rest; [simpl in Hlen; lia | simpl in Hsched; lia].
  - simpl in Hfair. apply andb_prop in Hfair as [Hev Hrest].
    simpl recv_loop.
    destruct (Z.ltb_spec received len) as [_ | Hge]; [| lia].
    apply delivers_inv in Hev as [c ->]. unfold recv.
    replace (Z.to_nat (len - received)) with (length rest) by lia.
    set (k := Nat.min (Nat.min (S c) (length rest)) (length (inbox s))).
    assert (Hk : (1 <= k <= length rest)%nat).
    { subst k. rewrite Hin, length_app. lia. }
    destruct (Z.eqb_spec (Z.of_nat k) (-1)) as [Hbad | _]; [lia |].
    assert (Hkl : length (firstn k (inbox s)) = k).
    { rewrite length_firstn, Hin, length_app. lia. }
    unfold buf_write. rewrite Hkl, Hbuf.
    destruct (Nat.leb_spec (Z.to_nat received + k) BUFFER_SIZE) as [Hfit | _];
      [| reflexivity].
    rewrite wrap64_small
      by (unfold BUFFER_SIZE in *; split; [lia |];
          apply Z.le_lt_trans with 1024; [lia | reflexivity]).
    apply IH with (rest := skipn k rest) (more := more); auto.
    + rewrite !length_app, Hkl, length_firstn, length_skipn. lia.
    + lia.
    + rewrite length_skipn. lia.
    + cbn [inbox]. rewrite Hin, skipn_app.
      replace (k - length rest)%nat with 0%nat by lia. reflexivity.
    + rewrite length_skipn. simpl in Hsched. lia.
Qed.

(** C1, on the code: a frame whose header declares more than the 1024
    bytes of the buffer, and whose payload the kernel hands over in pieces
    of any size, makes [recv] store past the end of the buffer, in
    [receive_request] as in the reading half of [send_request]. No check is
    made and no error is returned. *)
Theorem oversize_frame_overflows (payload : text) (rs : list recv_ev)
    (lb0 junk : list byte) (parse : text -> outcome Request)
    (stack : send_request_stack) (req : Request) (ss : list send_ev) :
  (BUFFER_SIZE < length payload)%nat ->
  Z.of_nat (length payload) < 2 ^ 32 ->
  forallb delivers rs = true -> header_whole rs = true ->
  (length payload < length rs)%nat ->
  (length (encode_request req) <= BUFFER_SIZE)%nat ->
  forallb takes ss = true ->
  (4 + length (encode_request req) <= length ss)%nat ->
  fst (receive_request parse lb0 junk (fresh_socket (frame_of payload) rs []))
  = Undefined oob_recv
  /\ fst (send_request stack req (fresh_socket (frame_of payload) rs ss))
     = Undefined oob_recv.
Proof.
  intros Hbig H32 Hrs Hhead Hlen Hreq Hss Hsched.
  assert (Hread : forall (lb jk : list byte) (s : socket),
             inbox s = frame_of payload -> recvs s = rs ->
             fst (read_frame lb jk s) = Undefined oob_recv).
  { intros lb jk s Hin Hrecvs. unfold read_frame.
    destruct rs as [| [| c] rs']; try discriminate.
    cbn [header_whole] in Hhead. apply Nat.leb_le in Hhead.
    cbn [forallb] in Hrs. apply andb_prop in Hrs as [_ Hrs].
    rewrite (read_header_whole lb s
               (htonl_bytes (wrap32 (Z.of_nat (length payload))))
               payload c rs' (htonl_bytes_length _) Hin Hrecvs Hhead).
    assert (Hw : wrap32 (Z.of_nat (length payload)) = Z.of_nat (length payload))
      by (unfold wrap32; apply Z.mod_small; lia).
    rewrite Hw, ntohl_htonl by lia.
    match goal with
    | |- context [recv_loop ?r ?s1 ?b ?len 0] =>
        pose proof (recv_loop_overflow r s1 b len 0 payload [] Hrs) as Ho;
        destruct (recv_loop r s1 b len 0) as [e s2]
    end.
    cbn [fst] in Ho. rewrite Ho; [reflexivity | ..].
    - apply stack_buffer_length.
    - lia.
    - lia.
    - lia.
    - cbn [inbox]. now rewrite app_nil_r.
    - cbn [length] in Hlen. cbn [recvs]. lia. }
  split.
  - unfold receive_request.
    rewrite (surjective_pairing (read_frame _ _ _)), Hread; reflexivity.
  - destruct (send_request_fair stack req
                (fresh_socket (frame_of payload) rs ss) Hreq Hss Hsched)
      as (s2 & t & Hrun & _ & Hin & Hrecvs & _).
    rewrite Hrun, (surjective_pairing (read_frame _ _ _)), Hread by assumption.
    reflexivity.
Qed.

Lemma oversize_frame_overflows_witness :
  let payload := repeat "A"%char 1025 in
  let rs := RecvUpTo 4 :: repeat (RecvUpTo 500) 1025 in
  fst (receive_request parseRequest [] []
         (fresh_socket (frame_of payload) rs []))
  = Undefined oob_recv
  /\ fst (send_request (mkStack [] [] false zero_double)
            (Request_of_type BALANCE)
            (fresh_socket (frame_of payload) rs [SendUpTo 4; SendUpTo 7;
               SendUpTo 1; SendUpTo 1; SendUpTo 1; SendUpTo 1; SendUpTo 1;
               SendUpTo 1; SendUpTo 1; SendUpTo 1; SendUpTo 1]))
     = Undefined oob_recv.
Proof.
  intros payload rs.
  apply (oversize_frame_overflows payload rs [] [] parseRequest).
  - vm_compute. lia.
  - vm_compute. reflexivity.
  - vm_compute. reflexivity.
  - reflexivity.
  - vm_compute. lia.
  - vm_compute. lia.
  - reflexivity.
  - vm_compute. lia.
Defined.

(** A frame of exactly 1024 bytes fits the buffer, its terminator does
    not: [req_buf[1024] = '\0']. *)
Lemma full_frame_terminator_overflows :
  let payload := repeat "A"%char 1024 in
  fst (receive_request parseRequest [] []
         (fresh_socket (frame_of payload) [RecvUpTo 4; RecvUpTo 1024] []))
  = Undefined oob_terminator.
Proof. vm_compute. reflexivity. Qed.

(** ** Send failures in [send_response] *)

(** C4, on the code: the second [send] of the header fails. [send_response]
    reports it with [perror] only, steps its counter back by one, sends the
    second header byte again, then the payload, and returns as if all were
    well: five header bytes are on the wire. *)
Theorem send_response_goes_on_after_failure :
  let resp := mkResponse true d100_5 [] (txt "OK") in
  let s := fresh_socket [] []
             [SendUpTo 2; SendErr; SendUpTo 3; SendUpTo 100] in
  let h := htonl_bytes 11 in
  fst (send_response [] resp s) = Returned tt
  /\ trace (snd (send_response [] resp s))
     = [SysSend 4 2; SysSend 2 (-1); SysSend 3 3; SysSend 11 11]
  /\ outbox (snd (send_response [] resp s))
     = firstn 2 h ++ skipn 1 h ++ txt "1|100.5||OK"
  /\ outbox (snd (send_response [] resp s)) <> frame_of (txt "1|100.5||OK").
Proof.
  cbv zeta. repeat split; try (vm_compute; reflexivity).
  intros H. vm_compute in H. discriminate.
Qed.

(** ** What the trace of an exchange tells *)

Lemma io_failed_nil : ~ io_failed [].
Proof. intros [H | (r & H & _)]; discriminate. Qed.

(** Calls that did not fail and among which there is no [recv] do not
    count. *)
Lemma io_failed_app_clean (t1 t2 : list syscall) :
  existsb syscall_failed t1 = false -> first_recv t1 = None ->
  io_failed (t1 ++ t2) -> io_failed t2.
Proof.
  intros Hok Hfr [H | (r & H & Hr)].
  - left. rewrite existsb_app, Hok in H. exact H.
  - right. exists r. rewrite first_recv_app in H by assumption. auto.
Qed.

Lemma clean_not_failed (t : list syscall) :
  existsb syscall_failed t = false ->
  first_recv t = None \/ first_recv t = Some 4 ->
  ~ io_failed t.
Proof.
  intros Hok Hfr [H | (r & H & Hr)]; [congruence |].
  destruct Hfr as [E | E]; rewrite E in H; [discriminate |].
  injection H as <-. now apply Hr.
Qed.

(** The loop of [send_request] stops at the first failing [send]. *)
Lemma send_loop_trace (ss : list send_ev) :
  forall (s s' : socket) (buf : buffer) (n sent : Z) (e : send_end),
    send_loop ss s buf n sent = (e, s') ->
    exists t,
      trace s' = trace s ++ t /\ first_recv t = None
      /\ (e <> SendFailed -> existsb syscall_failed t = false)
      /\ (e = SendFailed ->
          exists t0 c, t = t0 ++ [c] /\ existsb syscall_failed t0 = false).
Proof.
  induction ss as [| ev rest IH]; intros s s' buf n sent e; simpl.
  - destruct (sent <? n); intros [= <- <-]; exists [];
      rewrite app_nil_r; repeat split; auto; discriminate.
  - destruct (sent <? n).
    + destruct ev as [| c]; unfold send.
      * change (-1 =? -1) with true. cbv iota. intros [= <- <-].
        eexists. cbn [trace]. split; [reflexivity |]. split; [reflexivity |].
        split; [congruence |]. intros _. exists [].
        eexists. split; reflexivity.
      * set (k := Nat.min c _).
        destruct (Z.eqb_spec (Z.of_nat k) (-1)) as [Hbad | _]; [lia |].
        intros Hrun. apply IH in Hrun as (t & Htr & Hfr & Hok & Hlast).
        cbn [trace] in Htr. rewrite <- app_assoc in Htr.
        assert (Hk : syscall_failed
                       (SysSend (length (buf_read buf (Z.to_nat sent)
                                           (Z.to_nat (n - sent))))
                          (Z.of_nat k)) = false).
        { cbn [syscall_failed].
          destruct (Z.eqb_spec (Z.of_nat k) (-1)); [lia | reflexivity]. }
        eexists. split; [exact Htr |]. split; [exact Hfr |]. split.
        -- intros He. cbn [app existsb]. rewrite Hk. auto.
        -- intros He. destruct (Hlast He) as (t0 & c0 & -> & H0).
           eexists (_ :: t0), c0. split; [reflexivity |].
           cbn [existsb]. now rewrite Hk.
    + intros [= <- <-]. exists []. rewrite app_nil_r.
      repeat split; auto; discriminate.
Qed.

(** The receiving loop stops at the first failing [recv]. *)
Lemma recv_loop_trace (rs : list recv_ev) :
  forall (s s' : socket) (buf : buffer) (len received : Z) (e : recv_end),
    recv_loop rs s buf len received = (e, s') ->
    exists t,
      trace s' = trace s ++ t
      /\ (e <> RecvFailed -> existsb syscall_failed t = false)
      /\ (e = RecvFailed ->
          exists t0 c, t = t0 ++ [c] /\ existsb syscall_failed t0 = false).
Proof.
  induction rs as [| ev rest IH]; intros s s' buf len received e; simpl.
  - destruct (received <? len); intros [= <- <-]; exists [];
      rewrite app_nil_r; repeat split; auto; discriminate.
  - destruct (received <? len).
    + destruct ev as [| c]; unfold recv.
      * change (-1 =? -1) with true. cbv iota. intros [= <- <-].
        eexists. cbn [trace]. split; [reflexivity |].
        split; [congruence |]. intros _. exists [].
        eexists. split; reflexivity.
      * set (k := Nat.min _ _).
        destruct (Z.eqb_spec (Z.of_nat k) (-1)) as [Hbad | _]; [lia |].
        assert (Hk : syscall_failed
                       (SysRecv (Z.to_nat (len - received)) (Z.of_nat k))
                     = false).
        { cbn [syscall_failed].
          destruct (Z.eqb_spec (Z.of_nat k) (-1)); [lia | reflexivity]. }
        destruct (buf_write buf (Z.to_nat received) (firstn k (inbox s)))
          as [buf' |].
        -- intros Hrun. apply IH in Hrun as (t & Htr & Hok & Hlast).
           cbn [trace] in Htr. rewrite <- app_assoc in Htr.
           eexists. split; [exact Htr |]. split.
           ++ intros He. cbn [app existsb]. rewrite Hk. auto.
           ++ intros He. destruct (Hlast He) as (t0 & c0 & -> & H0).
              eexists (_ :: t0), c0. split; [reflexivity |].
              cbn [existsb]. now rewrite Hk.
        -- intros [= <- <-]. eexists. cbn [trace].
           split; [reflexivity |]. split.
           ++ intros _. cbn [existsb]. now rewrite Hk.
           ++ discriminate.
    + intros [= <- <-]. exists []. rewrite app_nil_r.
      repeat split; auto; discriminate.
Qed.

(** The header read makes one [recv] of four bytes, or none when the kernel
    never answers; what it returns decides the branch. *)
Lemma read_header_trace (lb : buffer) (s s' : socket)
    (o : outcome (option Z)) :
  read_header lb s = (o, s') ->
  (o = Blocked /\ s' = s)
  \/ exists r,
      trace s' = trace s ++ [SysRecv 4 r]
      /\ ((r = 4 /\ exists len, o = Returned (Some len))
          \/ (r <> 4 /\ o = Returned None)).
Proof.
  unfold read_header. destruct (recvs s) as [| ev rest].
  - intros [= <- <-]. now left.
  - intros H. right. destruct ev as [| c]; unfold recv in H; cbv zeta in H.
    + change (negb (wrap64 (-1) =? 4)) with true in H. cbv iota in H.
      injection H as <- <-. exists (-1). cbn [trace].
      split; [reflexivity |]. right. split; [lia | reflexivity].
    + revert H. set (k := Nat.min (Nat.min c 4) (length (inbox s))).
      assert (Hk : (k <= 4)%nat) by (subst k; lia).
      rewrite (wrap64_recv_ret k Hk).
      destruct (Nat.eqb_spec k 4) as [E | E]; cbn [negb];
        intros [= <- <-]; exists (Z.of_nat k); cbn [trace];
        (split; [reflexivity |]).
      * left. split; [lia | eauto].
      * right. split; [lia | reflexivity].
Qed.

(** Whenever the trace of a frame read shows a failure, the failure branch
    was taken, and the failing call was the last one. *)
Lemma read_frame_trace (lb junk : list byte) (s s' : socket)
    (o : outcome frame) :
  read_frame lb junk s = (o, s') ->
  exists t,
    trace s' = trace s ++ t
    /\ (io_failed t -> o = Returned FrameFailed /\ fails_last t).
Proof.
  unfold read_frame.
  destruct (read_header lb s) as [oh s1] eqn:Hh.
  apply read_header_trace in Hh
    as [[-> ->] | (r & Htr & [[-> [len ->]] | [Hr ->]])].
  - intros [= <- <-]. exists []. rewrite app_nil_r. split; auto.
    intros H. now apply io_failed_nil in H.
  - destruct (recv_loop (recvs s1) s1 (stack_buffer BUFFER_SIZE junk) len 0)
      as [e s2] eqn:Hl.
    apply recv_loop_trace in Hl as (t & Htr2 & Hok & Hlast).
    rewrite Htr, <- app_assoc in Htr2.
    assert (Hfail : io_failed ([SysRecv 4 4] ++ t) -> e = RecvFailed).
    { intros H. destruct e; try reflexivity; exfalso; revert H;
        apply clean_not_failed; try (now right);
        cbn [app existsb syscall_failed]; apply Hok; discriminate. }
    assert (Hres : e = RecvFailed -> fails_last ([SysRecv 4 4] ++ t)).
    { intros He. destruct (Hlast He) as (t0 & c0 & -> & H0).
      exists (SysRecv 4 4 :: t0), c0. split; [reflexivity |].
      apply clean_not_failed; [exact H0 | now right]. }
    destruct e as [buf | | |].
    + destruct (buf_write buf (Z.to_nat len) [NUL]); intros [= <- <-];
        eexists; (split; [exact Htr2 |]); intros H; apply Hfail in H;
        discriminate.
    + intros [= <- <-]. eexists. split; [exact Htr2 | auto].
    + intros [= <- <-]. eexists. split; [exact Htr2 |].
      intros H. apply Hfail in H. discriminate.
    + intros [= <- <-]. eexists. split; [exact Htr2 |].
      intros H. apply Hfail in H. discriminate.
  - intros [= <- <-]. eexists. split; [exact Htr |].
    intros _. split; [reflexivity |].
    exists [], (SysRecv 4 r). split; [reflexivity | apply io_failed_nil].
Qed.

(** ** Failures in [receive_request] *)

(** C6: whenever the header read or a payload [recv] of
    [receive_request] fails, the call returns the sentinel request of type
    QUIT: it does not throw, and the failing call is the last one it makes
    (nothing is tried again). Here [t] is the trace of the call, and a
    failure is a [recv] that returned -1, or a header [recv] that returned
    anything but 4. *)
Theorem receive_request_quits_on_failure
    (parse : text -> outcome Request) (lb0 junk : list byte) (s : socket) :
  exists t,
    trace (snd (receive_request parse lb0 junk s)) = trace s ++ t
    /\ (io_failed t ->
        exists q,
          fst (receive_request parse lb0 junk s) = Returned q
          /\ req_type q = QUIT
          /\ fails_last t).
Proof.
  unfold receive_request.
  destruct (read_frame (stack_buffer 4 lb0) junk s) as [o s'] eqn:Hrun.
  apply read_frame_trace in Hrun as (t & Htr & Hfail).
  exists t. split.
  - destruct o as [[| req_buf] | e | u |]; exact Htr.
  - intros H. destruct (Hfail H) as [-> Hlast].
    exists (Request_of_type QUIT). auto.
Qed.

(** A failing payload [recv], then a closed connection at the header. *)
Lemma receive_request_quits_on_failure_witness :
  fst (receive_request parseRequest [] []
         (fresh_socket (frame_of (txt "2|42|0||"))
            [RecvUpTo 4; RecvUpTo 3; RecvErr; RecvUpTo 5] []))
  = Returned (Request_of_type QUIT)
  /\ fst (receive_request parseRequest [] []
            (fresh_socket [] [RecvUpTo 4] []))
     = Returned (Request_of_type QUIT).
Proof.
  split.
  - destruct (receive_request_quits_on_failure parseRequest [] []
                (fresh_socket (frame_of (txt "2|42|0||"))
                   [RecvUpTo 4; RecvUpTo 3; RecvErr; RecvUpTo 5] []))
      as (t & Htr & Hfail).
    vm_compute in Htr. subst t.
    destruct Hfail as (q & Hq & Hquit & _); [left; reflexivity |].
    rewrite Hq. vm_compute in Hq. injection Hq as <-. reflexivity.
  - destruct (receive_request_quits_on_failure parseRequest [] []
                (fresh_socket [] [RecvUpTo 4] []))
      as (t & Htr & Hfail).
    vm_compute in Htr. subst t.
    destruct Hfail as (q & Hq & Hquit & _).
    + right. exists 0. split; [reflexivity | discriminate].
    + rewrite Hq. vm_compute in Hq. injection Hq as <-. reflexivity.
Defined.

(** ** Failures in [send_request] *)

Lemma first_recv_app_None (t1 t2 : list syscall) :
  first_recv (t1 ++ t2) = None -> first_recv t1 = None.
Proof.
  induction t1 as [| [len r | len r] t1 IH]; simpl; auto.
Qed.

Lemma fails_last_app_clean (t1 t2 : list syscall) :
  existsb syscall_failed t1 = false -> first_recv t1 = None ->
  fails_last t2 -> fails_last (t1 ++ t2).
Proof.
  intros Hok Hfr (t0 & c & -> & H0).
  exists (t1 ++ t0), c. split; [now rewrite app_assoc |].
  intros H. apply H0. now apply io_failed_app_clean with t1.
Qed.

Lemma fails_last_send (t t0 : list syscall) (c : syscall) :
  t = t0 ++ [c] -> existsb syscall_failed t0 = false ->
  first_recv t = None -> fails_last t.
Proof.
  intros -> Hok Hfr. exists t0, c. split; [reflexivity |].
  apply clean_not_failed; [exact Hok |].
  left. now apply first_recv_app_None with [c].
Qed.

(** The trace of [send_request]: a failure anywhere ends the call with one
    of the two synthesized responses. *)
Lemma send_request_trace (stack : send_request_stack) (req : Request)
    (s s' : socket) (o : outcome Response) :
  send_request stack req s = (o, s') ->
  exists t,
    trace s' = trace s ++ t
    /\ (io_failed t ->
        (o = Returned send_failed \/ o = Returned receive_failed)
        /\ fails_last t).
Proof.
  unfold send_request.
  set (request_str := encode_request req).
  set (length_buf := htonl_bytes (wrap32 (Z.of_nat (length request_str)))).
  destruct (send_loop (sends s) s length_buf 4 0) as [e1 s1] eqn:H1.
  apply send_loop_trace in H1 as (t1 & Htr1 & Hfr1 & Hok1 & Hlast1).
  destruct e1.
  - specialize (Hok1 ltac:(discriminate)).
    destruct (buf_write (stack_buffer BUFFER_SIZE (message_buf0 stack)) 0
                request_str) as [message_buf |].
    + destruct (send_loop (sends s1) s1 message_buf
                  (Z.of_nat (length request_str)) 0) as [e2 s2] eqn:H2.
      apply send_loop_trace in H2 as (t2 & Htr2 & Hfr2 & Hok2 & Hlast2).
      rewrite Htr1, <- app_assoc in Htr2.
      destruct e2.
      * specialize (Hok2 ltac:(discriminate)).
        destruct (read_frame length_buf (resp_buf0 stack) s2) as [o3 s3] eqn:H3.
        apply read_frame_trace in H3 as (t3 & Htr3 & Hfail3).
        rewrite Htr2, <- !app_assoc in Htr3.
        intros Hres. exists (t1 ++ t2 ++ t3). split.
        -- destruct o3 as [[| response_str] | e | u |];
             injection Hres as <- <-; exact Htr3.
        -- intros H. apply io_failed_app_clean in H; [| assumption ..].
           apply io_failed_app_clean in H; [| assumption ..].
           destruct (Hfail3 H) as [-> Hl]. injection Hres as <- <-.
           split; [now right |].
           now repeat apply fails_last_app_clean.
      * intros [= <- <-]. exists (t1 ++ t2). split; [exact Htr2 |].
        intros _. split; [now left |].
        apply fails_last_app_clean; try assumption.
        destruct (Hlast2 eq_refl) as (t0 & c & E & H0).
        now apply fails_last_send with t0 c.
      * specialize (Hok2 ltac:(discriminate)).
        intros [= <- <-]. exists (t1 ++ t2). split; [exact Htr2 |].
        intros H. apply io_failed_app_clean in H; [| assumption ..].
        exfalso. revert H. apply clean_not_failed; auto.
    + intros [= <- <-]. exists t1. split; [exact Htr1 |].
      intros H. exfalso. revert H. apply clean_not_failed; auto.
  - intros [= <- <-]. exists t1. split; [exact Htr1 |].
    intros _. split; [now left |].
    destruct (Hlast1 eq_refl) as (t0 & c & E & H0).
    now apply fails_last_send with t0 c.
  - specialize (Hok1 ltac:(discriminate)).
    intros [= <- <-]. exists t1. split; [exact Htr1 |].
    intros H. exfalso. revert H. apply clean_not_failed; auto.
Qed.

(** When the peer has closed without an answer, the header [recv] returns
    0 (or -1) and the frame read takes its failure branch. *)
Lemma read_frame_closed (lb junk : list byte) (s : socket) :
  inbox s = [] -> recvs s <> [] ->
  fst (read_frame lb junk s) = Returned FrameFailed.
Proof.
  intros Hin Hrs. unfold read_frame, read_header.
  destruct (recvs s) as [| [| c] rest]; [congruence | reflexivity |].
  unfold recv. rewrite Hin. cbn [length]. rewrite Nat.min_0_r.
  reflexivity.
Qed.

(** The end of the stream in the middle of a payload is not a failure for
    the receiving loop: [recv] returns 0, nothing is added, and the loop
    calls [recv] again, for as long as the kernel answers. *)
Lemma recv_loop_end_of_stream (n c : nat) :
  forall (s : socket) (buf : buffer) (len received : Z),
    inbox s = [] -> 0 <= received < len -> len < 2 ^ 32 ->
    (Z.to_nat received <= length buf)%nat ->
    fst (recv_loop (repeat (RecvUpTo c) n) s buf len received) = RecvBlocked.
Proof.
  induction n as [| n IH]; intros s buf len received Hin Hr H32 Hb; simpl.
  - destruct (Z.ltb_spec received len); [reflexivity | lia].
  - destruct (Z.ltb_spec received len); [| lia].
    rewrite Hin. cbn [length]. rewrite Nat.min_0_r. cbn [firstn skipn].
    change (Z.of_nat 0 =? -1) with false. cbv iota.
    rewrite buf_write_Some by (cbn [length]; lia).
    rewrite Z.add_0_r, wrap64_small.
    + now apply IH; [| | | cbn [length app]; rewrite Nat.add_0_r, firstn_skipn].
    + split; [lia |]. apply Z.lt_trans with (2 ^ 32); [lia | reflexivity].
Qed.

(** C5: whenever a [send] or a [recv] of [send_request] fails, the call
    returns a synthesized response with [success = false] and a non-empty
    message, the failing call being its last one; the error itself is not
    passed on. In particular, when the request went out and the peer closed
    the connection before answering, the call returns "Receive failed"
    instead of waiting. Here [t] is the trace of the call, and a failure is
    a call that returned -1, or a header [recv] that returned anything
    but 4. *)
Theorem send_request_fails_softly (stack : send_request_stack)
    (req : Request) (s : socket) :
  (exists t,
      trace (snd (send_request stack req s)) = trace s ++ t
      /\ (io_failed t ->
          exists r,
            fst (send_request stack req s) = Returned r
            /\ success r = false /\ message r <> []
            /\ fails_last t))
  /\ ((length (encode_request req) <= BUFFER_SIZE)%nat ->
      forallb takes (sends s) = true ->
      (4 + length (encode_request req) <= length (sends s))%nat ->
      inbox s = [] -> recvs s <> [] ->
      fst (send_request stack req s) = Returned receive_failed).
Proof.
  split.
  - destruct (send_request stack req s) as [o s'] eqn:Hrun.
    apply send_request_trace in Hrun as (t & Htr & Hfail).
    exists t. split; [exact Htr |].
    intros H. destruct (Hfail H) as [[-> | ->] Hlast].
    + exists send_failed. repeat split; auto. discriminate.
    + exists receive_failed. repeat split; auto. discriminate.
  - intros Hlen Hss Hsched Hin Hrs.
    destruct (send_request_fair stack req s Hlen Hss Hsched)
      as (s2 & t & Hrun & _ & Hin2 & Hrs2 & _).
    rewrite Hrun, (surjective_pairing (read_frame _ _ _)), read_frame_closed;
      [reflexivity | congruence | congruence].
Qed.

(** The server closes the connection before responding. *)
Lemma send_request_fails_softly_witness :
  fst (send_request (mkStack [] [] true d100_5) (Request_of_type BALANCE)
         (fresh_socket [] [RecvUpTo 4]
            [SendUpTo 2; SendUpTo 2; SendUpTo 3; SendUpTo 4; SendUpTo 1;
             SendUpTo 1; SendUpTo 1; SendUpTo 1; SendUpTo 1; SendUpTo 1;
             SendUpTo 1]))
  = Returned (mkResponse false zero_double [] (txt "Receive failed")).
Proof.
  apply (proj2 (send_request_fails_softly _ _ _)).
  - vm_compute. lia.
  - reflexivity.
  - vm_compute. lia.
  - reflexivity.
  - discriminate.
Defined.

(** ** The copy into [message_buf] *)

Lemma read_frame_not_memcpy (lb junk : list byte) (s : socket) :
  fst (read_frame lb junk s) <> Undefined oob_memcpy.
Proof.
  unfold read_frame.
  destruct (read_header lb s) as [[[len |] | e | u |] s1] eqn:Hh;
    try discriminate.
  - destruct (recv_loop (recvs s1) s1 (stack_buffer BUFFER_SIZE junk) len 0)
      as [[buf | | |] s2]; try discriminate.
    destruct (buf_write buf (Z.to_nat len) [NUL]); discriminate.
  - apply read_header_trace in Hh as [[H _] | (r & _ & [[_ [len H]] | [_ H]])];
      discriminate.
Qed.

Lemma decode_response_outcome (s0 : bool) (b0 : double) (t : text) :
  (exists r, decode_response s0 b0 t = Returned r)
  \/ (exists e, decode_response s0 b0 t = Threw e).
Proof.
  unfold decode_response.
  destruct (find delimiter t) as [pos |];
    repeat match goal with
           | |- context [match find ?c ?x with _ => _ end] =>
               destruct (find c x)
           | |- context [match stod ?x with _ => _ end] => destruct (stod x)
           end; eauto.
Qed.

Lemma message_buf_copy (junk : list byte) (t : text) :
  ((length t <= BUFFER_SIZE)%nat ->
   exists b, buf_write (stack_buffer BUFFER_SIZE junk) 0 t = Some b
             /\ length b = BUFFER_SIZE /\ firstn (length t) b = t)
  /\ ((BUFFER_SIZE < length t)%nat ->
      buf_write (stack_buffer BUFFER_SIZE junk) 0 t = None).
Proof.
  split; intros H.
  - rewrite buf_write_Some by (rewrite stack_buffer_length; lia).
    eexists. split; [reflexivity |]. cbn [firstn app "+"%nat]. split.
    + rewrite length_app, length_skipn, stack_buffer_length. lia.
    + rewrite firstn_app, Nat.sub_diag, firstn_all. apply app_nil_r.
  - apply buf_write_None. rewrite stack_buffer_length. lia.
Qed.

(** C10: [send_request] and [send_response] copy the encoded text into the
    1024-byte [message_buf] without a check, after the length header has
    gone out. An encoding of at most 1024 bytes is copied within the array;
    a longer one is written past its end. *)
Theorem message_buf_copy_bounds (stack : send_request_stack) (req : Request)
    (mb : list byte) (resp : Response) (s : socket) :
  forallb takes (sends s) = true ->
  (4 <= length (sends s))%nat ->
  ((length (encode_request req) <= BUFFER_SIZE)%nat ->
   fst (send_request stack req s) <> Undefined oob_memcpy)
  /\ ((BUFFER_SIZE < length (encode_request req))%nat ->
      fst (send_request stack req s) = Undefined oob_memcpy
      /\ outbox (snd (send_request stack req s))
         = outbox s
           ++ htonl_bytes (wrap32 (Z.of_nat (length (encode_request req)))))
  /\ ((length (encode_response resp) <= BUFFER_SIZE)%nat ->
      fst (send_response mb resp s) <> Undefined oob_memcpy)
  /\ ((BUFFER_SIZE < length (encode_response resp))%nat ->
      fst (send_response mb resp s) = Undefined oob_memcpy
      /\ outbox (snd (send_response mb resp s))
         = outbox s
           ++ htonl_bytes (wrap32 (Z.of_nat (length (encode_response resp))))).
Proof.
  intros Hss Hsched.
  assert (Hhdr : forall x : Z,
             exists s1,
               send_loop (sends s) s (htonl_bytes x) 4 0 = (SendDone, s1)
               /\ outbox s1 = outbox s ++ htonl_bytes x).
  { intros x.
    destruct (send_loop_fair (sends s) s (htonl_bytes x) 4 0 Hss)
      as (s1 & t & Hrun & Hout & _); try reflexivity; try lia.
    exists s1. split; [exact Hrun |]. rewrite Hout. reflexivity. }
  repeat split.
  - intros Hlen. unfold send_request.
    destruct (send_loop (sends s) s _ 4 0) as [[| |] s1]; try discriminate.
    destruct (proj1 (message_buf_copy (message_buf0 stack) _) Hlen)
      as (b & -> & _).
    destruct (send_loop (sends s1) s1 b _ 0) as [[| |] s2]; try discriminate.
    pose proof (read_frame_not_memcpy
                  (htonl_bytes (wrap32 (Z.of_nat (length (encode_request req)))))
                  (resp_buf0 stack) s2) as Hn.
    destruct (read_frame _ (resp_buf0 stack) s2) as [[[| t] | e | u |] s3];
      simpl in *; try discriminate.
    + destruct (decode_response_outcome (success0 stack) (balance0 stack) t)
        as [[r ->] | [e ->]]; discriminate.
    + congruence.
  - unfold send_request.
    destruct (Hhdr (wrap32 (Z.of_nat (length (encode_request req)))))
      as (s1 & -> & _).
    now rewrite (proj2 (message_buf_copy (message_buf0 stack) _) H).
  - unfold send_request.
    destruct (Hhdr (wrap32 (Z.of_nat (length (encode_request req)))))
      as (s1 & -> & Hout).
    now rewrite (proj2 (message_buf_copy (message_buf0 stack) _) H).
  - intros Hlen. unfold send_response.
    destruct (send_loop_perror (sends s) s _ 4 0) as [[| |] s1];
      try discriminate.
    destruct (proj1 (message_buf_copy mb _) Hlen) as (b & -> & _).
    destruct (send_loop_perror (sends s1) s1 b _ 0) as [[| |] s2];
      discriminate.
  - unfold send_response. rewrite send_loop_perror_fair by assumption.
    destruct (Hhdr (wrap32 (Z.of_nat (length (encode_response resp)))))
      as (s1 & -> & _).
    now rewrite (proj2 (message_buf_copy mb _) H).
  - unfold send_response. rewrite send_loop_perror_fair by assumption.
    destruct (Hhdr (wrap32 (Z.of_nat (length (encode_response resp)))))
      as (s1 & -> & Hout).
    now rewrite (proj2 (message_buf_copy mb _) H).
Qed.

(** A response whose message has 1100 characters. *)
Lemma message_buf_copy_bounds_witness :
  let long := mkResponse true d100_5 [] (repeat "x"%char 1100) in
  let s := fresh_socket [] [] [SendUpTo 1; SendUpTo 1; SendUpTo 1; SendUpTo 1] in
  fst (send_response [] long s) = Undefined oob_memcpy
  /\ outbox (snd (send_response [] long s)) = htonl_bytes 1109.
Proof.
  intros long s.
  apply (proj2 (proj2 (proj2 (message_buf_copy_bounds
           (mkStack [] [] false zero_double) (Request_of_type QUIT) [] long s
           eq_refl ltac:(vm_compute; lia)))));
    vm_compute; lia.
Defined.

(** ** Equality of texts *)

Lemma text_eqb_eq (a b : text) : text_eqb a b = true <-> a = b.
Proof.
  revert b. induction a as [| x a IH]; intros [| y b]; simpl;
    try (split; [discriminate | discriminate]); try tauto.
  rewrite andb_true_iff, Ascii.eqb_eq, IH.
  split; [intros [-> ->]; reflexivity | intros [= -> ->]; auto].
Qed.

(** ** Splitting at the delimiter *)

Lemma find_absent (c : ascii) (t : text) : ~ In c t -> find c t = None.
Proof.
  induction t as [| x t IH]; simpl; intros H; [reflexivity |].
  destruct (Ascii.eqb_spec x c) as [-> | _].
  - exfalso. apply H. now left.
  - rewrite IH; [reflexivity |]. intros Hin. apply H. now right.
Qed.

Lemma find_first (c : ascii) (a rest : text) :
  ~ In c a -> find c (a ++ c :: rest) = Some (length a).
Proof.
  induction a as [| x a IH]; simpl; intros H.
  - now rewrite Ascii.eqb_refl.
  - destruct (Ascii.eqb_spec x c) as [-> | _].
    + exfalso. apply H. now left.
    + rewrite IH; [reflexivity |]. intros Hin. apply H. now right.
Qed.

Lemma substr_first (a rest : text) (c : ascii) :
  substr (a ++ c :: rest) 0 (length a) = a.
Proof.
  unfold substr. simpl skipn.
  rewrite firstn_app, Nat.sub_diag, firstn_all. apply app_nil_r.
Qed.

Lemma erase_first (a rest : text) (c : ascii) :
  erase (a ++ c :: rest) 0 (length a + 1) = rest.
Proof.
  unfold erase. simpl firstn. simpl app.
  rewrite skipn_app, skipn_all2 by lia.
  replace (length a + 1 - length a)%nat with 1%nat by lia. reflexivity.
Qed.

Lemma substr_from_first (a rest : text) (c : ascii) :
  substr_from (a ++ c :: rest) (length a + 1) = rest.
Proof.
  unfold substr_from.
  rewrite skipn_app, skipn_all2 by lia.
  replace (length a + 1 - length a)%nat with 1%nat by lia. reflexivity.
Qed.

Lemma split_field_first (a rest : text) :
  delimiter_free a -> split_field (a ++ delimiter :: rest) = Some (a, rest).
Proof.
  intros H. unfold split_field.
  now rewrite find_first, substr_first, substr_from_first.
Qed.

Lemma split_field_absent (a : text) :
  delimiter_free a -> split_field a = None.
Proof. intros H. unfold split_field. now rewrite find_absent. Qed.

(** ** Decoding a response, field by field *)

(** C7 (amended): the decoder of [send_request] splits at the delimiter
    from the left, one field per delimiter found, and the last field,
    [message], takes all the text after the third delimiter, delimiters
    included. With fewer than three delimiters, the fields not reached stay
    as they were: [data] and [message] empty, [success] and [balance]
    unassigned; the text after the last delimiter found is dropped, and the
    missing delimiters raise no error. The one error the decoder raises is
    the exception of [stod] on the [balance] field, which it does raise on
    short input too, as soon as there are two delimiters. *)
Theorem decode_response_fields (a b c rest : text) (success0 : bool)
    (balance0 : double) :
  delimiter_free a -> delimiter_free b -> delimiter_free c ->
  let bar := [delimiter] in
  let flag := text_eqb a (txt "1") in
  decode_response success0 balance0 a
  = Returned (mkResponse success0 balance0 [] [])
  /\ decode_response success0 balance0 (a ++ bar ++ b)
     = Returned (mkResponse flag balance0 [] [])
  /\ decode_response success0 balance0 (a ++ bar ++ b ++ bar ++ c)
     = match stod b with
       | inl e => Threw e
       | inr v => Returned (mkResponse flag v [] [])
       end
  /\ decode_response success0 balance0
       (a ++ bar ++ b ++ bar ++ c ++ bar ++ rest)
     = match stod b with
       | inl e => Threw e
       | inr v => Returned (mkResponse flag v c rest)
       end.
Proof.
  intros Ha Hb Hc bar flag. subst bar flag. cbn [app].
  unfold decode_response.
  split; [| split; [| split]].
  - now rewrite !find_absent.
  - rewrite find_first, substr_first, erase_first by assumption.
    now rewrite !find_absent.
  - rewrite find_first, substr_first, erase_first by assumption.
    rewrite find_first, substr_first, erase_first by assumption.
    destruct (stod b) as [e | v]; [reflexivity |].
    now rewrite find_absent.
  - rewrite find_first, substr_first, erase_first by assumption.
    rewrite find_first, substr_first, erase_first by assumption.
    destruct (stod b) as [e | v]; [reflexivity |].
    now rewrite find_first, substr_first, substr_from_first.
Qed.

Lemma delimiter_free_dec (t : text) :
  forallb (fun c => negb (Ascii.eqb c delimiter)) t = true ->
  delimiter_free t.
Proof.
  intros H Hin. rewrite forallb_forall in H. specialize (H _ Hin).
  now rewrite Ascii.eqb_refl in H.
Qed.

Lemma decode_response_fields_witness :
  decode_response false zero_double (txt "1|2.5|file|done|and|more")
  = Returned (mkResponse true (D_finite false 5629499534213120 (-51))
                (txt "file") (txt "done|and|more"))
  /\ decode_response false zero_double (txt "1|2.5|file")
     = Returned (mkResponse true (D_finite false 5629499534213120 (-51))
                   [] []).
Proof.
  destruct (decode_response_fields (txt "1") (txt "2.5") (txt "file")
              (txt "done|and|more") false zero_double)
    as (_ & _ & H3 & H4); try (apply delimiter_free_dec; reflexivity).
  split; [exact H4 | exact H3].
Defined.

(** C7, as stated, fails: "1|x|y" has two delimiters for four fields, and
    decoding it throws. *)
Lemma decode_short_input_counterexample :
  let input := txt "1|x|y" in
  length (filter (Ascii.eqb delimiter) input) = 2%nat
  /\ decode_response false zero_double input
     = Threw (invalid_argument "stod")
  /\ forall r, decode_response false zero_double input <> Returned r.
Proof.
  cbv zeta. split; [reflexivity |]. split; [reflexivity |].
  intros r H. vm_compute in H. discriminate.
Qed.

(** ** The numeric fields never contain the delimiter *)

Create HintDb delim.

Lemma free_Forall (t : text) : Forall not_delimiter t <-> delimiter_free t.
Proof.
  unfold delimiter_free. rewrite Forall_forall. split.
  - intros H Hin. now apply (H _ Hin).
  - intros H c Hin ->. now apply H.
Qed.

Lemma nd_app (a b : text) :
  Forall not_delimiter a -> Forall not_delimiter b ->
  Forall not_delimiter (a ++ b).
Proof. intros Ha Hb. apply Forall_app. now split. Qed.

Lemma nd_firstn (n : nat) (t : text) :
  Forall not_delimiter t -> Forall not_delimiter (firstn n t).
Proof.
  intros H. revert n.
  induction H as [| c t Hc Ht IH]; intros [| n]; simpl; auto.
Qed.

Lemma nd_skipn (n : nat) (t : text) :
  Forall not_delimiter t -> Forall not_delimiter (skipn n t).
Proof.
  intros H. revert n.
  induction H as [| c t Hc Ht IH]; intros [| n]; simpl; auto.
Qed.

Lemma nd_repeat (c : ascii) (n : nat) :
  not_delimiter c -> Forall not_delimiter (repeat c n).
Proof. intros H. induction n; simpl; auto. Qed.

Lemma nd_uint_chars (u : Decimal.uint) : Forall not_delimiter (uint_chars u).
Proof. induction u; simpl; constructor; auto; discriminate. Qed.

Lemma nd_int_to_text (z : Z) : Forall not_delimiter (int_to_text z).
Proof.
  destruct z; simpl.
  - repeat constructor. discriminate.
  - apply nd_uint_chars.
  - constructor; [discriminate | apply nd_uint_chars].
Qed.

Lemma nd_strip_zeros (t : text) :
  Forall not_delimiter t -> Forall not_delimiter (strip_zeros t).
Proof.
  induction 1 as [| c t Hc Ht IH]; simpl; auto.
  destruct (strip_zeros t).
  - destruct (Ascii.eqb c "0"); auto.
  - auto.
Qed.

Lemma nd_with_point (t : text) :
  Forall not_delimiter t -> Forall not_delimiter (with_point t).
Proof.
  intros H. unfold with_point. apply nd_strip_zeros in H.
  destruct (strip_zeros t); auto. constructor; [discriminate | auto].
Qed.

Lemma nd_two_digits (a : Z) : Forall not_delimiter (two_digits a).
Proof.
  unfold two_digits. destruct (a <? 10).
  - constructor; [discriminate | apply nd_int_to_text].
  - apply nd_int_to_text.
Qed.

Lemma nd_sign_text (s : bool) : Forall not_delimiter (sign_text s).
Proof. destruct s; repeat constructor. discriminate. Qed.

#[local] Hint Resolve nd_app nd_firstn nd_skipn nd_repeat nd_uint_chars
  nd_int_to_text nd_strip_zeros nd_with_point nd_two_digits nd_sign_text
  : delim.

Lemma nd_fmt_g (v : Z * Z) : Forall not_delimiter (fmt_g v).
Proof.
  unfold fmt_g. destruct (significant (fst v) (snd v)) as [n x].
  destruct ((-4 <=? x) && (x <? PRECISION)).
  - destruct (0 <=? x); auto with delim.
    apply nd_app; [repeat constructor; discriminate |].
    apply nd_app; auto with delim. apply nd_repeat. discriminate.
  - apply nd_app; auto with delim. apply nd_app; auto with delim.
    constructor; [discriminate |].
    constructor; [destruct (x <? 0); discriminate | auto with delim].
Qed.

Lemma nd_double_to_text (d : double) : Forall not_delimiter (double_to_text d).
Proof.
  destruct d as [s | s | s | s m e]; simpl.
  - apply nd_app; [apply nd_sign_text | repeat constructor; discriminate].
  - apply nd_app; [apply nd_sign_text | repeat constructor; discriminate].
  - apply nd_app; [apply nd_sign_text | repeat constructor; discriminate].
  - apply nd_app; [apply nd_sign_text | apply nd_fmt_g].
Qed.

(** ** [stoi] reads back what [operator<<] wrote *)

Lemma take_digits_uint_chars (u : Decimal.uint) :
  take_digits (uint_chars u) = (u, []).
Proof. induction u; simpl; try rewrite IHu; reflexivity. Qed.

Lemma unsigned_uint_chars (u : Decimal.uint) :
  skip_space (uint_chars u) = uint_chars u
  /\ take_sign (uint_chars u) = (false, uint_chars u).
Proof. destruct u; split; reflexivity. Qed.

Lemma stoi_int_to_text (z : Z) : is_int z -> stoi (int_to_text z) = inr z.
Proof.
  intros Hz. unfold is_int in Hz.
  assert (Hrange : (INT_MIN <=? z) && (z <=? INT_MAX) = true).
  { apply andb_true_intro. split; apply Z.leb_le; lia. }
  destruct z as [| p | p].
  - reflexivity.
  - unfold stoi, int_to_text.
    destruct (unsigned_uint_chars (Pos.to_uint p)) as [-> ->].
    rewrite take_digits_uint_chars.
    assert (Hv : Z.of_uint (Pos.to_uint p) = Z.pos p).
    { unfold Z.of_uint. now rewrite DecimalPos.Unsigned.of_to. }
    pose proof (DecimalPos.Unsigned.to_uint_nonnil p) as Hnil.
    destruct (Pos.to_uint p); [congruence | ..]; rewrite Hv, Hrange;
      reflexivity.
  - unfold stoi, int_to_text. cbn [skip_space isspace].
    change (isspace "-") with false. cbv iota. cbn [take_sign].
    change (Ascii.eqb "-" "-") with true. cbv iota.
    rewrite take_digits_uint_chars.
    assert (Hv : - Z.of_uint (Pos.to_uint p) = Z.neg p).
    { unfold Z.of_uint. now rewrite DecimalPos.Unsigned.of_to. }
    pose proof (DecimalPos.Unsigned.to_uint_nonnil p) as Hnil.
    destruct (Pos.to_uint p); [congruence | ..]; rewrite Hv, Hrange;
      reflexivity.
Qed.

(** ** The characters of a number *)

Ltac in_alphabet :=
  unfold numeric, numeric_alphabet; cbn [txt list_ascii_of_string In];
  repeat first [left; reflexivity | right].

Ltac num_chars :=
  repeat (apply Forall_cons; [in_alphabet |]); apply Forall_nil.

Section Characters.

Variable P : ascii -> Prop.

Lemma Forall_firstn_text (n : nat) (t : text) :
  Forall P t -> Forall P (firstn n t).
Proof.
  intros H. revert n.
  induction H as [| c t Hc Ht IH]; intros [| n]; simpl; auto.
Qed.

Lemma Forall_skipn_text (n : nat) (t : text) :
  Forall P t -> Forall P (skipn n t).
Proof.
  intros H. revert n.
  induction H as [| c t Hc Ht IH]; intros [| n]; simpl; auto.
Qed.

Lemma Forall_repeat_text (c : ascii) (n : nat) :
  P c -> Forall P (repeat c n).
Proof. intros H. induction n; simpl; auto. Qed.

Lemma Forall_strip_zeros (t : text) : Forall P t -> Forall P (strip_zeros t).
Proof.
  induction 1 as [| c t Hc Ht IH]; simpl; auto.
  destruct (strip_zeros t).
  - destruct (Ascii.eqb c "0"); auto.
  - auto.
Qed.

End Characters.

Lemma num_uint_chars (u : Decimal.uint) : Forall numeric (uint_chars u).
Proof.
  induction u; simpl; try apply Forall_nil;
    (apply Forall_cons; [in_alphabet | assumption]).
Qed.

Lemma num_int_to_text (z : Z) : Forall numeric (int_to_text z).
Proof.
  destruct z; simpl.
  - num_chars.
  - apply num_uint_chars.
  - apply Forall_cons; [in_alphabet | apply num_uint_chars].
Qed.

Lemma num_with_point (t : text) :
  Forall numeric t -> Forall numeric (with_point t).
Proof.
  intros H. unfold with_point. apply Forall_strip_zeros in H.
  destruct (strip_zeros t); auto. apply Forall_cons; [in_alphabet | auto].
Qed.

Lemma num_two_digits (a : Z) : Forall numeric (two_digits a).
Proof.
  unfold two_digits. destruct (a <? 10).
  - apply Forall_cons; [in_alphabet | apply num_int_to_text].
  - apply num_int_to_text.
Qed.

Lemma num_sign_text (s : bool) : Forall numeric (sign_text s).
Proof. destruct s; cbn; num_chars. Qed.

Lemma num_fmt_g (v : Z * Z) : Forall numeric (fmt_g v).
Proof.
  unfold fmt_g. destruct (significant (fst v) (snd v)) as [n x].
  pose proof (num_uint_chars (N.to_uint (Z.to_N n))) as Hds.
  destruct ((-4 <=? x) && (x <? PRECISION)).
  - destruct (0 <=? x).
    + apply Forall_app. split.
      * now apply Forall_firstn_text.
      * now apply num_with_point, Forall_skipn_text.
    + apply Forall_app. split; [cbn; num_chars |].
      apply Forall_app. split.
      * apply Forall_repeat_text. in_alphabet.
      * now apply Forall_strip_zeros.
  - apply Forall_app. split; [now apply Forall_firstn_text |].
    apply Forall_app. split.
    + now apply num_with_point, Forall_skipn_text.
    + apply Forall_cons; [in_alphabet |].
      apply Forall_cons;
        [destruct (x <? 0); in_alphabet | apply num_two_digits].
Qed.

Lemma num_double_to_text (d : double) : Forall numeric (double_to_text d).
Proof.
  destruct d as [s | s | s | s m e]; simpl; apply Forall_app;
    (split; [apply num_sign_text |]);
    try (cbn; num_chars).
  apply num_fmt_g.
Qed.

(** A text of such characters has no NUL in it: the receiver reads it to
    its end. *)
Lemma numeric_no_NUL (t : text) : Forall numeric t -> ~ In NUL t.
Proof.
  intros H Hin. rewrite Forall_forall in H. specialize (H _ Hin).
  unfold numeric, numeric_alphabet in H. cbn in H.
  repeat (destruct H as [H | H]; [discriminate H |]). exact H.
Qed.

Lemma not_In_app {A : Type} (x : A) (a b : list A) :
  ~ In x a -> ~ In x b -> ~ In x (a ++ b).
Proof. intros Ha Hb H. apply in_app_or in H. tauto. Qed.

Lemma received_text_whole (t : text) : ~ In NUL t -> received_text t = t.
Proof. intros H. unfold received_text. now apply c_string_terminated. Qed.

Lemma received_text_cut (a b : list byte) :
  ~ In NUL a -> received_text (a ++ NUL :: b) = a.
Proof.
  intros H. unfold received_text. rewrite <- app_assoc.
  now apply c_string_terminated.
Qed.

Lemma received_text_app (a b : list byte) :
  ~ In NUL a -> received_text (a ++ b) = a ++ received_text b.
Proof.
  intros H. unfold received_text. rewrite <- app_assoc.
  induction a as [| c a IH]; simpl; [reflexivity |].
  destruct (Ascii.eqb_spec c NUL) as [-> | _].
  - exfalso. apply H. now left.
  - f_equal. apply IH. intros Hin. apply H. now right.
Qed.

(** ** The address parser *)

Lemma octet_text_checked (o : Z) : is_octet o -> octet_text_ok o = true.
Proof.
  intros [Hlo Hhi].
  assert (Hall : forallb octet_text_ok (map Z.of_nat (seq 0 256)) = true)
    by (vm_compute; reflexivity).
  rewrite forallb_forall in Hall. apply Hall.
  rewrite <- (Z2Nat.id o) by exact Hlo.
  apply in_map, in_seq. lia.
Qed.

Lemma decimal_value_grows (ds : text) :
  forall cur, 0 <= cur -> forallb is_digit ds = true ->
              cur <= decimal_value ds cur.
Proof.
  unfold decimal_value.
  induction ds as [| c ds IH]; intros cur Hc Hd; simpl; [lia |].
  simpl in Hd. apply andb_prop in Hd as [Hdc Hds].
  assert (Hv : 0 <= digit_value c).
  { unfold digit_value, is_digit in *. apply andb_prop in Hdc as [H _].
    apply Nat.leb_le in H. lia. }
  apply Z.le_trans with (cur * 10 + digit_value c); [lia |].
  apply IH; [lia | exact Hds].
Qed.

(** [inet_pton] on the further digits of a part. *)
Lemma inet_pton4_digits (ds : text) :
  forall (cur : Z) (rest : text) (tmp : list Z) (n : nat),
    forallb is_digit ds = true -> 0 < cur ->
    decimal_value ds cur <= 255 ->
    inet_pton4 (ds ++ rest) tmp cur true n
    = inet_pton4 rest tmp (decimal_value ds cur) true n.
Proof.
  induction ds as [| c ds IH]; intros cur rest tmp n Hd Hc Hv;
    [reflexivity |].
  simpl in Hd. apply andb_prop in Hd as [Hdc Hds].
  assert (H0 : 0 <= digit_value c).
  { unfold digit_value, is_digit in *. apply andb_prop in Hdc as [H _].
    apply Nat.leb_le in H. lia. }
  change (decimal_value (c :: ds) cur)
    with (decimal_value ds (cur * 10 + digit_value c)) in *.
  pose proof (decimal_value_grows ds (cur * 10 + digit_value c)
                ltac:(lia) Hds) as Hg.
  cbn [app inet_pton4]. rewrite Hdc.
  fold (digit_value c).
  destruct (Z.eqb_spec cur 0) as [E | _]; [lia |]. cbn [andb].
  destruct (Z.ltb_spec 255 (cur * 10 + digit_value c)) as [Hbig | _];
    [lia |].
  apply IH; [exact Hds | lia | exact Hv].
Qed.

(** [inet_pton] reads one part written in decimal. *)
Lemma inet_pton4_octet (o : Z) (rest : text) (tmp : list Z) (n : nat) :
  is_octet o -> (n < 4)%nat ->
  inet_pton4 (int_to_text o ++ rest) tmp 0 false n
  = inet_pton4 rest tmp o true (S n).
Proof.
  intros Ho Hn. pose proof (octet_text_checked o Ho) as Hok.
  unfold octet_text_ok in Hok.
  destruct (int_to_text o) as [| c ds]; [discriminate |].
  apply andb_prop in Hok as [Hok Hval].
  apply andb_prop in Hok as [Hok Hlead].
  apply andb_prop in Hok as [Hd _].
  apply Z.eqb_eq in Hval.
  cbn [forallb] in Hd. apply andb_prop in Hd as [Hdc Hds].
  assert (H9 : 0 <= digit_value c <= 9).
  { unfold digit_value, is_digit in *. apply andb_prop in Hdc as [H1 H2].
    apply Nat.leb_le in H1, H2. lia. }
  cbn [app inet_pton4]. rewrite Hdc. fold (digit_value c). cbn [andb].
  change (0 * 10 + digit_value c) with (digit_value c).
  destruct (Z.ltb_spec 255 (digit_value c)) as [Hbig | _]; [lia |].
  destruct (Nat.ltb_spec 4 (S n)) as [Hbad | _]; [lia |].
  destruct ds as [| c2 ds].
  - simpl in Hval. now rewrite Hval.
  - apply negb_true_iff, Z.eqb_neq in Hlead.
    rewrite inet_pton4_digits; try assumption; try lia.
    + now rewrite Hval.
    + rewrite Hval. destruct Ho. lia.
Qed.

Lemma octet_length (o : Z) : is_octet o -> (length (int_to_text o) <= 3)%nat.
Proof.
  intros Ho. pose proof (octet_text_checked o Ho) as Hok.
  unfold octet_text_ok in Hok.
  destruct (int_to_text o) as [| c ds]; [discriminate |].
  apply andb_prop in Hok as [Hok _]. apply andb_prop in Hok as [Hok _].
  apply andb_prop in Hok as [_ Hl]. apply Nat.leb_le in Hl. simpl. lia.
Qed.

Lemma inet_pton_dotted (a b c d : Z) :
  is_octet a -> is_octet b -> is_octet c -> is_octet d ->
  inet_pton (dotted a b c d) = Some [a; b; c; d].
Proof.
  intros Ha Hb Hc Hd. unfold inet_pton, dotted.
  change (txt ".") with ["."%char].
  rewrite inet_pton4_octet by (auto; lia). cbn [app inet_pton4].
  change (is_digit ".") with false. cbv iota. cbn [Ascii.eqb andb Nat.eqb].
  change (Ascii.eqb "." ".") with true. cbv iota.
  rewrite inet_pton4_octet by (auto; lia). cbn [app inet_pton4].
  change (is_digit ".") with false. cbv iota.
  change (Ascii.eqb "." ".") with true. cbn [andb Nat.eqb].
  rewrite inet_pton4_octet by (auto; lia). cbn [app inet_pton4].
  change (is_digit ".") with false. cbv iota.
  change (Ascii.eqb "." ".") with true. cbn [andb Nat.eqb].
  rewrite <- (app_nil_r (int_to_text d)).
  rewrite inet_pton4_octet by (auto; lia). reflexivity.
Qed.

(** The address parser keeps its parts within a byte and gives four of
    them or nothing. *)
Lemma inet_pton4_sound (src : text) :
  forall (tmp : list Z) (cur : Z) (saw : bool) (octets : nat) (a : list Z),
    Forall is_octet tmp -> is_octet cur ->
    (length tmp + (if saw then 1 else 0) = octets)%nat ->
    (octets <= 4)%nat -> (saw = false -> (octets < 4)%nat) ->
    inet_pton4 src tmp cur saw octets = Some a ->
    length a = 4%nat /\ Forall is_octet a.
Proof.
  induction src as [| ch src IH];
    intros tmp cur saw octets a Htmp Hcur Hlen H4 Hsaw Hrun;
    cbn [inet_pton4] in Hrun.
  - destruct (Nat.ltb_spec octets 4) as [| Hge]; [discriminate |].
    injection Hrun as <-.
    destruct saw; [| specialize (Hsaw eq_refl); lia].
    split.
    + rewrite length_app. cbn [length]. lia.
    + apply Forall_app. split; [assumption | now constructor].
  - destruct (is_digit ch) eqn:Hd.
    + assert (Hv : 0 <= Z.of_nat (nat_of_ascii ch) - 48).
      { unfold is_digit in Hd. apply andb_prop in Hd as [H _].
        apply Nat.leb_le in H. lia. }
      cbv zeta in Hrun.
      destruct (saw && (cur =? 0)); [discriminate |].
      destruct (Z.ltb_spec 255 (cur * 10 + (Z.of_nat (nat_of_ascii ch) - 48)))
        as [| Hle]; [discriminate |].
      assert (Hnew : is_octet (cur * 10 + (Z.of_nat (nat_of_ascii ch) - 48)))
        by (unfold is_octet in *; lia).
      destruct saw.
      * apply (IH tmp _ true octets) in Hrun;
          [assumption | assumption | assumption | exact Hlen | exact H4
           | discriminate].
      * destruct (Nat.ltb_spec 4 (S octets)); [discriminate |].
        apply (IH tmp _ true (S octets)) in Hrun;
          [assumption | assumption | assumption | lia | lia | discriminate].
    + destruct (Ascii.eqb ch "."%char && saw) eqn:Hdot; [| discriminate].
      apply andb_prop in Hdot as [_ ->].
      destruct (Nat.eqb_spec octets 4) as [| Hne]; [discriminate |].
      apply (IH (tmp ++ [cur]) 0 false octets) in Hrun; try assumption.
      * apply Forall_app. split; [assumption | now constructor].
      * unfold is_octet. lia.
      * rewrite length_app. cbn [length]. lia.
      * intros _. lia.
Qed.

(** ** The address parser, read backwards *)

Lemma digit_appends_checked (cur : Z) (ch : ascii) :
  0 <= cur <= 25 -> is_digit ch = true ->
  int_to_text (cur * 10 + digit_value ch)
  = (if cur =? 0 then [] else int_to_text cur) ++ [ch].
Proof.
  intros Hc Hd.
  assert (Hall : forallb digit_appends (map Z.of_nat (seq 0 26)) = true)
    by (vm_compute; reflexivity).
  rewrite forallb_forall in Hall.
  assert (Hcur : digit_appends cur = true).
  { apply Hall. rewrite <- (Z2Nat.id cur) by lia. apply in_map, in_seq. lia. }
  unfold digit_appends in Hcur. rewrite forallb_forall in Hcur.
  unfold is_digit in Hd. apply andb_prop in Hd as [H1 H2].
  apply Nat.leb_le in H1, H2.
  specialize (Hcur (nat_of_ascii ch - 48)%nat).
  rewrite text_eqb_eq in Hcur. unfold digit_value.
  replace (Z.of_nat (nat_of_ascii ch) - 48)
    with (Z.of_nat (nat_of_ascii ch - 48)) by lia.
  rewrite Hcur by (apply in_seq; lia).
  replace (48 + (nat_of_ascii ch - 48))%nat with (nat_of_ascii ch) by lia.
  now rewrite ascii_nat_embedding.
Qed.

Lemma parts_text_app (tmp : list Z) (cur : Z) :
  parts_text (tmp ++ [cur]) = parts_text tmp ++ int_to_text cur ++ txt ".".
Proof.
  unfold parts_text. rewrite map_app, concat_app. cbn [map concat].
  now rewrite app_nil_r.
Qed.

(** The text [inet_pton] accepts is the one [inet_ntop] writes for the
    address it gives: the parts in decimal, without leading zeros, joined by
    dots. *)
Lemma inet_pton4_text (src : text) :
  forall (tmp : list Z) (cur : Z) (saw : bool) (octets : nat) (addr : list Z),
    0 <= cur -> (saw = false -> cur = 0) ->
    (octets <= 4)%nat -> (saw = false -> (octets < 4)%nat) ->
    inet_pton4 src tmp cur saw octets = Some addr ->
    exists tmp' cur',
      addr = tmp' ++ [cur']
      /\ parts_text tmp ++ (if saw then int_to_text cur else []) ++ src
         = parts_text tmp' ++ int_to_text cur'.
Proof.
  induction src as [| ch src IH];
    intros tmp cur saw octets addr Hcur Hzero H4 Hsaw Hrun;
    cbn [inet_pton4] in Hrun.
  - destruct (Nat.ltb_spec octets 4) as [| Hge]; [discriminate |].
    injection Hrun as <-.
    destruct saw; [| specialize (Hsaw eq_refl); lia].
    exists tmp, cur. now rewrite app_nil_r.
  - destruct (is_digit ch) eqn:Hd.
    + assert (Hv : 0 <= digit_value ch).
      { unfold digit_value, is_digit in *. apply andb_prop in Hd as [H _].
        apply Nat.leb_le in H. lia. }
      cbv zeta in Hrun. fold (digit_value ch) in Hrun.
      destruct (saw && (cur =? 0)) eqn:Hlead; [discriminate |].
      destruct (Z.ltb_spec 255 (cur * 10 + digit_value ch)) as [| Hle];
        [discriminate |].
      pose proof (digit_appends_checked cur ch ltac:(lia) Hd) as Htext.
      destruct saw.
      * cbn [andb] in Hlead. rewrite Hlead in Htext.
        apply (IH tmp _ true octets) in Hrun;
          [| lia | discriminate | exact H4 | discriminate].
        destruct Hrun as (tmp' & cur' & -> & Heq).
        exists tmp', cur'. split; [reflexivity |].
        rewrite <- Heq, Htext, <- !app_assoc. reflexivity.
      * rewrite (Hzero eq_refl) in *. cbn [Z.eqb] in Htext.
        destruct (Nat.ltb_spec 4 (S octets)); [discriminate |].
        apply (IH tmp _ true (S octets)) in Hrun;
          [| lia | discriminate | lia | discriminate].
        destruct Hrun as (tmp' & cur' & -> & Heq).
        exists tmp', cur'. split; [reflexivity |].
        rewrite <- Heq, Htext. reflexivity.
    + destruct (Ascii.eqb_spec ch "."%char) as [-> | _]; [| discriminate].
      destruct saw; [| discriminate]. cbn [andb] in Hrun.
      destruct (Nat.eqb_spec octets 4) as [| Hne]; [discriminate |].
      apply (IH (tmp ++ [cur]) 0 false octets) in Hrun;
        [| lia | reflexivity | exact H4 | intros _; lia].
      destruct Hrun as (tmp' & cur' & -> & Heq).
      exists tmp', cur'. split; [reflexivity |].
      rewrite <- Heq, parts_text_app, <- !app_assoc. reflexivity.
Qed.

(** [inet_pton] accepts the dotted decimal form of four bytes and nothing
    else. *)
Lemma inet_pton_literal (src : text) (addr : list Z) :
  inet_pton src = Some addr <->
  exists a b c d,
    is_octet a /\ is_octet b /\ is_octet c /\ is_octet d
    /\ src = dotted a b c d /\ addr = [a; b; c; d].
Proof.
  split.
  - intros H. unfold inet_pton in H.
    pose proof (inet_pton4_sound src [] 0 false 0%nat addr
                  ltac:(constructor) ltac:(unfold is_octet; lia) eq_refl
                  ltac:(lia) ltac:(intros _; lia) H) as [Hlen Hall].
    apply inet_pton4_text in H;
      [| lia | reflexivity | lia | intros _; lia].
    destruct H as (tmp' & d & -> & Heq).
    change (parts_text [] ++ [] ++ src) with src in Heq.
    rewrite length_app in Hlen. cbn [length] in Hlen.
    destruct tmp' as [| a [| b [| c [| x tmp']]]]; cbn [length] in Hlen;
      try lia.
    apply Forall_app in Hall as [Habc Hd].
    inversion Habc as [| ? ? Ha Hbc]; subst.
    inversion Hbc as [| ? ? Hb Hc]; subst.
    inversion Hc as [| ? ? Hc' _]; subst.
    inversion Hd as [| ? ? Hd' _]; subst.
    exists a, b, c, d.
    repeat (split; [assumption |]). split; [| reflexivity].
    unfold parts_text, dotted. cbn [map concat].
    rewrite <- !app_assoc. reflexivity.
  - intros (a & b & c & d & Ha & Hb & Hc & Hd & -> & ->).
    now apply inet_pton_dotted.
Qed.

Lemma c_string_whole (t : text) : ~ In NUL t -> c_string t = t.
Proof.
  induction t as [| c t IH]; intros H; simpl; [reflexivity |].
  destruct (Ascii.eqb_spec c NUL) as [-> | _].
  - exfalso. apply H. now left.
  - f_equal. apply IH. intros Hin. apply H. now right.
Qed.

Lemma dotted_numeric (a b c d : Z) : Forall numeric (dotted a b c d).
Proof.
  unfold dotted.
  repeat (apply Forall_app; split);
    try apply num_int_to_text; cbn; num_chars.
Qed.

Lemma dotted_not_localhost (a b c d : Z) : dotted a b c d <> txt "localhost".
Proof.
  intros E.
  assert (Hin : In "."%char (dotted a b c d)).
  { unfold dotted. apply in_or_app. right. now left. }
  rewrite E in Hin. cbn in Hin.
  repeat (destruct Hin as [Hin | Hin]; [discriminate Hin |]). exact Hin.
Qed.

(** ** Setting up the client side *)

(** C9: on the client side the host "localhost" stands for 127.0.0.1; any
    other host is taken only as a literal IPv4 address (the C string of the
    argument, four bytes in dotted decimal) and every such host is
    accepted; when the address does not parse, or [connect] fails, the
    constructor throws, and so no channel exists; when [socket], the address
    and [connect] succeed, the constructor returns the channel, its socket
    created and connected to that address. *)
Theorem client_channel_setup (k : kernel) (ip : text) (port : Z) :
  let made := NetworkRequestChannel_new k ip port CLIENT_SIDE in
  (ip = txt "localhost" ->
   forall ch, made = Returned ch -> sin_addr (server_addr ch) = [127; 0; 0; 1])
  /\ (ip <> txt "localhost" ->
      forall ch, made = Returned ch ->
                 inet_pton (c_string ip) = Some (sin_addr (server_addr ch)))
  /\ (ip <> txt "localhost" -> inet_pton (c_string ip) = None ->
      made = Threw (thrown_literal "Error setting address client side")
      \/ made = Threw (thrown_literal "Error creating socket client side"))
  /\ (forall a,
         (ip = txt "localhost" /\ a = [127; 0; 0; 1])
         \/ (ip <> txt "localhost" /\ inet_pton (c_string ip) = Some a) ->
         k_connect k (mkAddr AF_INET (htons port) a) = -1 ->
         made = Threw (thrown_literal "Error connecting")
         \/ made = Threw (thrown_literal "Error creating socket client side"))
  /\ ((exists what, made = Threw (thrown_literal what))
      \/ (exists ch,
             made = Returned ch
             /\ my_side ch = CLIENT_SIDE
             /\ sockfd ch = k_socket k /\ k_socket k <> -1
             /\ k_connect k (server_addr ch) <> -1
             /\ sin_family (server_addr ch) = AF_INET
             /\ sin_port (server_addr ch) = htons port
             /\ peer_ip ch = ip /\ peer_port ch = port))
  /\ (forall a,
         (ip = txt "localhost" /\ a = [127; 0; 0; 1])
         \/ (ip <> txt "localhost" /\ inet_pton (c_string ip) = Some a) ->
         k_socket k <> -1 ->
         k_connect k (mkAddr AF_INET (htons port) a) <> -1 ->
         made = Returned (mkChannel CLIENT_SIDE (k_socket k)
                            (mkAddr AF_INET (htons port) a) ip port))
  /\ (forall a b c d,
         is_octet a -> is_octet b -> is_octet c -> is_octet d ->
         ip = dotted a b c d ->
         k_socket k <> -1 ->
         k_connect k (mkAddr AF_INET (htons port) [a; b; c; d]) <> -1 ->
         made = Returned (mkChannel CLIENT_SIDE (k_socket k)
                            (mkAddr AF_INET (htons port) [a; b; c; d])
                            ip port))
  /\ (ip <> txt "localhost" ->
      forall ch, made = Returned ch ->
                 exists a b c d,
                   is_octet a /\ is_octet b /\ is_octet c /\ is_octet d
                   /\ c_string ip = dotted a b c d
                   /\ sin_addr (server_addr ch) = [a; b; c; d]).
Proof.
  assert (Hfirst :
  let made := NetworkRequestChannel_new k ip port CLIENT_SIDE in
  (ip = txt "localhost" ->
   forall ch, made = Returned ch -> sin_addr (server_addr ch) = [127; 0; 0; 1])
  /\ (ip <> txt "localhost" ->
      forall ch, made = Returned ch ->
                 inet_pton (c_string ip) = Some (sin_addr (server_addr ch)))
  /\ (ip <> txt "localhost" -> inet_pton (c_string ip) = None ->
      made = Threw (thrown_literal "Error setting address client side")
      \/ made = Threw (thrown_literal "Error creating socket client side"))
  /\ (forall a,
         (ip = txt "localhost" /\ a = [127; 0; 0; 1])
         \/ (ip <> txt "localhost" /\ inet_pton (c_string ip) = Some a) ->
         k_connect k (mkAddr AF_INET (htons port) a) = -1 ->
         made = Threw (thrown_literal "Error connecting")
         \/ made = Threw (thrown_literal "Error creating socket client side"))
  /\ ((exists what, made = Threw (thrown_literal what))
      \/ (exists ch,
             made = Returned ch
             /\ my_side ch = CLIENT_SIDE
             /\ sockfd ch = k_socket k /\ k_socket k <> -1
             /\ k_connect k (server_addr ch) <> -1
             /\ sin_family (server_addr ch) = AF_INET
             /\ sin_port (server_addr ch) = htons port
             /\ peer_ip ch = ip /\ peer_port ch = port))).
  {
    cbv zeta. unfold NetworkRequestChannel_new.
    destruct (Z.eqb_spec (k_socket k) (-1)) as [Hs | Hs].
    { split; [| split; [| split; [| split]]].
      - intros _ ch H. discriminate H.
      - intros _ ch H. discriminate H.
      - intros _ _. now right.
      - intros a _ _. now right.
      - left. eauto. }
    destruct (text_eqb ip (txt "localhost")) eqn:Hip.
    - apply text_eqb_eq in Hip.
      change (inet_pton (txt "127.0.0.1")) with (Some [127; 0; 0; 1]).
      cbv iota.
      destruct (Z.eqb_spec (k_connect k (mkAddr AF_INET (htons port)
                                           [127; 0; 0; 1])) (-1)) as [Hc | Hc];
        (split; [| split; [| split; [| split]]]).
      + intros _ ch H. discriminate H.
      + intros Hne. now elim Hne.
      + intros Hne. now elim Hne.
      + intros a _ _. now left.
      + left. eauto.
      + intros _ ch H. injection H as <-. reflexivity.
      + intros Hne. now elim Hne.
      + intros Hne. now elim Hne.
      + intros a [[_ ->] | [Hne _]] Hk; [now elim Hc | now elim Hne].
      + right. eexists. repeat (split; [reflexivity || assumption |]).
        reflexivity.
    - assert (Hne : ip <> txt "localhost").
      { intros E. apply text_eqb_eq in E. congruence. }
      destruct (inet_pton (c_string ip)) as [a |].
      + destruct (Z.eqb_spec (k_connect k (mkAddr AF_INET (htons port) a)) (-1))
          as [Hc | Hc]; (split; [| split; [| split; [| split]]]).
        * intros E. now elim Hne.
        * intros _ ch H. discriminate H.
        * intros _ H. discriminate H.
        * intros a' _ _. now left.
        * left. eauto.
        * intros E. now elim Hne.
        * intros _ ch H. injection H as <-. reflexivity.
        * intros _ H. discriminate H.
        * intros a' [[E _] | [_ [= <-]]] Hk; [now elim Hne | now elim Hc].
        * right. eexists. repeat (split; [reflexivity || assumption |]).
          reflexivity.
      + split; [| split; [| split; [| split]]].
        * intros E. now elim Hne.
        * intros _ ch H. discriminate H.
        * intros _ _. now left.
        * intros a' [[E _] | [_ Ha]] _; [now elim Hne | discriminate Ha].
        * left. eauto.
  }
  cbv zeta in *.
  destruct Hfirst as (H1 & H2 & H3 & H4 & H5).
  assert (Hmade : forall a,
             (ip = txt "localhost" /\ a = [127; 0; 0; 1])
             \/ (ip <> txt "localhost" /\ inet_pton (c_string ip) = Some a) ->
             k_socket k <> -1 ->
             k_connect k (mkAddr AF_INET (htons port) a) <> -1 ->
             NetworkRequestChannel_new k ip port CLIENT_SIDE
             = Returned (mkChannel CLIENT_SIDE (k_socket k)
                           (mkAddr AF_INET (htons port) a) ip port)).
  { intros a Ha Hs Hc. unfold NetworkRequestChannel_new.
    destruct (Z.eqb_spec (k_socket k) (-1)) as [| _]; [contradiction |].
    destruct Ha as [[-> ->] | [Hne Ha]].
    - change (text_eqb (txt "localhost") (txt "localhost")) with true.
      change (inet_pton (txt "127.0.0.1")) with (Some [127; 0; 0; 1]).
      cbv iota.
      destruct (Z.eqb_spec (k_connect k (mkAddr AF_INET (htons port)
                                           [127; 0; 0; 1])) (-1));
        [contradiction | reflexivity].
    - destruct (text_eqb ip (txt "localhost")) eqn:Hip;
        [apply text_eqb_eq in Hip; contradiction |].
      rewrite Ha.
      destruct (Z.eqb_spec (k_connect k (mkAddr AF_INET (htons port) a))
                  (-1)); [contradiction | reflexivity]. }
  do 5 (split; [assumption |]).
  split; [exact Hmade |]. split.
  - intros a b c d Ha Hb Hc Hd -> Hs Hconn.
    apply Hmade; [| assumption | assumption].
    right. split; [apply dotted_not_localhost |].
    rewrite c_string_whole by apply numeric_no_NUL, dotted_numeric.
    now apply inet_pton_dotted.
  - intros Hne ch Hch.
    specialize (H2 Hne ch Hch).
    apply inet_pton_literal in H2
      as (a & b & c & d & Ha & Hb & Hc & Hd & Htext & Haddr).
    exists a, b, c, d. auto 10.
Qed.

(** The running server on this machine, a host name, and a literal
    address. *)
Lemma client_channel_setup_witness :
  let k := mkKernel 3 0 (fun _ => 0) 0 (fun _ => 0) in
  NetworkRequestChannel_new k (txt "localhost") 9000 CLIENT_SIDE
  = Returned (mkChannel CLIENT_SIDE 3 (mkAddr AF_INET 9000 [127; 0; 0; 1])
                (txt "localhost") 9000)
  /\ NetworkRequestChannel_new k (txt "example.org") 9000 CLIENT_SIDE
     = Threw (thrown_literal "Error setting address client side")
  /\ NetworkRequestChannel_new k (txt "10.0.0.7") 9000 CLIENT_SIDE
     = Returned (mkChannel CLIENT_SIDE 3 (mkAddr AF_INET 9000 [10; 0; 0; 7])
                   (txt "10.0.0.7") 9000).
Proof.
  intros k. split; [| split].
  - destruct (client_channel_setup k (txt "localhost") 9000)
      as (_ & _ & _ & _ & _ & H6 & _).
    apply (H6 [127; 0; 0; 1]); [now left | discriminate | discriminate].
  - destruct (client_channel_setup k (txt "example.org") 9000)
      as (_ & _ & H3 & _).
    destruct H3 as [H | H]; [discriminate | reflexivity | exact H |
                             discriminate H].
  - destruct (client_channel_setup k (txt "10.0.0.7") 9000)
      as (_ & _ & _ & _ & _ & _ & H7 & _).
    apply (H7 10 0 0 7); try (unfold is_octet; lia); try discriminate.
    reflexivity.
Defined.

(** ** What a reader makes of a frame *)

(** Reading a frame the peer wrote, whatever bytes it holds: the text is
    the payload up to its first NUL. *)
Lemma read_frame_fair_text (payload lb junk more : list byte) (s : socket) :
  (length payload < BUFFER_SIZE)%nat ->
  forallb delivers (recvs s) = true ->
  header_whole (recvs s) = true ->
  (length payload < length (recvs s))%nat ->
  inbox s = frame_of payload ++ more ->
  exists s' t,
    read_frame lb junk s = (Returned (FrameText (received_text payload)), s')
    /\ inbox s' = more /\ outbox s' = outbox s
    /\ trace s' = trace s ++ t /\ existsb syscall_failed t = false
    /\ first_recv t = Some 4.
Proof.
  intros Hlen Hfair Hhead Hsched Hin.
  destruct (recvs s) as [| [| c] rs'] eqn:Hrs; try discriminate.
  cbn [header_whole] in Hhead. cbn [forallb] in Hfair. cbn [length] in Hsched.
  apply Nat.leb_le in Hhead.
  apply andb_prop in Hfair as [_ Hfair].
  unfold frame_of in Hin. rewrite <- app_assoc in Hin.
  unfold read_frame.
  rewrite (read_header_whole lb s _ _ c rs' (htonl_bytes_length _) Hin Hrs Hhead).
  rewrite ntohl_htonl
    by (rewrite wrap32_length by lia; unfold BUFFER_SIZE in Hlen; split;
        [lia |]; apply Z.le_lt_trans with 1024; [lia | reflexivity]).
  rewrite wrap32_length by lia.
  match goal with
  | |- context [recv_loop ?rs ?s1 ?b ?len 0] =>
      destruct (recv_loop_fair rs s1 b len 0 [] payload more)
        as (s' & buf' & t & Hrun & Hpre & Hbl & Hin' & Hob & Htr & Hok);
      auto using stack_buffer_length
  end.
  - cbn [length]. lia.
  - cbn [recvs]. lia.
  - rewrite Hrun. cbn [length app Nat.add] in Hpre.
    rewrite Nat2Z.id, buf_write_Some by (rewrite Hbl; cbn [length]; lia).
    rewrite Hpre. exists s', (SysRecv 4 4 :: t).
    cbn [app]. unfold received_text.
    rewrite (c_string_tail payload _ []).
    simpl in Htr, Hob. repeat split; auto.
    rewrite Htr, <- app_assoc. reflexivity.
Qed.

(** [send_request] on an undisturbed exchange: the frame of the request goes
    out, the answer is read to its last byte, and the result is what the
    decoder makes of the answer as text. *)
Lemma send_request_reads (stack : send_request_stack) (req : Request)
    (payload more : list byte) (s : socket) :
  (length (encode_request req) <= BUFFER_SIZE)%nat ->
  forallb takes (sends s) = true ->
  (4 + length (encode_request req) <= length (sends s))%nat ->
  (length payload < BUFFER_SIZE)%nat ->
  forallb delivers (recvs s) = true ->
  header_whole (recvs s) = true ->
  (length payload < length (recvs s))%nat ->
  inbox s = frame_of payload ++ more ->
  exists s',
    send_request stack req s
    = (decode_response (success0 stack) (balance0 stack)
         (received_text payload), s')
    /\ outbox s' = outbox s ++ frame_of (encode_request req)
    /\ inbox s' = more.
Proof.
  intros Hreq Hss Hsched Hlen Hrs Hhead Hrsched Hin.
  destruct (send_request_fair stack req s Hreq Hss Hsched)
    as (s2 & t2 & Hrun & Hout2 & Hin2 & Hrs2 & _).
  destruct (read_frame_fair_text payload
              (htonl_bytes (wrap32 (Z.of_nat (length (encode_request req)))))
              (resp_buf0 stack) more s2 Hlen)
    as (s3 & t3 & Hread & Hin3 & Hout3 & _);
    try (rewrite Hrs2; assumption); [congruence |].
  exists s3. rewrite Hrun, Hread. cbn [response_of_frame].
  repeat split; congruence.
Qed.

(** [receive_request] on a frame the peer wrote: the result is what
    [parseRequest] makes of the payload as text. *)
Lemma receive_request_reads (parse : text -> outcome Request)
    (payload lb junk more : list byte) (s : socket) :
  (length payload < BUFFER_SIZE)%nat ->
  forallb delivers (recvs s) = true ->
  header_whole (recvs s) = true ->
  (length payload < length (recvs s))%nat ->
  inbox s = frame_of payload ++ more ->
  exists s',
    receive_request parse lb junk s = (parse (received_text payload), s')
    /\ inbox s' = more.
Proof.
  intros Hlen Hrs Hhead Hrsched Hin.
  destruct (read_frame_fair_text payload (stack_buffer 4 lb) junk more s
              Hlen Hrs Hhead Hrsched Hin)
    as (s' & t & Hread & Hin' & _).
  exists s'. unfold receive_request. rewrite Hread. now split.
Qed.

(** ** The encoded texts *)

(** What the decoder makes of a flag, a number and two texts joined by
    delimiters, whatever the last text holds and whatever [stod] makes of
    the number. *)
Lemma decode_encoded (flag : bool) (v : double) (d rest : text)
    (success0 : bool) (balance0 : double) :
  delimiter_free d ->
  decode_response success0 balance0
    ((if flag then txt "1" else txt "0") ++ [delimiter]
       ++ double_to_text v ++ [delimiter] ++ d ++ [delimiter] ++ rest)
  = match stod (double_to_text v) with
    | inl e => Threw e
    | inr w => Returned (mkResponse flag w d rest)
    end.
Proof.
  intros Hd. unfold decode_response. cbn [app].
  assert (Hflag : delimiter_free (if flag then txt "1" else txt "0"))
    by (destruct flag; apply delimiter_free_dec; reflexivity).
  rewrite find_first, substr_first, erase_first by assumption.
  rewrite find_first, substr_first, erase_first
    by apply free_Forall, nd_double_to_text.
  destruct (stod (double_to_text v)) as [e | w]; [reflexivity |].
  rewrite find_first, substr_first, substr_from_first by assumption.
  destruct flag; reflexivity.
Qed.

Lemma encode_response_text (resp : Response) :
  encode_response resp
  = (if success resp then txt "1" else txt "0") ++ [delimiter]
      ++ double_to_text (balance resp) ++ [delimiter]
      ++ data resp ++ [delimiter] ++ message resp.
Proof. reflexivity. Qed.

(** The flag and the number of an encoded response hold no NUL: the
    receiver reads on into [data] and [message]. *)
Lemma received_encode_response (resp : Response) :
  received_text (encode_response resp)
  = (if success resp then txt "1" else txt "0") ++ [delimiter]
      ++ double_to_text (balance resp) ++ [delimiter]
      ++ received_text (data resp ++ [delimiter] ++ message resp).
Proof.
  rewrite encode_response_text.
  rewrite received_text_app
    by (destruct (success resp); cbn; intuition discriminate).
  rewrite received_text_app by (cbn; intuition discriminate).
  rewrite received_text_app by apply numeric_no_NUL, num_double_to_text.
  rewrite received_text_app by (cbn; intuition discriminate).
  reflexivity.
Qed.

Lemma encode_response_no_NUL (resp : Response) :
  ~ In NUL (data resp) -> ~ In NUL (message resp) ->
  ~ In NUL (encode_response resp).
Proof.
  intros Hd Hm. rewrite encode_response_text.
  repeat apply not_In_app; try assumption;
    try (apply numeric_no_NUL, num_double_to_text);
    try (destruct (success resp)); cbn; intuition discriminate.
Qed.

Lemma encode_request_no_NUL (req : Request) :
  ~ In NUL (req_filename req) -> ~ In NUL (req_data req) ->
  ~ In NUL (encode_request req).
Proof.
  intros Hf Hd. unfold encode_request.
  repeat apply not_In_app; try assumption;
    try (apply numeric_no_NUL, num_int_to_text);
    try (apply numeric_no_NUL, num_double_to_text);
    cbn; intuition discriminate.
Qed.

Lemma parse_encoded (req : Request) :
  delimiter_free (req_filename req) ->
  is_int (req_type req) -> is_int (req_user_id req) ->
  parseRequest (encode_request req)
  = match stod (double_to_text (req_amount req)) with
    | inl e => Threw e
    | inr v => Returned (mkRequest (req_type req) (req_user_id req) v
                           (req_filename req) (req_data req))
    end.
Proof.
  intros Hfile Htype Huser.
  unfold encode_request, parseRequest.
  change (txt "|") with [delimiter]. cbn [app].
  rewrite split_field_first by apply free_Forall, nd_int_to_text.
  rewrite stoi_int_to_text by assumption.
  rewrite split_field_first by apply free_Forall, nd_int_to_text.
  rewrite stoi_int_to_text by assumption.
  rewrite split_field_first by apply free_Forall, nd_double_to_text.
  destruct (stod (double_to_text (req_amount req))) as [e | v];
    [reflexivity |].
  now rewrite split_field_first.
Qed.

(** ** Round trip through the codec *)

(** C3 (amended): take a Response or a Request whose text fields hold no
    NUL, the decoder reading its array as a C string, and whose field
    before the last ([data]; [filename]) holds no delimiter. The text the
    decoder reads is the encoded text, and decoding it gives back [success],
    [type], [user_id] and all the text fields. The floating-point field
    ([balance]; [amount]) is what [stod] makes of the six significant digits
    [operator<<] wrote: the record comes back equal to the original exactly
    when [stod] of that text is the value again; when [stod] gives another
    number, the record comes back with that number; when [stod] throws,
    decoding throws and no record comes back. The same holds of
    [send_request] reading the frame of the encoded response, and of
    [receive_request] reading the frame of the encoded request, when the
    encoding is shorter than the array. The Response half is the code of
    [send_response] and [send_request]; the Request half decodes with
    [parseRequest]. *)
Theorem codec_round_trip :
  (forall (resp : Response) (success0 : bool) (balance0 : double),
      delimiter_free (data resp) ->
      ~ In NUL (data resp) -> ~ In NUL (message resp) ->
      let decoded :=
        decode_response success0 balance0
          (received_text (encode_response resp)) in
      received_text (encode_response resp) = encode_response resp
      /\ decoded
         = match stod (double_to_text (balance resp)) with
           | inl e => Threw e
           | inr v => Returned (mkResponse (success resp) v (data resp)
                                  (message resp))
           end
      /\ (decoded = Returned resp
          <-> stod (double_to_text (balance resp)) = inr (balance resp)))
  /\ (forall (stack : send_request_stack) (req : Request) (resp : Response)
             (more : list byte) (s : socket),
         delimiter_free (data resp) ->
         ~ In NUL (data resp) -> ~ In NUL (message resp) ->
         (length (encode_request req) <= BUFFER_SIZE)%nat ->
         forallb takes (sends s) = true ->
         (4 + length (encode_request req) <= length (sends s))%nat ->
         (length (encode_response resp) < BUFFER_SIZE)%nat ->
         forallb delivers (recvs s) = true ->
         header_whole (recvs s) = true ->
         (length (encode_response resp) < length (recvs s))%nat ->
         inbox s = frame_of (encode_response resp) ++ more ->
         fst (send_request stack req s)
         = match stod (double_to_text (balance resp)) with
           | inl e => Threw e
           | inr v => Returned (mkResponse (success resp) v (data resp)
                                  (message resp))
           end)
  /\ (forall req : Request,
         delimiter_free (req_filename req) ->
         ~ In NUL (req_filename req) -> ~ In NUL (req_data req) ->
         is_int (req_type req) -> is_int (req_user_id req) ->
         let decoded := parseRequest (received_text (encode_request req)) in
         received_text (encode_request req) = encode_request req
         /\ decoded
            = match stod (double_to_text (req_amount req)) with
              | inl e => Threw e
              | inr v => Returned (mkRequest (req_type req) (req_user_id req)
                                     v (req_filename req) (req_data req))
              end
         /\ (decoded = Returned req
             <-> stod (double_to_text (req_amount req))
                 = inr (req_amount req)))
  /\ (forall (req : Request) (lb junk more : list byte) (s : socket),
         delimiter_free (req_filename req) ->
         ~ In NUL (req_filename req) -> ~ In NUL (req_data req) ->
         is_int (req_type req) -> is_int (req_user_id req) ->
         (length (encode_request req) < BUFFER_SIZE)%nat ->
         forallb delivers (recvs s) = true ->
         header_whole (recvs s) = true ->
         (length (encode_request req) < length (recvs s))%nat ->
         inbox s = frame_of (encode_request req) ++ more ->
         fst (receive_request parseRequest lb junk s)
         = match stod (double_to_text (req_amount req)) with
           | inl e => Threw e
           | inr v => Returned (mkRequest (req_type req) (req_user_id req)
                                  v (req_filename req) (req_data req))
           end).
Proof.
  assert (Hresp : forall (resp : Response) (success0 : bool)
                         (balance0 : double),
             delimiter_free (data resp) ->
             ~ In NUL (data resp) -> ~ In NUL (message resp) ->
             received_text (encode_response resp) = encode_response resp
             /\ decode_response success0 balance0
                  (received_text (encode_response resp))
                = match stod (double_to_text (balance resp)) with
                  | inl e => Threw e
                  | inr v => Returned (mkResponse (success resp) v
                                         (data resp) (message resp))
                  end).
  { intros resp success0 balance0 Hdata Hnd Hnm.
    assert (Hwhole : received_text (encode_response resp)
                     = encode_response resp)
      by now apply received_text_whole, encode_response_no_NUL.
    split; [exact Hwhole |].
    rewrite Hwhole, encode_response_text. now apply decode_encoded. }
  assert (Hreq : forall req : Request,
             delimiter_free (req_filename req) ->
             ~ In NUL (req_filename req) -> ~ In NUL (req_data req) ->
             is_int (req_type req) -> is_int (req_user_id req) ->
             received_text (encode_request req) = encode_request req
             /\ parseRequest (received_text (encode_request req))
                = match stod (double_to_text (req_amount req)) with
                  | inl e => Threw e
                  | inr v => Returned (mkRequest (req_type req)
                                         (req_user_id req) v
                                         (req_filename req) (req_data req))
                  end).
  { intros req Hfile Hnf Hnd Htype Huser.
    assert (Hwhole : received_text (encode_request req) = encode_request req)
      by now apply received_text_whole, encode_request_no_NUL.
    split; [exact Hwhole |].
    rewrite Hwhole. now apply parse_encoded. }
  split; [| split; [| split]].
  - intros resp success0 balance0 Hdata Hnd Hnm decoded.
    destruct (Hresp resp success0 balance0 Hdata Hnd Hnm) as [Hwhole Hdec].
    fold decoded in Hdec.
    split; [exact Hwhole |]. split; [exact Hdec |].
    rewrite Hdec.
    destruct resp as [sc bal dat msg]. cbn [success balance data message].
    destruct (stod (double_to_text bal)) as [e | v].
    + split; discriminate.
    + split; [intros [= ->] | intros [= ->]]; reflexivity.
  - intros stack req resp more s Hdata Hnd Hnm Hlreq Hss Hsched Hlen Hrs
      Hhead Hrsched Hin.
    destruct (send_request_reads stack req (encode_response resp) more s)
      as (s' & Hrun & _); try assumption.
    rewrite Hrun. cbn [fst].
    now apply Hresp.
  - intros req Hfile Hnf Hnd Htype Huser decoded.
    destruct (Hreq req Hfile Hnf Hnd Htype Huser) as [Hwhole Hdec].
    fold decoded in Hdec.
    split; [exact Hwhole |]. split; [exact Hdec |].
    rewrite Hdec.
    destruct req as [ty uid amt fname dat].
    cbn [req_type req_user_id req_amount req_filename req_data].
    destruct (stod (double_to_text amt)) as [e | v].
    + split; discriminate.
    + split; [intros [= ->] | intros [= ->]]; reflexivity.
  - intros req lb junk more s Hfile Hnf Hnd Htype Huser Hlen Hrs Hhead
      Hrsched Hin.
    destruct (receive_request_reads parseRequest (encode_request req) lb junk
                more s) as (s' & Hrun & _); try assumption.
    rewrite Hrun. cbn [fst].
    now apply Hreq.
Qed.

(** A balance that survives its text; one that comes back as another
    number; one, the least normal [double], whose text 2.22507e-308 makes
    [stod] throw; the first of them over the wire; and a request. *)
Lemma codec_round_trip_witness :
  decode_response false zero_double
    (received_text
       (encode_response (mkResponse true d100_5 (txt "abc") (txt "O|K"))))
  = Returned (mkResponse true d100_5 (txt "abc") (txt "O|K"))
  /\ decode_response false zero_double
       (received_text
          (encode_response (mkResponse true d0_1234567 [] (txt "OK"))))
     = Returned (mkResponse true (D_finite false 8896014387140469 (-56))
                   [] (txt "OK"))
  /\ decode_response false zero_double
       (received_text
          (encode_response (mkResponse true DBL_MIN [] (txt "OK"))))
     = Threw (out_of_range "stod")
  /\ fst (send_request (mkStack [] [] false zero_double)
            (mkRequest BALANCE 42 zero_double [] [])
            (fresh_socket
               (frame_of (encode_response
                            (mkResponse true d100_5 (txt "abc") (txt "O|K"))))
               (RecvUpTo 4 :: repeat (RecvUpTo 3) 16)
               (repeat (SendUpTo 2) 14)))
     = Returned (mkResponse true d100_5 (txt "abc") (txt "O|K"))
  /\ parseRequest
       (received_text
          (encode_request
             (mkRequest DEPOSIT 42 d100_5 (txt "a.txt") (txt "x|y"))))
     = Returned (mkRequest DEPOSIT 42 d100_5 (txt "a.txt") (txt "x|y"))
  /\ fst (receive_request parseRequest [] []
            (fresh_socket
               (frame_of (encode_request
                            (mkRequest DEPOSIT 42 d100_5 (txt "a.txt")
                               (txt "x|y"))))
               (RecvUpTo 4 :: repeat (RecvUpTo 3) 22) []))
     = Returned (mkRequest DEPOSIT 42 d100_5 (txt "a.txt") (txt "x|y")).
Proof.
  destruct codec_round_trip as (Hresp & Hwire & Hreq & Hrwire).
  split; [| split; [| split; [| split; [| split]]]].
  - apply (Hresp (mkResponse true d100_5 (txt "abc") (txt "O|K"))).
    + apply delimiter_free_dec. reflexivity.
    + cbn. intuition discriminate.
    + cbn. intuition discriminate.
    + vm_compute. reflexivity.
  - destruct (Hresp (mkResponse true d0_1234567 [] (txt "OK")) false
                zero_double) as (_ & H & _).
    + apply delimiter_free_dec. reflexivity.
    + cbn. intuition discriminate.
    + cbn. intuition discriminate.
    + rewrite H. vm_compute. reflexivity.
  - destruct (Hresp (mkResponse true DBL_MIN [] (txt "OK")) false
                zero_double) as (_ & H & _).
    + apply delimiter_free_dec. reflexivity.
    + cbn. intuition discriminate.
    + cbn. intuition discriminate.
    + rewrite H. vm_compute. reflexivity.
  - rewrite (Hwire (mkStack [] [] false zero_double)
               (mkRequest BALANCE 42 zero_double [] [])
               (mkResponse true d100_5 (txt "abc") (txt "O|K")) []).
    + vm_compute. reflexivity.
    + apply delimiter_free_dec. reflexivity.
    + cbn. intuition discriminate.
    + cbn. intuition discriminate.
    + vm_compute. lia.
    + reflexivity.
    + vm_compute. lia.
    + vm_compute. lia.
    + reflexivity.
    + reflexivity.
    + vm_compute. lia.
    + cbn [inbox fresh_socket]. now rewrite app_nil_r.
  - apply (Hreq (mkRequest DEPOSIT 42 d100_5 (txt "a.txt") (txt "x|y"))).
    + apply delimiter_free_dec. reflexivity.
    + cbn. intuition discriminate.
    + cbn. intuition discriminate.
    + unfold is_int. vm_compute. split; discriminate.
    + unfold is_int. vm_compute. split; discriminate.
    + vm_compute. reflexivity.
  - rewrite (Hrwire (mkRequest DEPOSIT 42 d100_5 (txt "a.txt") (txt "x|y"))
               [] [] []).
    + vm_compute. reflexivity.
    + apply delimiter_free_dec. reflexivity.
    + cbn. intuition discriminate.
    + cbn. intuition discriminate.
    + unfold is_int. vm_compute. split; discriminate.
    + unfold is_int. vm_compute. split; discriminate.
    + vm_compute. lia.
    + reflexivity.
    + reflexivity.
    + vm_compute. lia.
    + cbn [inbox fresh_socket]. now rewrite app_nil_r.
Defined.

(** C3, as stated, fails: the balance 0.1234567 is written as "0.123457"
    and read back as another number. *)
Lemma balance_round_trip_counterexample :
  let resp := mkResponse true d0_1234567 [] (txt "OK") in
  delimiter_free (data resp) /\ delimiter_free (message resp)
  /\ encode_response resp = txt "1|0.123457||OK"
  /\ decode_response false zero_double (encode_response resp)
     = Returned (mkResponse true (D_finite false 8896014387140469 (-56))
                   [] (txt "OK"))
  /\ decode_response false zero_double (encode_response resp)
     <> Returned resp.
Proof.
  cbv zeta. split; [apply delimiter_free_dec; reflexivity |].
  split; [apply delimiter_free_dec; reflexivity |].
  split; [vm_compute; reflexivity |].
  split; [vm_compute; reflexivity |].
  intros H. vm_compute in H. discriminate.
Qed.

(* ================================================================== *)
(** * Part III: further properties                                     *)
(* ================================================================== *)

(** ** Setting up the server side *)

(** The listening constructor succeeds exactly when [socket], [setsockopt],
    the address, [bind] and [listen] all do, in that order of checks; an
    empty [ip] binds to every interface, any other [ip] must be a dotted
    IPv4 literal; the channel then records "0.0.0.0" and the port as its
    peer, so that [get_peer_address] reads "0.0.0.0:port". *)
Theorem server_channel_setup (k : kernel) (ip : text) (port : Z) :
  let made := NetworkRequestChannel_new k ip port SERVER_SIDE in
  let bound := match ip with
               | [] => Some INADDR_ANY
               | _ => inet_pton (c_string ip)
               end in
  (forall ch,
      made = Returned ch <->
      k_socket k <> -1 /\ k_setsockopt k <> -1
      /\ exists a,
          bound = Some a
          /\ k_bind k (mkAddr AF_INET (htons port) a) <> -1
          /\ k_listen k <> -1
          /\ ch = mkChannel SERVER_SIDE (k_socket k)
                    (mkAddr AF_INET (htons port) a) (txt "0.0.0.0") port)
  /\ (forall ch, made = Returned ch ->
                 get_peer_address ch = txt "0.0.0.0:" ++ int_to_text port)
  /\ ((exists ch, made = Returned ch)
      \/ (exists what, made = Threw (thrown_literal what)))
  /\ (k_socket k <> -1 -> k_setsockopt k <> -1 -> bound = None ->
      made = Threw (thrown_literal "Error setting address server side")).
Proof.
  cbv zeta. unfold NetworkRequestChannel_new.
  set (bound := match ip with
                | [] => Some INADDR_ANY
                | _ :: _ => inet_pton (c_string ip)
                end).
  destruct (Z.eqb_spec (k_socket k) (-1)) as [Hs | Hs].
  { split; [| split; [| split]].
    - intros ch. split; [discriminate | intros [H _]; now elim H].
    - discriminate.
    - right. eauto.
    - intros H. now elim H. }
  destruct (Z.eqb_spec (k_setsockopt k) (-1)) as [Ho | Ho].
  { split; [| split; [| split]].
    - intros ch. split; [discriminate | intros (_ & H & _); now elim H].
    - discriminate.
    - right. eauto.
    - intros _ H. now elim H. }
  destruct bound as [a |] eqn:Hb.
  - destruct (Z.eqb_spec (k_bind k (mkAddr AF_INET (htons port) a)) (-1))
      as [Hbind | Hbind].
    { split; [| split; [| split]].
      - intros ch. split; [discriminate |].
        intros (_ & _ & a' & [= <-] & H & _). now elim H.
      - discriminate.
      - right. eauto.
      - discriminate. }
    destruct (Z.eqb_spec (k_listen k) (-1)) as [Hl | Hl].
    { split; [| split; [| split]].
      - intros ch. split; [discriminate |].
        intros (_ & _ & a' & _ & _ & H & _). now elim H.
      - discriminate.
      - right. eauto.
      - discriminate. }
    split; [| split; [| split]].
    + intros ch. split.
      * intros [= <-]. repeat split; auto. exists a. auto.
      * intros (_ & _ & a' & [= <-] & _ & _ & ->). reflexivity.
    + intros ch [= <-]. reflexivity.
    + left. eauto.
    + discriminate.
  - split; [| split; [| split]].
    + intros ch. split; [discriminate |].
      intros (_ & _ & a' & H & _). discriminate H.
    + discriminate.
    + right. eauto.
    + reflexivity.
Qed.

(** ** The shapes of an encoded response *)

(** What the decoder makes of a flag, a number and two texts joined by
    delimiters, whatever the second text holds. *)
Lemma decode_joined (flag : bool) (v : double) (d rest : text)
    (success0 : bool) (balance0 : double) :
  delimiter_free d ->
  stod (double_to_text v) = inr v ->
  decode_response success0 balance0
    ((if flag then txt "1" else txt "0") ++ [delimiter]
       ++ double_to_text v ++ [delimiter] ++ d ++ [delimiter] ++ rest)
  = Returned (mkResponse flag v d rest).
Proof.
  intros Hd Hv. unfold decode_response. cbn [app].
  assert (Hflag : delimiter_free (if flag then txt "1" else txt "0"))
    by (destruct flag; apply delimiter_free_dec; reflexivity).
  rewrite find_first, substr_first, erase_first by assumption.
  rewrite find_first, substr_first, erase_first
    by apply free_Forall, nd_double_to_text.
  rewrite Hv.
  rewrite find_first, substr_first, substr_from_first by assumption.
  destruct flag; reflexivity.
Qed.

(** What the decoder makes of a flag, a number and any further text. *)
Lemma decode_flag_number (flag : bool) (v : double) (t : text)
    (success0 : bool) (balance0 : double) :
  decode_response success0 balance0
    ((if flag then txt "1" else txt "0") ++ [delimiter]
       ++ double_to_text v ++ [delimiter] ++ t)
  = match stod (double_to_text v) with
    | inl e => Threw e
    | inr w => Returned (mkResponse flag w (fst (last_fields t))
                           (snd (last_fields t)))
    end.
Proof.
  unfold decode_response. cbn [app].
  assert (Hflag : delimiter_free (if flag then txt "1" else txt "0"))
    by (destruct flag; apply delimiter_free_dec; reflexivity).
  rewrite find_first, substr_first, erase_first by assumption.
  rewrite find_first, substr_first, erase_first
    by apply free_Forall, nd_double_to_text.
  destruct (stod (double_to_text v)) as [e | w]; [reflexivity |].
  unfold last_fields, split_field.
  destruct (find delimiter t); destruct flag; reflexivity.
Qed.

(** A delimiter inside [data] is not an error and is not escaped. When
    [send_request] reads the frame of such a response, [data] comes back cut
    at its first delimiter, and what followed it comes back at the front of
    [message], with a delimiter behind it; the number is what [stod] makes
    of its text. [message] ends, as every text read from the array, at the
    first NUL. *)
Theorem delimiter_in_data_shifts_fields (stack : send_request_stack)
    (req : Request) (resp : Response) (d1 d2 : text) (more : list byte)
    (s : socket) :
  data resp = d1 ++ [delimiter] ++ d2 ->
  delimiter_free d1 -> ~ In NUL d1 ->
  (length (encode_request req) <= BUFFER_SIZE)%nat ->
  forallb takes (sends s) = true ->
  (4 + length (encode_request req) <= length (sends s))%nat ->
  (length (encode_response resp) < BUFFER_SIZE)%nat ->
  forallb delivers (recvs s) = true ->
  header_whole (recvs s) = true ->
  (length (encode_response resp) < length (recvs s))%nat ->
  inbox s = frame_of (encode_response resp) ++ more ->
  fst (send_request stack req s)
  = match stod (double_to_text (balance resp)) with
    | inl e => Threw e
    | inr v =>
        Returned (mkResponse (success resp) v d1
                    (received_text (d2 ++ [delimiter] ++ message resp)))
    end.
Proof.
  intros Hdata Hd1 Hn1 Hlreq Hss Hsched Hlen Hrs Hhead Hrsched Hin.
  destruct (send_request_reads stack req (encode_response resp) more s)
    as (s' & Hrun & _); try assumption.
  rewrite Hrun. cbn [fst].
  rewrite received_encode_response, Hdata, <- !app_assoc.
  rewrite received_text_app by assumption.
  rewrite received_text_app by (cbn; intuition discriminate).
  now apply decode_encoded.
Qed.

Lemma delimiter_in_data_shifts_fields_witness :
  let resp := mkResponse true d0_1234567 (txt "a|b") (txt "OK") in
  let s := fresh_socket (frame_of (encode_response resp))
             (RecvUpTo 4 :: repeat (RecvUpTo 3) 17)
             (repeat (SendUpTo 2) 14) in
  fst (send_request (mkStack [] [] false zero_double)
         (mkRequest BALANCE 42 zero_double [] []) s)
  = Returned (mkResponse true (D_finite false 8896014387140469 (-56))
                (txt "a") (txt "b|OK")).
Proof.
  intros resp s.
  rewrite (delimiter_in_data_shifts_fields (mkStack [] [] false zero_double)
             (mkRequest BALANCE 42 zero_double [] []) resp
             (txt "a") (txt "b") [] s).
  - vm_compute. reflexivity.
  - reflexivity.
  - apply delimiter_free_dec. reflexivity.
  - cbn. intuition discriminate.
  - vm_compute. lia.
  - reflexivity.
  - vm_compute. lia.
  - vm_compute. lia.
  - reflexivity.
  - reflexivity.
  - vm_compute. lia.
  - cbn [inbox s fresh_socket]. now rewrite app_nil_r.
Defined.

(** ** A whole exchange *)

Lemma decode_encode_response (resp : Response) (success0 : bool)
    (balance0 : double) :
  delimiter_free (data resp) ->
  stod (double_to_text (balance resp)) = inr (balance resp) ->
  decode_response success0 balance0 (encode_response resp) = Returned resp.
Proof.
  intros Hd Hv. unfold encode_response. change (txt "|") with [delimiter].
  rewrite decode_joined by assumption. now destruct resp.
Qed.

(** When the server's answer to a request is the frame of a response, the
    client's [send_request] puts the frame of its request on the wire,
    reads the answer up to its last byte and no further, and returns that
    very response, with no failing call; this for every cutting of the
    bytes in both directions (the answer's header in one piece), a request
    of at most 1024 bytes and an answer of fewer, and a response whose
    number survives its text form. *)
Theorem send_request_exchange (stack : send_request_stack) (req : Request)
    (resp : Response) (more : list byte) (s : socket) :
  (length (encode_request req) <= BUFFER_SIZE)%nat ->
  forallb takes (sends s) = true ->
  (4 + length (encode_request req) <= length (sends s))%nat ->
  (length (encode_response resp) < BUFFER_SIZE)%nat ->
  ~ In NUL (encode_response resp) ->
  delimiter_free (data resp) ->
  stod (double_to_text (balance resp)) = inr (balance resp) ->
  forallb delivers (recvs s) = true ->
  header_whole (recvs s) = true ->
  (length (encode_response resp) < length (recvs s))%nat ->
  inbox s = frame_of (encode_response resp) ++ more ->
  exists s' t,
    send_request stack req s = (Returned resp, s')
    /\ outbox s' = outbox s ++ frame_of (encode_request req)
    /\ inbox s' = more
    /\ trace s' = trace s ++ t /\ ~ io_failed t.
Proof.
  intros Hreq Hss Hsched Hlen Hnul Hd Hv Hrs Hhead Hrsched Hin.
  destruct (send_request_fair stack req s Hreq Hss Hsched)
    as (s2 & t2 & Hrun & Hout2 & Hin2 & Hrs2 & Htr2 & Hok2 & Hfr2).
  destruct (read_frame_fair (encode_response resp)
              (htonl_bytes (wrap32 (Z.of_nat (length (encode_request req)))))
              (resp_buf0 stack) more s2 Hlen Hnul)
    as (s3 & t3 & Hread & Hin3 & Hout3 & Htr3 & Hok3 & Hfr3);
    try (rewrite Hrs2; assumption); [congruence |].
  exists s3, (t2 ++ t3). rewrite Hrun, Hread. cbn [response_of_frame].
  rewrite decode_encode_response by assumption.
  repeat split; try congruence.
  - rewrite Htr3, Htr2, <- app_assoc. reflexivity.
  - intros H. apply io_failed_app_clean in H; try assumption.
    revert H. apply clean_not_failed; auto.
Qed.

(** The scenario of a balance query answered with 100.5 and "OK". *)
Lemma send_request_exchange_witness :
  let req := mkRequest BALANCE 42 zero_double [] [] in
  let resp := mkResponse true d100_5 [] (txt "OK") in
  let s := fresh_socket (frame_of (encode_response resp))
             (RecvUpTo 4 :: repeat (RecvUpTo 3) 11)
             (repeat (SendUpTo 2) 14) in
  fst (send_request (mkStack [] [] false zero_double) req s) = Returned resp
  /\ outbox (snd (send_request (mkStack [] [] false zero_double) req s))
     = frame_of (txt "2|42|0||").
Proof.
  intros req resp s.
  destruct (send_request_exchange (mkStack [] [] false zero_double) req resp
              [] s) as (s' & t & Hrun & Hout & _).
  - vm_compute. lia.
  - reflexivity.
  - vm_compute. lia.
  - vm_compute. lia.
  - vm_compute. intuition discriminate.
  - apply delimiter_free_dec. reflexivity.
  - vm_compute. reflexivity.
  - reflexivity.
  - reflexivity.
  - vm_compute. lia.
  - cbn [inbox s fresh_socket]. now rewrite app_nil_r.
  - rewrite Hrun. split; [reflexivity | exact Hout].
Defined.

(** A response frame without a delimiter, the empty frame included, is not
    refused: [send_request] returns whatever its two uninitialised locals
    hold as [success] and [balance], with [data] and [message] empty. *)
Theorem bare_frame_gives_uninitialised (stack : send_request_stack)
    (req : Request) (payload : text) (more : list byte) (s : socket) :
  (length (encode_request req) <= BUFFER_SIZE)%nat ->
  forallb takes (sends s) = true ->
  (4 + length (encode_request req) <= length (sends s))%nat ->
  (length payload < BUFFER_SIZE)%nat ->
  ~ In NUL payload -> delimiter_free payload ->
  forallb delivers (recvs s) = true ->
  header_whole (recvs s) = true ->
  (length payload < length (recvs s))%nat ->
  inbox s = frame_of payload ++ more ->
  fst (send_request stack req s)
  = Returned (mkResponse (success0 stack) (balance0 stack) [] []).
Proof.
  intros Hreq Hss Hsched Hlen Hnul Hfree Hrs Hhead Hrsched Hin.
  destruct (send_request_fair stack req s Hreq Hss Hsched)
    as (s2 & t2 & Hrun & _ & Hin2 & Hrs2 & _).
  destruct (read_frame_fair payload
              (htonl_bytes (wrap32 (Z.of_nat (length (encode_request req)))))
              (resp_buf0 stack) more s2 Hlen Hnul)
    as (s3 & t3 & Hread & _);
    try (rewrite Hrs2; assumption); [congruence |].
  rewrite Hrun, Hread. cbn [response_of_frame fst].
  unfold decode_response. now rewrite !find_absent.
Qed.

Lemma bare_frame_gives_uninitialised_witness :
  fst (send_request (mkStack [] [] true d100_5) (Request_of_type BALANCE)
         (fresh_socket (frame_of []) [RecvUpTo 4] (repeat (SendUpTo 5) 11)))
  = Returned (mkResponse true d100_5 [] []).
Proof.
  apply (bare_frame_gives_uninitialised (mkStack [] [] true d100_5)
           (Request_of_type BALANCE) [] []).
  - vm_compute. lia.
  - reflexivity.
  - vm_compute. lia.
  - vm_compute. lia.
  - intros H. exact H.
  - intros H. exact H.
  - reflexivity.
  - reflexivity.
  - vm_compute. lia.
  - reflexivity.
Defined.

(** ** A failing first [send] in [send_response] *)

(** When the very first [send] of [send_response] fails, its counter wraps
    from 0 to the largest [size_t], the header loop ends at once, and the
    payload goes out with no length header in front of it; the call returns
    normally. *)
Theorem send_response_loses_header (mb : list byte) (resp : Response)
    (s : socket) (ss : list send_ev) :
  sends s = SendErr :: ss ->
  forallb takes ss = true ->
  (length (encode_response resp) <= BUFFER_SIZE)%nat ->
  (length (encode_response resp) <= length ss)%nat ->
  fst (send_response mb resp s) = Returned tt
  /\ outbox (snd (send_response mb resp s))
     = outbox s ++ encode_response resp.
Proof.
  intros Hs Hss Hlen Hsched. unfold send_response. rewrite Hs.
  cbn [send_loop_perror send]. change (0 <? 4) with true. cbv iota.
  change (wrap64 (0 + -1)) with (2 ^ 64 - 1).
  set (s1 := mkSocket _ _ ss _ _).
  assert (Hdone : forall buf, send_loop_perror ss s1 buf 4 (2 ^ 64 - 1)
                              = (SendDone, s1)).
  { intros buf. destruct ss; reflexivity. }
  rewrite Hdone.
  destruct (proj1 (message_buf_copy mb _) Hlen) as (b & -> & Hbl & Hpre).
  rewrite send_loop_perror_fair by assumption.
  destruct (send_loop_fair (sends s1) s1 b
              (Z.of_nat (length (encode_response resp))) 0 Hss)
    as (s2 & t & Hrun & Hout & _); try reflexivity; try lia.
  { unfold BUFFER_SIZE in Hlen.
    apply Z.le_lt_trans with 1024; [lia | reflexivity]. }
  { cbn [sends s1]. lia. }
  rewrite Hrun. split; [reflexivity |].
  cbn [snd]. rewrite Hout. cbn [outbox s1]. f_equal.
  rewrite Z.sub_0_r, Nat2Z.id. unfold buf_read. exact Hpre.
Qed.

Lemma send_response_loses_header_witness :
  let resp := mkResponse true d100_5 [] (txt "OK") in
  let s := fresh_socket [] [] (SendErr :: repeat (SendUpTo 4) 11) in
  fst (send_response [] resp s) = Returned tt
  /\ outbox (snd (send_response [] resp s)) = txt "1|100.5||OK".
Proof.
  intros resp s.
  apply (send_response_loses_header [] resp s (repeat (SendUpTo 4) 11)).
  - reflexivity.
  - reflexivity.
  - vm_compute. lia.
  - vm_compute. lia.
Defined.

(** ** Frames one after the other *)

(** A fair receiving loop uses up at most one answer of the kernel per byte
    it still has to read. *)
Lemma recv_loop_fair_recvs (rs : list recv_ev) :
  forall (s : socket) (buf : buffer) (len received : Z)
         (rest more : list byte),
    forallb delivers rs = true ->
    length buf = BUFFER_SIZE ->
    0 <= received ->
    len = received + Z.of_nat (length rest) ->
    len <= Z.of_nat BUFFER_SIZE ->
    inbox s = rest ++ more ->
    recvs s = rs ->
    (length rest <= length rs)%nat ->
    exists k, (k <= length rest)%nat
              /\ recvs (snd (recv_loop rs s buf len received)) = skipn k rs.
Proof.
  induction rs as [| ev rs' IH];
    intros s buf len received rest more Hfair Hbuf Hrec Hlen Hfit Hin Hrs
           Hsched.
  - destruct rest; [| simpl in Hsched; lia].
    exists 0%nat. simpl. destruct (received <? len); auto.
  - simpl in Hfair. apply andb_prop in Hfair as [Hev Hrest].
    simpl recv_loop.
    destruct (Z.ltb_spec received len) as [Hlt | Hge].
    + apply delivers_inv in Hev as [c ->]. unfold recv.
      replace (Z.to_nat (len - received)) with (length rest) by lia.
      set (k := Nat.min (Nat.min (S c) (length rest)) (length (inbox s))).
      assert (Hk : (1 <= k <= length rest)%nat).
      { subst k. rewrite Hin, length_app. lia. }
      destruct (Z.eqb_spec (Z.of_nat k) (-1)) as [Hbad | _]; [lia |].
      assert (Hkl : length (firstn k (inbox s)) = k).
      { rewrite length_firstn, Hin, length_app. lia. }
      rewrite buf_write_Some by (rewrite Hkl, Hbuf; lia).
      rewrite wrap64_small
        by (unfold BUFFER_SIZE in Hfit; split; [lia |];
            apply Z.le_lt_trans with 1024; [lia | reflexivity]).
      match goal with
      | |- context [recv_loop rs' ?s1 ?b1 len (received + Z.of_nat k)] =>
          destruct (IH s1 b1 len (received + Z.of_nat k) (skipn k rest) more
                      Hrest) as (k' & Hk' & Hrecvs)
      end.
      * rewrite !length_app, Hkl, length_firstn, length_skipn. lia.
      * lia.
      * rewrite length_skipn. lia.
      * exact Hfit.
      * cbn [inbox]. rewrite Hin, skipn_app.
        replace (k - length rest)%nat with 0%nat by lia. reflexivity.
      * reflexivity.
      * rewrite length_skipn. simpl in Hsched. lia.
      * exists (S k'). rewrite length_skipn in Hk'. split; [lia |].
        exact Hrecvs.
    + exists 0%nat. split; [lia |]. simpl. exact Hrs.
Qed.

Lemma read_frame_fair_recvs (payload : text) (lb junk more : list byte)
    (s : socket) :
  (length payload < BUFFER_SIZE)%nat ->
  forallb delivers (recvs s) = true ->
  header_whole (recvs s) = true ->
  (length payload < length (recvs s))%nat ->
  inbox s = frame_of payload ++ more ->
  exists k, (k <= 1 + length payload)%nat
            /\ recvs (snd (read_frame lb junk s)) = skipn k (recvs s).
Proof.
  intros Hlen Hfair Hhead Hsched Hin.
  destruct (recvs s) as [| [| c] rs'] eqn:Hrs; try discriminate.
  cbn [header_whole] in Hhead. cbn [forallb] in Hfair. cbn [length] in Hsched.
  apply Nat.leb_le in Hhead. apply andb_prop in Hfair as [_ Hfair].
  unfold frame_of in Hin. rewrite <- app_assoc in Hin.
  unfold read_frame.
  rewrite (read_header_whole lb s _ _ c rs' (htonl_bytes_length _) Hin Hrs
             Hhead).
  rewrite wrap32_length by lia.
  rewrite ntohl_htonl
    by (unfold BUFFER_SIZE in Hlen; split; [lia |];
        apply Z.le_lt_trans with 1024; [lia | reflexivity]).
  match goal with
  | |- context [recv_loop ?r ?s1 ?b ?len 0] =>
      destruct (recv_loop_fair_recvs r s1 b len 0 payload more Hfair)
        as (k & Hk & Hrecvs);
      [apply stack_buffer_length | lia | lia | lia | reflexivity
      | reflexivity | cbn [recvs]; lia |];
      destruct (recv_loop r s1 b len 0) as [[buf | | |] s2]
  end; cbn [snd] in Hrecvs; cbn [recvs] in Hrecvs;
    exists (S k); (split; [lia |]); try exact Hrecvs.
  destruct (buf_write buf (Z.to_nat (Z.of_nat (length payload))) [NUL]);
    exact Hrecvs.
Qed.

Lemma hands_over_four_fair (rs : list recv_ev) :
  forallb hands_over_four rs = true ->
  forallb delivers rs = true
  /\ (rs <> [] -> header_whole rs = true).
Proof.
  intros H. split.
  - rewrite forallb_forall in *. intros ev Hin. specialize (H ev Hin).
    destruct ev as [| [| c]]; try discriminate. reflexivity.
  - destruct rs as [| [| c] rs']; try congruence; simpl in *.
    + discriminate.
    + intros _. now apply andb_prop in H as [H _].
Qed.

Lemma forallb_skipn {A : Type} (f : A -> bool) (n : nat) (l : list A) :
  forallb f l = true -> forallb f (skipn n l) = true.
Proof.
  revert l. induction n as [| n IH]; intros [| x l] H; simpl; auto.
  simpl in H. apply andb_prop in H as [_ H]. auto.
Qed.

(** Two frames written one behind the other are read as two frames: the
    first read stops at the last byte of the first frame, and the second
    read returns the second payload, whatever pieces the bytes come in, as
    long as every [recv] can hand over a whole header. *)
Theorem frames_back_to_back (p1 p2 : text) (more lb1 lb2 j1 j2 : list byte)
    (s : socket) :
  (length p1 < BUFFER_SIZE)%nat -> (length p2 < BUFFER_SIZE)%nat ->
  ~ In NUL p1 -> ~ In NUL p2 ->
  forallb hands_over_four (recvs s) = true ->
  (2 + length p1 + length p2 <= length (recvs s))%nat ->
  inbox s = frame_of p1 ++ frame_of p2 ++ more ->
  exists s1 s2,
    read_frame lb1 j1 s = (Returned (FrameText p1), s1)
    /\ read_frame lb2 j2 s1 = (Returned (FrameText p2), s2)
    /\ inbox s2 = more.
Proof.
  intros Hl1 Hl2 Hn1 Hn2 Hfour Hsched Hin.
  destruct (hands_over_four_fair _ Hfour) as [Hfair Hhead].
  assert (Hhead1 : header_whole (recvs s) = true).
  { apply Hhead. intros E. rewrite E in Hsched. simpl in Hsched. lia. }
  destruct (read_frame_fair p1 lb1 j1 (frame_of p2 ++ more) s)
    as (s1 & t1 & Hrun1 & Hin1 & _); try assumption; [lia |].
  destruct (read_frame_fair_recvs p1 lb1 j1 (frame_of p2 ++ more) s)
    as (k & Hk & Hrecvs); try assumption; [lia |].
  rewrite Hrun1 in Hrecvs. cbn [snd] in Hrecvs.
  assert (Hlen1 : (1 + length p2 <= length (recvs s1))%nat).
  { rewrite Hrecvs, length_skipn. lia. }
  assert (Hfour1 : forallb hands_over_four (recvs s1) = true).
  { rewrite Hrecvs. now apply forallb_skipn. }
  destruct (hands_over_four_fair _ Hfour1) as [Hfair1 Hhead'].
  destruct (read_frame_fair p2 lb2 j2 more s1)
    as (s2 & t2 & Hrun2 & Hin2 & _); try assumption.
  - apply Hhead'. intros E. rewrite E in Hlen1. simpl in Hlen1. lia.
  - exists s1, s2. auto.
Qed.

Lemma frames_back_to_back_witness :
  let s := fresh_socket (frame_of (txt "5|0|0||") ++ frame_of (txt "2|42|0||"))
             (repeat (RecvUpTo 5) 17) [] in
  exists s1 s2,
    read_frame [] [] s = (Returned (FrameText (txt "5|0|0||")), s1)
    /\ read_frame [] [] s1 = (Returned (FrameText (txt "2|42|0||")), s2)
    /\ inbox s2 = [].
Proof.
  intros s.
  apply (frames_back_to_back (txt "5|0|0||") (txt "2|42|0||") [] [] [] [] []).
  - vm_compute. lia.
  - vm_compute. lia.
  - vm_compute. intuition discriminate.
  - vm_compute. intuition discriminate.
  - reflexivity.
  - vm_compute. lia.
  - cbn [inbox s fresh_socket]. now rewrite app_nil_r.
Defined.

(** ** Who calls what, and in which order *)

Lemma first_recv_None_sends (t : list syscall) :
  first_recv t = None -> forallb is_send t = true.
Proof.
  induction t as [| [len r | len r] t IH]; simpl; auto. discriminate.
Qed.

(** The receiving loop only calls [recv], and touches nothing of the
    sending side. *)
Lemma recv_loop_one_way (rs : list recv_ev) :
  forall (s : socket) (buf : buffer) (len received : Z),
    exists t,
      trace (snd (recv_loop rs s buf len received)) = trace s ++ t
      /\ forallb is_recv t = true
      /\ sends (snd (recv_loop rs s buf len received)) = sends s.
Proof.
  induction rs as [| ev rest IH]; intros s buf len received; simpl.
  - exists []. destruct (received <? len); simpl; now rewrite app_nil_r.
  - destruct (received <? len);
      [| exists []; simpl; now rewrite app_nil_r].
    destruct ev as [| c]; unfold recv.
    + change (-1 =? -1) with true. cbv iota. eexists. cbn [snd trace sends].
      split; [reflexivity | auto].
    + set (k := Nat.min _ _).
      destruct (Z.eqb_spec (Z.of_nat k) (-1)) as [Hbad | _]; [lia |].
      destruct (buf_write buf (Z.to_nat received) (firstn k (inbox s)))
        as [buf' |].
      * match goal with
        | |- context [recv_loop rest ?s1 ?b1 ?l ?r] =>
            destruct (IH s1 b1 l r) as (t & Htr & Hall & Hs)
        end.
        eexists. rewrite Htr, Hs. cbn [trace sends].
        rewrite <- app_assoc. split; [reflexivity |].
        split; [| reflexivity]. cbn [app forallb is_recv]. exact Hall.
      * eexists. cbn [snd trace sends]. split; [reflexivity | auto].
Qed.

Lemma read_frame_one_way (lb junk : list byte) (s : socket) :
  exists t,
    trace (snd (read_frame lb junk s)) = trace s ++ t
    /\ forallb is_recv t = true
    /\ sends (snd (read_frame lb junk s)) = sends s.
Proof.
  unfold read_frame.
  destruct (read_header lb s) as [oh s1] eqn:Hh.
  assert (Hs1 : sends s1 = sends s).
  { revert Hh. unfold read_header.
    destruct (recvs s) as [| [| c] rest]; unfold recv; cbv zeta.
    - now intros [= _ <-].
    - change (negb (wrap64 (-1) =? 4)) with true. cbv iota.
      now intros [= _ <-].
    - destruct (negb _); now intros [= _ <-]. }
  apply read_header_trace in Hh
    as [[-> ->] | (r & Htr & [[-> [len ->]] | [Hr ->]])].
  - exists []. cbn [snd]. now rewrite app_nil_r.
  - destruct (recv_loop_one_way (recvs s1) s1
                (stack_buffer BUFFER_SIZE junk) len 0) as (t & Ht & Hall & Hs).
    destruct (recv_loop (recvs s1) s1 (stack_buffer BUFFER_SIZE junk) len 0)
      as [e s2]. cbn [snd] in Ht, Hs.
    exists (SysRecv 4 4 :: t).
    assert (Hgoal : trace s2 = trace s ++ SysRecv 4 4 :: t
                    /\ forallb is_recv (SysRecv 4 4 :: t) = true
                    /\ sends s2 = sends s).
    { rewrite Ht, Htr, <- app_assoc, Hs. auto. }
    destruct e as [buf | | |]; try exact Hgoal.
    destruct (buf_write buf (Z.to_nat len) [NUL]); exact Hgoal.
  - exists [SysRecv 4 r]. cbn [snd]. auto.
Qed.

(** The loop of [send_response] only calls [send], and touches nothing of
    the receiving side, failures or not. *)
Lemma send_loop_perror_one_way (ss : list send_ev) :
  forall (s : socket) (buf : buffer) (n sent : Z),
    exists t,
      trace (snd (send_loop_perror ss s buf n sent)) = trace s ++ t
      /\ forallb is_send t = true
      /\ inbox (snd (send_loop_perror ss s buf n sent)) = inbox s
      /\ recvs (snd (send_loop_perror ss s buf n sent)) = recvs s.
Proof.
  induction ss as [| ev rest IH]; intros s buf n sent; simpl.
  - exists []. destruct (sent <? n); simpl; now rewrite app_nil_r.
  - destruct (sent <? n); [| exists []; simpl; now rewrite app_nil_r].
    destruct ev as [| c]; unfold send;
      match goal with
      | |- context [send_loop_perror rest ?s1 ?b1 ?l ?r] =>
          destruct (IH s1 b1 l r) as (t & Htr & Hall & Hi & Hr)
      end;
      eexists; rewrite Htr, Hi, Hr; cbn [trace inbox recvs];
      rewrite <- app_assoc; (split; [reflexivity |]);
      (split; [| auto]); cbn [app forallb is_send]; exact Hall.
Qed.

(** Each of the two server-side calls works in one direction only:
    [receive_request] never calls [send] and leaves what was sent and the
    sending side as they are; [send_response] never calls [recv] and leaves
    the unread bytes as they are. This holds on every run, failing ones
    included. *)
Theorem one_direction_only (parse : text -> outcome Request)
    (lb0 junk mb : list byte) (resp : Response) (s : socket) :
  (exists t,
      trace (snd (receive_request parse lb0 junk s)) = trace s ++ t
      /\ forallb is_recv t = true
      /\ outbox (snd (receive_request parse lb0 junk s)) = outbox s
      /\ sends (snd (receive_request parse lb0 junk s)) = sends s)
  /\ (exists t,
         trace (snd (send_response mb resp s)) = trace s ++ t
         /\ forallb is_send t = true
         /\ inbox (snd (send_response mb resp s)) = inbox s
         /\ recvs (snd (send_response mb resp s)) = recvs s).
Proof.
  split.
  - assert (Hsnd : snd (receive_request parse lb0 junk s)
                   = snd (read_frame (stack_buffer 4 lb0) junk s)).
    { unfold receive_request.
      destruct (read_frame _ junk s) as [[[| t] | e | u |] s']; reflexivity. }
    rewrite Hsnd.
    destruct (read_frame_one_way (stack_buffer 4 lb0) junk s)
      as (t & Htr & Hall & Hs).
    exists t. rewrite read_frame_outbox. auto.
  - unfold send_response.
    set (hdr := htonl_bytes _).
    destruct (send_loop_perror_one_way (sends s) s hdr 4 0)
      as (t1 & Htr1 & Hall1 & Hi1 & Hr1).
    destruct (send_loop_perror (sends s) s hdr 4 0) as [e1 s1].
    cbn [snd] in Htr1, Hi1, Hr1.
    assert (Hstop : exists t, trace s1 = trace s ++ t
                              /\ forallb is_send t = true
                              /\ inbox s1 = inbox s /\ recvs s1 = recvs s)
      by eauto.
    destruct e1; try exact Hstop.
    destruct (buf_write _ 0 (encode_response resp)) as [b |];
      [| exact Hstop].
    destruct (send_loop_perror_one_way (sends s1) s1 b
                (Z.of_nat (length (encode_response resp))) 0)
      as (t2 & Htr2 & Hall2 & Hi2 & Hr2).
    destruct (send_loop_perror (sends s1) s1 b _ 0) as [e2 s2].
    cbn [snd] in Htr2, Hi2, Hr2.
    assert (Hend : exists t, trace s2 = trace s ++ t
                             /\ forallb is_send t = true
                             /\ inbox s2 = inbox s /\ recvs s2 = recvs s).
    { exists (t1 ++ t2). rewrite Htr2, Htr1, <- app_assoc, forallb_app.
      rewrite Hall1, Hall2. repeat split; congruence. }
    destruct e2; exact Hend.
Qed.

(** How far a sending loop of [send_request] got: the bytes it put on the
    wire are those of the block, from where it started to where it
    stopped; it stops at the end of the block, or before it on a failure. *)
Lemma send_loop_progress (ss : list send_ev) :
  forall (s s' : socket) (buf : buffer) (n sent : Z) (e : send_end),
    send_loop ss s buf n sent = (e, s') ->
    0 <= sent <= n -> n <= Z.of_nat (length buf) -> n < 2 ^ 64 ->
    exists sent',
      sent <= sent' <= n
      /\ outbox s'
         = outbox s ++ buf_read buf (Z.to_nat sent) (Z.to_nat (sent' - sent))
      /\ inbox s' = inbox s /\ recvs s' = recvs s
      /\ (e = SendDone -> sent' = n)
      /\ (e = SendFailed -> sent' < n).
Proof.
  induction ss as [| ev rest IH]; intros s s' buf n sent e; simpl;
    intros Hrun Hs Hn H64.
  - exists sent. rewrite Z.sub_diag, buf_read_nil, app_nil_r.
    destruct (Z.ltb_spec sent n); injection Hrun as <- <-;
      repeat split; auto; try lia; discriminate.
  - destruct (Z.ltb_spec sent n) as [Hlt | Hge].
    + destruct ev as [| c]; unfold send in Hrun.
      * change (-1 =? -1) with true in Hrun. cbv iota in Hrun.
        injection Hrun as <- <-. exists sent.
        rewrite Z.sub_diag, buf_read_nil, app_nil_r. cbn [outbox inbox recvs].
        repeat split; auto; try lia; discriminate.
      * set (bytes := buf_read buf (Z.to_nat sent) (Z.to_nat (n - sent)))
          in Hrun.
        assert (Hbl : length bytes = Z.to_nat (n - sent))
          by (apply buf_read_length; lia).
        rewrite Hbl in Hrun.
        set (k := Nat.min c (Z.to_nat (n - sent))) in Hrun.
        assert (Hk : (k <= Z.to_nat (n - sent))%nat) by (subst k; lia).
        destruct (Z.eqb_spec (Z.of_nat k) (-1)) as [Hbad | _]; [lia |].
        rewrite wrap64_small in Hrun by lia.
        apply IH in Hrun as (sent' & Hs' & Hout & Hin & Hrecv & Hd & Hf);
          try lia.
        cbn [outbox inbox recvs] in Hout, Hin, Hrecv.
        exists sent'. repeat split; auto; try lia.
        rewrite Hout, <- app_assoc. f_equal.
        replace (Z.to_nat (sent + Z.of_nat k)) with (Z.to_nat sent + k)%nat
          by lia.
        replace (Z.to_nat (sent' - (sent + Z.of_nat k)))
          with (Z.to_nat (sent' - sent) - k)%nat by lia.
        rewrite <- (buf_read_split buf (Z.to_nat sent) k
                      (Z.to_nat (sent' - sent))) by lia.
        f_equal. subst bytes. unfold buf_read.
        rewrite !firstn_firstn. f_equal. lia.
    + injection Hrun as <- <-. exists sent.
      rewrite Z.sub_diag, buf_read_nil, app_nil_r.
      repeat split; auto; try lia; discriminate.
Qed.

(** [send_request] is half-duplex on every run, failing ones included: it
    first only sends, then only receives. What it has put on the wire is
    always a prefix of the frame of its request, a strictly shorter one
    when a [send] failed, and the whole frame before the first [recv] is
    made. *)
Theorem send_request_half_duplex (stack : send_request_stack)
    (req : Request) (s : socket) :
  let run := send_request stack req s in
  let wire := frame_of (encode_request req) in
  exists (ts tr : list syscall) (k : nat),
    trace (snd run) = trace s ++ ts ++ tr
    /\ forallb is_send ts = true /\ forallb is_recv tr = true
    /\ (k <= length wire)%nat
    /\ outbox (snd run) = outbox s ++ firstn k wire
    /\ (existsb syscall_failed ts = true -> (k < length wire)%nat)
    /\ (tr <> [] -> k = length wire).
Proof.
  cbv zeta. unfold send_request, frame_of.
  set (p := encode_request req).
  set (hdr := htonl_bytes (wrap32 (Z.of_nat (length p)))).
  assert (Hhl : length hdr = 4%nat) by reflexivity.
  assert (Hwl : length (hdr ++ p) = (4 + length p)%nat)
    by (rewrite length_app, Hhl; reflexivity).
  rewrite Hwl.
  destruct (send_loop (sends s) s hdr 4 0) as [e1 s1] eqn:H1.
  pose proof H1 as H1'.
  apply send_loop_trace in H1 as (t1 & Htr1 & Hfr1 & Hok1 & _).
  apply send_loop_progress in H1'
    as (n1 & Hn1 & Hout1 & _ & _ & Hd1 & Hf1);
    [| lia | rewrite Hhl; lia | reflexivity].
  apply first_recv_None_sends in Hfr1.
  assert (Hpre1 : outbox s1 = outbox s ++ firstn (Z.to_nat n1) (hdr ++ p)).
  { rewrite Hout1. f_equal. unfold buf_read. simpl skipn.
    rewrite Z.sub_0_r, firstn_app.
    replace (Z.to_nat n1 - length hdr)%nat with 0%nat by (rewrite Hhl; lia).
    simpl. now rewrite app_nil_r. }
  assert (Hearly : e1 <> SendDone ->
            exists ts tr k,
              trace s1 = trace s ++ ts ++ tr
              /\ forallb is_send ts = true /\ forallb is_recv tr = true
              /\ (k <= 4 + length p)%nat
              /\ outbox s1 = outbox s ++ firstn k (hdr ++ p)
              /\ (existsb syscall_failed ts = true -> (k < 4 + length p)%nat)
              /\ (tr <> [] -> k = (4 + length p)%nat)).
  { intros He. exists t1, [], (Z.to_nat n1). rewrite app_nil_r.
    repeat split; auto; try lia; try congruence.
    intros Hfail. destruct e1; try congruence.
    - specialize (Hf1 eq_refl). lia.
    - rewrite Hok1 in Hfail by discriminate. discriminate. }
  destruct e1; try (apply Hearly; discriminate).
  specialize (Hd1 eq_refl). subst n1. specialize (Hok1 ltac:(discriminate)).
  clear Hearly Hf1.
  destruct (buf_write (stack_buffer BUFFER_SIZE (message_buf0 stack)) 0 p)
    as [b |] eqn:Hw.
  - assert (Hfit : (length p <= BUFFER_SIZE)%nat).
    { destruct (Nat.le_gt_cases (length p) BUFFER_SIZE) as [H | H]; auto.
      rewrite (proj2 (message_buf_copy (message_buf0 stack) p) H) in Hw.
      discriminate. }
    destruct (proj1 (message_buf_copy (message_buf0 stack) p) Hfit)
      as (b' & Hw' & Hbl & Hbp).
    rewrite Hw in Hw'. injection Hw' as <-.
    destruct (send_loop (sends s1) s1 b (Z.of_nat (length p)) 0)
      as [e2 s2] eqn:H2.
    pose proof H2 as H2'.
    apply send_loop_trace in H2 as (t2 & Htr2 & Hfr2 & Hok2 & _).
    apply send_loop_progress in H2'
      as (n2 & Hn2 & Hout2 & _ & _ & Hd2 & Hf2);
      [| lia | rewrite Hbl; lia
       | unfold BUFFER_SIZE in Hfit;
         apply Z.le_lt_trans with 1024; [lia | reflexivity]].
    apply first_recv_None_sends in Hfr2.
    assert (Hpre2 : outbox s2
                    = outbox s ++ firstn (4 + Z.to_nat n2) (hdr ++ p)).
    { rewrite Hout2, Hpre1, <- app_assoc. f_equal.
      replace (firstn (Z.to_nat 4) (hdr ++ p)) with hdr
        by (change (Z.to_nat 4) with (length hdr);
            rewrite firstn_app, Nat.sub_diag, firstn_all;
            cbn [firstn]; now rewrite app_nil_r).
      replace (firstn (4 + Z.to_nat n2) (hdr ++ p))
        with (hdr ++ firstn (Z.to_nat n2) p)
        by (change 4%nat with (length hdr); now rewrite firstn_app_2).
      f_equal. unfold buf_read. simpl skipn. rewrite Z.sub_0_r.
      transitivity (firstn (Z.to_nat n2) (firstn (length p) b));
        [rewrite firstn_firstn; f_equal; lia | now rewrite Hbp]. }
    assert (Hmid : e2 <> SendDone ->
              exists ts tr k,
                trace s2 = trace s ++ ts ++ tr
                /\ forallb is_send ts = true /\ forallb is_recv tr = true
                /\ (k <= 4 + length p)%nat
                /\ outbox s2 = outbox s ++ firstn k (hdr ++ p)
                /\ (existsb syscall_failed ts = true ->
                    (k < 4 + length p)%nat)
                /\ (tr <> [] -> k = (4 + length p)%nat)).
    { intros He. exists (t1 ++ t2), [], (4 + Z.to_nat n2)%nat.
      rewrite app_nil_r, forallb_app, Hfr1, Hfr2.
      repeat split; auto; try lia; try congruence.
      - rewrite Htr2, Htr1, <- app_assoc. reflexivity.
      - intros Hfail. rewrite existsb_app, Hok1 in Hfail.
        destruct e2; try congruence.
        + specialize (Hf2 eq_refl). lia.
        + rewrite Hok2 in Hfail by discriminate. discriminate. }
    destruct e2; try (apply Hmid; discriminate).
    specialize (Hd2 eq_refl). subst n2. specialize (Hok2 ltac:(discriminate)).
    rewrite response_of_frame_socket.
    destruct (read_frame_one_way hdr (resp_buf0 stack) s2)
      as (t3 & Htr3 & Hall3 & _).
    exists (t1 ++ t2), t3, (4 + length p)%nat.
    rewrite read_frame_outbox, Htr3, Htr2, Htr1, forallb_app, Hfr1, Hfr2.
    rewrite existsb_app, Hok1, Hok2, Hpre2, Nat2Z.id, <- !app_assoc.
    repeat split; auto. discriminate.
  - exists t1, [], 4%nat. rewrite app_nil_r.
    repeat split; auto; try lia; try congruence.
Qed.

(** ** Uninitialised arrays *)

Lemma buf_read_prefix (b1 b2 : buffer) (n sent : nat) :
  (sent <= n)%nat -> firstn n b1 = firstn n b2 ->
  buf_read b1 sent (n - sent) = buf_read b2 sent (n - sent).
Proof.
  intros Hle H. unfold buf_read.
  rewrite !(firstn_skipn_comm (n - sent) sent).
  replace (sent + (n - sent))%nat with n by lia. now rewrite H.
Qed.

(** The sending loops read the block and nothing behind it. *)
Lemma send_loop_junk (ss : list send_ev) :
  forall (s : socket) (b1 b2 : buffer) (n sent : Z),
    0 <= sent ->
    firstn (Z.to_nat n) b1 = firstn (Z.to_nat n) b2 ->
    send_loop ss s b1 n sent = send_loop ss s b2 n sent
    /\ send_loop_perror ss s b1 n sent = send_loop_perror ss s b2 n sent.
Proof.
  induction ss as [| ev rest IH]; intros s b1 b2 n sent Hs H; simpl.
  - split; reflexivity.
  - destruct (Z.ltb_spec sent n) as [Hlt | Hge]; [| split; reflexivity].
    replace (Z.to_nat (n - sent)) with (Z.to_nat n - Z.to_nat sent)%nat
      by lia.
    rewrite (buf_read_prefix b1 b2 (Z.to_nat n) (Z.to_nat sent)) by (lia || auto).
    destruct (send ev rest s _) as [i s'].
    assert (Hw : 0 <= wrap64 (sent + i))
      by (unfold wrap64; apply Z.mod_pos_bound; reflexivity).
    destruct (IH s' b1 b2 n (wrap64 (sent + i)) Hw H) as [-> ->].
    split; reflexivity.
Qed.

Lemma firstn_agree_le {A : Type} (m n : nat) (a b : list A) :
  (m <= n)%nat -> firstn n a = firstn n b -> firstn m a = firstn m b.
Proof.
  intros Hle H.
  rewrite <- (Nat.min_l m n Hle), <- !firstn_firstn. now rewrite H.
Qed.

Lemma firstn_exact {A : Type} (n : nat) (p q : list A) :
  length p = n -> firstn n (p ++ q) = p.
Proof.
  intros <-. rewrite firstn_app, Nat.sub_diag, firstn_all. simpl.
  apply app_nil_r.
Qed.

(** The receiving loop never reads the buffer: what it ends with behind the
    bytes received is what was there, and nothing else depends on it. *)
Lemma recv_loop_junk (rs : list recv_ev) :
  forall (s : socket) (b1 b2 : buffer) (len received : Z),
    length b1 = BUFFER_SIZE -> length b2 = BUFFER_SIZE ->
    0 <= received ->
    firstn (Z.to_nat received) b1 = firstn (Z.to_nat received) b2 ->
    snd (recv_loop rs s b1 len received) = snd (recv_loop rs s b2 len received)
    /\ match fst (recv_loop rs s b1 len received),
             fst (recv_loop rs s b2 len received) with
       | RecvDone b1', RecvDone b2' =>
           length b1' = BUFFER_SIZE /\ length b2' = BUFFER_SIZE
           /\ firstn (Z.to_nat len) b1' = firstn (Z.to_nat len) b2'
       | RecvFailed, RecvFailed => True
       | RecvOverflow, RecvOverflow => True
       | RecvBlocked, RecvBlocked => True
       | _, _ => False
       end.
Proof.
  induction rs as [| ev rest IH]; intros s b1 b2 len received Hl1 Hl2 Hr H.
  - simpl. destruct (Z.ltb_spec received len) as [Hlt | Hge]; simpl; auto.
    repeat split; auto.
    apply firstn_agree_le with (Z.to_nat received); [lia | exact H].
  - simpl recv_loop.
    destruct (Z.ltb_spec received len) as [Hlt | Hge].
    + destruct ev as [| c]; unfold recv.
      * change (-1 =? -1) with true. simpl. auto.
      * set (k := Nat.min _ _).
        destruct (Z.eqb_spec (Z.of_nat k) (-1)) as [Hbad | _]; [lia |].
        assert (Hkl : length (firstn k (inbox s)) = k)
          by (rewrite length_firstn; subst k; lia).
        unfold buf_write. rewrite Hkl, Hl1, Hl2.
        destruct (Nat.leb_spec (Z.to_nat received + k) BUFFER_SIZE)
          as [Hfit | Hover]; [| simpl; auto].
        rewrite wrap64_small
          by (unfold BUFFER_SIZE in Hfit; split; [lia |];
              apply Z.le_lt_trans with 1024; [lia | reflexivity]).
        apply IH.
        -- rewrite !length_app, length_firstn, Hkl, length_skipn. lia.
        -- rewrite !length_app, length_firstn, Hkl, length_skipn. lia.
        -- lia.
        -- replace (Z.to_nat (received + Z.of_nat k))
             with (Z.to_nat received + k)%nat by lia.
           rewrite !app_assoc.
           rewrite !firstn_exact
             by (rewrite length_app, length_firstn, Hkl; lia).
           now rewrite H.
    + simpl. repeat split; auto.
      apply firstn_agree_le with (Z.to_nat received); [lia | exact H].
Qed.

Lemma read_header_junk (lb1 lb2 : buffer) (s : socket) :
  read_header lb1 s = read_header lb2 s.
Proof.
  unfold read_header. destruct (recvs s) as [| [| c] rest]; try reflexivity.
  unfold recv. cbv zeta.
  set (k := Nat.min (Nat.min c 4) (length (inbox s))).
  assert (Hk : (k <= 4)%nat) by (subst k; lia).
  rewrite (wrap64_recv_ret k Hk).
  destruct (Nat.eqb_spec k 4) as [E | E]; cbn [negb]; [| reflexivity].
  assert (Hkl : length (firstn k (inbox s)) = 4%nat)
    by (rewrite length_firstn; subst k; lia).
  now rewrite !firstn_exact by exact Hkl.
Qed.

(** What a frame read gives does not depend on what its two arrays held
    before. *)
Lemma read_frame_junk (lb1 lb2 j1 j2 : list byte) (s : socket) :
  read_frame lb1 j1 s = read_frame lb2 j2 s.
Proof.
  unfold read_frame. rewrite (read_header_junk lb1 lb2).
  destruct (read_header lb2 s) as [[[len |] | e | u |] s1]; try reflexivity.
  destruct (recv_loop_junk (recvs s1) s1 (stack_buffer BUFFER_SIZE j1)
              (stack_buffer BUFFER_SIZE j2) len 0)
    as [Hsnd Hfst]; try apply stack_buffer_length; try reflexivity.
  destruct (recv_loop (recvs s1) s1 (stack_buffer BUFFER_SIZE j1) len 0)
    as [e1 s2], (recv_loop (recvs s1) s1 (stack_buffer BUFFER_SIZE j2) len 0)
    as [e2 s2'].
  cbn [fst snd] in Hsnd, Hfst. subst s2'.
  destruct e1 as [b1 | | |], e2 as [b2 | | |]; try contradiction;
    try reflexivity.
  destruct Hfst as (Hl1 & Hl2 & Hagree).
  unfold buf_write. rewrite Hl1, Hl2.
  destruct (Z.to_nat len + length [NUL] <=? BUFFER_SIZE)%nat;
    [| reflexivity].
  rewrite Hagree. cbn [app]. do 3 f_equal. apply c_string_tail.
Qed.

(** No call lets the contents its arrays had before reach the wire, the
    socket or the result: [receive_request] does not depend on what
    [length_buf] and [req_buf] held, [send_response] not on what
    [message_buf] held, and [send_request] not on what [message_buf] and
    [resp_buf] held; of all the uninitialised storage only the two locals
    [success] and [balance] of [send_request] can show. *)
Theorem arrays_contents_never_show (parse : text -> outcome Request)
    (l1 l2 j1 j2 m1 m2 r1 r2 : list byte) (sc0 : bool)
    (bl0 : double) (req : Request) (resp : Response) (s : socket) :
  receive_request parse l1 j1 s = receive_request parse l2 j2 s
  /\ send_response m1 resp s = send_response m2 resp s
  /\ send_request (mkStack m1 r1 sc0 bl0) req s
     = send_request (mkStack m2 r2 sc0 bl0) req s.
Proof.
  assert (Hcopy : forall p : text,
             match buf_write (stack_buffer BUFFER_SIZE m1) 0 p,
                   buf_write (stack_buffer BUFFER_SIZE m2) 0 p with
             | Some b1, Some b2 =>
                 firstn (length p) b1 = firstn (length p) b2
             | None, None => True
             | _, _ => False
             end).
  { intros p. destruct (Nat.le_gt_cases (length p) BUFFER_SIZE) as [H | H].
    - destruct (proj1 (message_buf_copy m1 p) H) as (b1 & -> & _ & E1).
      destruct (proj1 (message_buf_copy m2 p) H) as (b2 & -> & _ & E2).
      congruence.
    - now rewrite !(proj2 (message_buf_copy _ p) H). }
  split; [| split].
  - unfold receive_request.
    now rewrite (read_frame_junk (stack_buffer 4 l1) (stack_buffer 4 l2) j1 j2).
  - unfold send_response.
    destruct (send_loop_perror (sends s) s _ 4 0) as [[| |] s1];
      try reflexivity.
    specialize (Hcopy (encode_response resp)).
    destruct (buf_write (stack_buffer BUFFER_SIZE m1) 0 _) as [b1 |],
             (buf_write (stack_buffer BUFFER_SIZE m2) 0 _) as [b2 |];
      try contradiction; try reflexivity.
    rewrite (proj2 (send_loop_junk (sends s1) s1 b1 b2
                      (Z.of_nat (length (encode_response resp))) 0
                      (Z.le_refl 0)
                      ltac:(rewrite Nat2Z.id; exact Hcopy))).
    reflexivity.
  - unfold send_request. cbn [message_buf0 resp_buf0 success0 balance0].
    set (hdr := htonl_bytes _).
    destruct (send_loop (sends s) s hdr 4 0) as [[| |] s1]; try reflexivity.
    specialize (Hcopy (encode_request req)).
    destruct (buf_write (stack_buffer BUFFER_SIZE m1) 0 _) as [b1 |],
             (buf_write (stack_buffer BUFFER_SIZE m2) 0 _) as [b2 |];
      try contradiction; try reflexivity.
    rewrite (proj1 (send_loop_junk (sends s1) s1 b1 b2
                      (Z.of_nat (length (encode_request req))) 0
                      (Z.le_refl 0)
                      ltac:(rewrite Nat2Z.id; exact Hcopy))).
    destruct (send_loop (sends s1) s1 b2 _ 0) as [[| |] s2]; try reflexivity.
    rewrite (read_frame_junk hdr hdr r1 r2).
    destruct (read_frame hdr r2 s2) as [[[| txt'] | e | u |] s3]; reflexivity.
Qed.

(** ** The peer of an accepted connection *)

Lemma uint_chars_no_colon (u : Decimal.uint) :
  Forall (fun ch => ch <> ":"%char) (uint_chars u).
Proof. induction u; simpl; constructor; auto; discriminate. Qed.

Lemma octet_no_colon (o : Z) : 0 <= o -> ~ In ":"%char (int_to_text o).
Proof.
  intros Ho Hin.
  assert (H : Forall (fun ch => ch <> ":"%char) (int_to_text o)).
  { destruct o as [| p | p]; [repeat constructor; discriminate | | lia].
    apply uint_chars_no_colon. }
  rewrite Forall_forall in H. now apply (H _ Hin).
Qed.

(** The channel built on an accepted descriptor: the constructor throws
    exactly when [getpeername] fails; for a peer address of four bytes the
    dotted form always fits the 16 characters of the array, so "Error
    getting ip" is never thrown. The channel keeps the descriptor, and the
    text [get_peer_address] gives splits at its first colon into an address
    that [inet_pton] reads as the peer's and a port that [stoi] reads as the
    peer's. *)
Theorem accepted_peer_address (getpeername : Z -> option sockaddr_in)
    (server_addr0 : sockaddr_in) (fd : Z) :
  let made := NetworkRequestChannel_of_fd getpeername server_addr0 fd in
  (getpeername fd = None ->
   made = Threw (thrown_literal "Error getting peer info"))
  /\ (forall (family port a b c d : Z),
         getpeername fd = Some (mkAddr family port [a; b; c; d]) ->
         is_octet a -> is_octet b -> is_octet c -> is_octet d ->
         exists ch,
           made = Returned ch
           /\ get_socket_fd ch = fd
           /\ inet_pton (peer_ip ch) = Some [a; b; c; d]
           /\ peer_port ch = ntohs port
           /\ find ":"%char (get_peer_address ch) = Some (length (peer_ip ch))
           /\ stoi (substr_from (get_peer_address ch)
                      (length (peer_ip ch) + 1))
              = inr (ntohs port)).
Proof.
  cbv zeta. unfold NetworkRequestChannel_of_fd. split.
  - now intros ->.
  - intros family port a b c d -> Ha Hb Hc Hd.
    cbn [sin_addr sin_port inet_ntop].
    assert (Hfit : (length (dotted a b c d) <? INET_ADDRSTRLEN)%nat = true).
    { apply Nat.ltb_lt. unfold dotted, INET_ADDRSTRLEN.
      rewrite !length_app. change (length (txt ".")) with 1%nat.
      pose proof (octet_length a Ha). pose proof (octet_length b Hb).
      pose proof (octet_length c Hc). pose proof (octet_length d Hd). lia. }
    rewrite Hfit. eexists. split; [reflexivity |].
    unfold get_socket_fd, get_peer_address.
    cbn [sockfd peer_ip peer_port].
    change (txt ":") with [":"%char]. cbn [app].
    assert (Hcolon : ~ In ":"%char (dotted a b c d)).
    { unfold dotted. rewrite !in_app_iff.
      unfold is_octet in *.
      intros [H | [H | [H | [H | [H | [H | H]]]]]];
        try (revert H; apply octet_no_colon; lia);
        destruct H as [H | []]; discriminate H. }
    rewrite find_first, substr_from_first by exact Hcolon.
    split; [reflexivity |]. split; [now apply inet_pton_dotted |].
    split; [reflexivity |]. split; [reflexivity |].
    apply stoi_int_to_text. unfold is_int, ntohs.
    pose proof (Z.mod_pos_bound port (2 ^ 16) ltac:(reflexivity)) as Hp.
    split.
    + apply Z.le_trans with 0; [discriminate | lia].
    + apply Z.le_trans with (2 ^ 16); [lia | discriminate].
Qed.

Lemma accepted_peer_address_witness :
  let getpeername :=
    fun fd : Z => if fd =? 7 then Some (mkAddr AF_INET 51234 [192; 168; 0; 17])
                  else None in
  exists ch,
    NetworkRequestChannel_of_fd getpeername (mkAddr 0 0 []) 7 = Returned ch
    /\ get_peer_address ch = txt "192.168.0.17:51234".
Proof.
  intros getpeername.
  destruct (proj2 (accepted_peer_address getpeername (mkAddr 0 0 []) 7)
              AF_INET 51234 192 168 0 17 eq_refl)
    as (ch & Hch & _); try (unfold is_octet; lia).
  exists ch. split; [exact Hch |].
  vm_compute in Hch. injection Hch as <-. reflexivity.
Defined.

(** ** At the edge of the buffer, and past the end of the stream *)

(** A frame of exactly 1024 bytes is received within the buffer, and then
    its terminator is written one past the end: reading such a frame is
    undefined, in whatever pieces it arrives. The buffer holds frames of up
    to 1023 bytes. *)
Theorem full_buffer_frame_overflows (payload : text) (lb junk : list byte)
    (parse : text -> outcome Request) (s : socket) :
  length payload = BUFFER_SIZE ->
  forallb delivers (recvs s) = true ->
  header_whole (recvs s) = true ->
  (length payload < length (recvs s))%nat ->
  inbox s = frame_of payload ->
  fst (read_frame lb junk s) = Undefined oob_terminator
  /\ fst (receive_request parse lb junk s) = Undefined oob_terminator.
Proof.
  intros Hlen Hfair Hhead Hsched Hin.
  assert (Hread : forall lb', fst (read_frame lb' junk s)
                              = Undefined oob_terminator).
  { intros lb'.
    destruct (recvs s) as [| [| c] rs'] eqn:Hrs; try discriminate.
    cbn [header_whole] in Hhead. cbn [forallb] in Hfair.
    cbn [length] in Hsched.
    apply Nat.leb_le in Hhead. apply andb_prop in Hfair as [_ Hfair].
    unfold frame_of in Hin. unfold read_frame.
    rewrite (read_header_whole lb' s _ _ c rs' (htonl_bytes_length _) Hin Hrs
               Hhead).
    rewrite wrap32_length by lia.
    rewrite ntohl_htonl
      by (rewrite Hlen; split; [lia | reflexivity]).
    match goal with
    | |- context [recv_loop ?r ?s1 ?b ?len 0] =>
        destruct (recv_loop_fair r s1 b len 0 [] payload [] Hfair)
          as (s' & buf' & t & Hrun & _ & Hbl & _)
    end; try reflexivity.
    - apply stack_buffer_length.
    - cbn [length]. lia.
    - cbn [inbox]. now rewrite app_nil_r.
    - cbn [recvs]. lia.
    - rewrite Hrun, Nat2Z.id, buf_write_None; [reflexivity |].
      rewrite Hbl, Hlen. cbn [length]. lia. }
  split; [apply Hread |].
  unfold receive_request.
  rewrite (surjective_pairing (read_frame _ _ _)), Hread. reflexivity.
Qed.

Lemma full_buffer_frame_overflows_witness :
  let payload := repeat "A"%char 1024 in
  let s := fresh_socket (frame_of payload)
             (RecvUpTo 4 :: repeat (RecvUpTo 100) 1024) [] in
  fst (read_frame [] [] s) = Undefined oob_terminator
  /\ fst (receive_request parseRequest [] [] s) = Undefined oob_terminator.
Proof.
  intros payload s.
  apply (full_buffer_frame_overflows payload [] [] parseRequest s).
  - reflexivity.
  - vm_compute. reflexivity.
  - reflexivity.
  - vm_compute. lia.
  - reflexivity.
Defined.

(** On a stream that has ended every answer of the kernel is a 0, and the
    receiving loop asks again after each of them. *)
Lemma recv_loop_uses_up (n c : nat) :
  forall (s : socket) (buf : buffer) (len received : Z),
    inbox s = [] -> 0 <= received < len -> len < 2 ^ 32 ->
    (Z.to_nat received <= length buf)%nat ->
    exists s',
      recv_loop (repeat (RecvUpTo c) n) s buf len received = (RecvBlocked, s')
      /\ trace s'
         = trace s ++ repeat (SysRecv (Z.to_nat (len - received)) 0) n.
Proof.
  induction n as [| n IH]; intros s buf len received Hin Hr H32 Hb; simpl.
  - destruct (Z.ltb_spec received len); [| lia].
    exists s. now rewrite app_nil_r.
  - destruct (Z.ltb_spec received len); [| lia].
    rewrite Hin. cbn [length]. rewrite Nat.min_0_r. cbn [firstn skipn].
    change (Z.of_nat 0 =? -1) with false. cbv iota.
    rewrite buf_write_Some by (cbn [length]; lia).
    rewrite Z.add_0_r, wrap64_small
      by (split; [lia |]; apply Z.lt_trans with (2 ^ 32); [lia | reflexivity]).
    match goal with
    | |- context [recv_loop _ ?s1 ?b1 len received] =>
        destruct (IH s1 b1 len received) as (s' & Hrun & Htr); auto
    end.
    + cbn [length app]. now rewrite Nat.add_0_r, firstn_skipn.
    + exists s'. rewrite Hrun. split; [reflexivity |].
      rewrite Htr. cbn [trace]. rewrite <- app_assoc. reflexivity.
Qed.

(** When the peer closes the connection after the header of a frame that
    announces a payload, [receive_request] does not return [Request(QUIT)]:
    [recv] answers 0, which is not -1, nothing is added to [received], and
    the loop calls [recv] again with the same arguments, as often as the
    kernel answers. *)
Theorem closed_after_header_never_returns (len : Z) (n c0 c : nat)
    (parse : text -> outcome Request) (lb junk : list byte) :
  0 < len < 2 ^ 32 ->
  (4 <= c0)%nat ->
  let s := fresh_socket (htonl_bytes len)
             (RecvUpTo c0 :: repeat (RecvUpTo c) n) [] in
  fst (receive_request parse lb junk s) = Blocked
  /\ trace (snd (receive_request parse lb junk s))
     = SysRecv 4 4 :: repeat (SysRecv (Z.to_nat len) 0) n.
Proof.
  intros Hlen Hc0 s.
  unfold receive_request, read_frame.
  rewrite (read_header_whole _ s (htonl_bytes len) [] c0
             (repeat (RecvUpTo c) n) (htonl_bytes_length _));
    [| subst s; cbn [fresh_socket inbox]; now rewrite app_nil_r
     | reflexivity | exact Hc0].
  rewrite ntohl_htonl by lia.
  match goal with
  | |- context [recv_loop ?r ?s1 ?b len 0] =>
      destruct (recv_loop_uses_up n c s1 b len 0) as (s' & Hrun & Htr);
        [reflexivity | lia | lia | cbn [Z.to_nat]; lia |];
      change r with (repeat (RecvUpTo c) n)
  end.
  rewrite Hrun. cbn [request_of_frame fst snd]. split; [reflexivity |].
  rewrite Htr, Z.sub_0_r. reflexivity.
Qed.

Lemma closed_after_header_never_returns_witness :
  let s := fresh_socket (htonl_bytes 5)
             (RecvUpTo 4 :: repeat (RecvUpTo 5) 3) [] in
  fst (receive_request parseRequest [] [] s) = Blocked
  /\ trace (snd (receive_request parseRequest [] [] s))
     = SysRecv 4 4 :: repeat (SysRecv (Z.to_nat 5) 0) 3.
Proof.
  apply (closed_after_header_never_returns 5 3 4 5 parseRequest [] []);
    [split; [lia | reflexivity] | lia].
Defined.

(** ** What the client makes of any encoded response *)

Lemma first_occurrence (c : ascii) (t : text) :
  In c t -> exists a rest, t = a ++ c :: rest /\ ~ In c a.
Proof.
  induction t as [| x t IH]; intros Hin; [destruct Hin |].
  destruct (ascii_dec x c) as [-> | Hx].
  - exists [], t. split; [reflexivity | intros []].
  - destruct Hin as [Hin | Hin]; [congruence |].
    destruct (IH Hin) as (a & rest & -> & Ha).
    exists (x :: a), rest. split; [reflexivity |].
    intros [H | H]; [congruence | now apply Ha].
Qed.

(** Whatever the fields of a response hold, as long as its encoding is
    shorter than the array: when [send_request] reads its frame, the two
    uninitialised locals never show. The flag comes back as it was, and the
    number is what [stod] makes of its text, whose exception is the only way
    the call fails. Of [data] and [message] the client has the text up to
    the first NUL: cut at its first delimiter when it has one, which it has
    when [data] holds no NUL; and both fields are empty when it has none, as
    when a NUL in [data] comes before any delimiter. *)
Theorem encoded_response_decoding (stack : send_request_stack)
    (req : Request) (resp : Response) (more : list byte) (s : socket) :
  (length (encode_request req) <= BUFFER_SIZE)%nat ->
  forallb takes (sends s) = true ->
  (4 + length (encode_request req) <= length (sends s))%nat ->
  (length (encode_response resp) < BUFFER_SIZE)%nat ->
  forallb delivers (recvs s) = true ->
  header_whole (recvs s) = true ->
  (length (encode_response resp) < length (recvs s))%nat ->
  inbox s = frame_of (encode_response resp) ++ more ->
  let tail := received_text (data resp ++ [delimiter] ++ message resp) in
  fst (send_request stack req s)
  = match stod (double_to_text (balance resp)) with
    | inl e => Threw e
    | inr v => Returned (mkResponse (success resp) v (fst (last_fields tail))
                           (snd (last_fields tail)))
    end
  /\ (In delimiter tail ->
      delimiter_free (fst (last_fields tail))
      /\ fst (last_fields tail) ++ [delimiter] ++ snd (last_fields tail)
         = tail)
  /\ (~ In delimiter tail -> last_fields tail = ([], []))
  /\ (~ In NUL (data resp) -> In delimiter tail)
  /\ (In NUL (data resp) -> delimiter_free (data resp) ->
      ~ In delimiter tail).
Proof.
  intros Hlreq Hss Hsched Hlen Hrs Hhead Hrsched Hin tail.
  split; [| split; [| split; [| split]]].
  - destruct (send_request_reads stack req (encode_response resp) more s)
      as (s' & Hrun & _); try assumption.
    rewrite Hrun. cbn [fst].
    rewrite received_encode_response. fold tail.
    apply decode_flag_number.
  - intros Hdel.
    destruct (first_occurrence delimiter tail Hdel) as (a & rest & E & Ha).
    unfold last_fields. rewrite E, split_field_first by exact Ha.
    cbn [fst snd]. split; [exact Ha | reflexivity].
  - intros Hnone. unfold last_fields.
    now rewrite split_field_absent.
  - intros Hnul. subst tail.
    rewrite received_text_app by exact Hnul.
    apply in_or_app. right.
    rewrite (received_text_app [delimiter])
      by (cbn; intuition discriminate).
    now left.
  - intros Hnul Hfree Hdel.
    destruct (first_occurrence NUL (data resp) Hnul) as (a & b & E & Ha).
    subst tail. rewrite E, <- app_assoc in Hdel. cbn [app] in Hdel.
    rewrite received_text_cut in Hdel by exact Ha.
    apply Hfree. rewrite E. apply in_or_app. now left.
Qed.

(** A response whose [data] holds a NUL: the flag and the number arrive,
    [data] and [message] are lost. *)
Lemma encoded_response_decoding_witness :
  let resp := mkResponse true d100_5 [ "a"%char; NUL; "b"%char ] (txt "OK") in
  let s := fresh_socket (frame_of (encode_response resp))
             (RecvUpTo 4 :: repeat (RecvUpTo 3) 17)
             (repeat (SendUpTo 2) 14) in
  fst (send_request (mkStack [] [] false zero_double)
         (mkRequest BALANCE 42 zero_double [] []) s)
  = Returned (mkResponse true d100_5 [] []).
Proof.
  intros resp s.
  destruct (encoded_response_decoding (mkStack [] [] false zero_double)
              (mkRequest BALANCE 42 zero_double [] []) resp [] s)
    as (Hrun & _).
  - vm_compute. lia.
  - reflexivity.
  - vm_compute. lia.
  - vm_compute. lia.
  - reflexivity.
  - reflexivity.
  - vm_compute. lia.
  - cbn [inbox s fresh_socket]. now rewrite app_nil_r.
  - rewrite Hrun. vm_compute. reflexivity.
Defined.

(** ** What every constructed channel holds *)

(** Whichever side it is made for, a channel that the constructor returns
    has a socket that was created, the side asked for, the port as given,
    and an IPv4 address record: family [AF_INET], the port reduced to
    sixteen bits, and four address parts of one byte each; and the kernel
    accepted that very record, in [bind] and [listen] for a server, in
    [connect] for a client. *)
Theorem constructed_channel_address (k : kernel) (ip : text) (port : Z)
    (side : Side) (ch : NetworkRequestChannel) :
  NetworkRequestChannel_new k ip port side = Returned ch ->
  my_side ch = side
  /\ sockfd ch = k_socket k /\ sockfd ch <> -1
  /\ peer_port ch = port
  /\ sin_family (server_addr ch) = AF_INET
  /\ sin_port (server_addr ch) = htons port
  /\ 0 <= sin_port (server_addr ch) < 2 ^ 16
  /\ length (sin_addr (server_addr ch)) = 4%nat
  /\ Forall is_octet (sin_addr (server_addr ch))
  /\ match side with
     | SERVER_SIDE => k_bind k (server_addr ch) <> -1 /\ k_listen k <> -1
     | CLIENT_SIDE => k_connect k (server_addr ch) <> -1
     end.
Proof.
  assert (Hport : 0 <= htons port < 2 ^ 16)
    by (unfold htons; apply Z.mod_pos_bound; reflexivity).
  assert (Hparse : forall src a, inet_pton src = Some a ->
                                 length a = 4%nat /\ Forall is_octet a).
  { intros src a H. unfold inet_pton in H.
    apply (inet_pton4_sound src [] 0 false 0%nat a) in H;
      [assumption | constructor | unfold is_octet; lia | reflexivity
       | lia | intros _; lia]. }
  assert (Hany : length INADDR_ANY = 4%nat /\ Forall is_octet INADDR_ANY)
    by (split; [reflexivity |];
        repeat constructor; unfold is_octet; lia).
  unfold NetworkRequestChannel_new. intros Hmade.
  destruct side.
  - destruct (Z.eqb_spec (k_socket k) (-1)) as [| Hs]; [discriminate |].
    destruct (Z.eqb_spec (k_setsockopt k) (-1)) as [| Ho]; [discriminate |].
    match type of Hmade with
    | match ?b with _ => _ end = _ => destruct b as [a |] eqn:Hb
    end; [| discriminate].
    destruct (Z.eqb_spec (k_bind k (mkAddr AF_INET (htons port) a)) (-1))
      as [| Hbind]; [discriminate |].
    destruct (Z.eqb_spec (k_listen k) (-1)) as [| Hl]; [discriminate |].
    injection Hmade as <-. cbn.
    assert (Ha : length a = 4%nat /\ Forall is_octet a).
    { destruct ip; [injection Hb as <-; exact Hany | exact (Hparse _ _ Hb)]. }
    destruct Ha. repeat split; auto; apply Hport.
  - destruct (Z.eqb_spec (k_socket k) (-1)) as [| Hs]; [discriminate |].
    match type of Hmade with
    | match ?b with _ => _ end = _ => destruct b as [a |] eqn:Hb
    end; [| discriminate].
    destruct (Z.eqb_spec (k_connect k (mkAddr AF_INET (htons port) a)) (-1))
      as [| Hc]; [discriminate |].
    injection Hmade as <-. cbn.
    assert (Ha : length a = 4%nat /\ Forall is_octet a).
    { destruct (text_eqb ip (txt "localhost")); exact (Hparse _ _ Hb). }
    destruct Ha. repeat split; auto; apply Hport.
Qed.

Lemma constructed_channel_address_witness :
  let k := mkKernel 3 0 (fun _ => 0) 0 (fun _ => 0) in
  let ch := mkChannel SERVER_SIDE 3 (mkAddr AF_INET 8080 [10; 0; 0; 7])
              (txt "0.0.0.0") 8080 in
  NetworkRequestChannel_new k (txt "10.0.0.7") 8080 SERVER_SIDE = Returned ch
  /\ length (sin_addr (server_addr ch)) = 4%nat
  /\ Forall is_octet (sin_addr (server_addr ch)).
Proof.
  intros k ch.
  assert (Hmade : NetworkRequestChannel_new k (txt "10.0.0.7") 8080
                    SERVER_SIDE = Returned ch)
    by (vm_compute; reflexivity).
  split; [exact Hmade |].
  destruct (constructed_channel_address k (txt "10.0.0.7") 8080 SERVER_SIDE ch
              Hmade)
    as (_ & _ & _ & _ & _ & _ & _ & Hl & Ha & _).
  split; assumption.
Defined.
